(** * The settings engine of nexus: a shallow embedding

    This development embeds the settings module of the repository
    ([create], [resolve], [resolveNamespace], [resolveRecord], [initialize],
    [doInitialize], [runInitializer], [runTypeMapper], [metadataToData],
    [validateSpec]) and proves properties of it; it ends with
    [remapNexusTypesWithBackingTypes] of the backing types.

    Conventions of the embedding.

    - JavaScript values are the inductive [value].  An object is the list of
      its own enumerable properties, in enumeration order; the flag [plain]
      is the answer of [Lo.isPlainObject].  Arrays (and every other
      non-plain object) are objects with [plain = false]; an array's keys
      are its indices.
    - The code mutates [data] and [metadata] in place.  Every function that
      does so returns an [outcome]: the objects as they are when the function
      returns or throws, and the error thrown, if any.  A caller that handed
      a sub-object ([data[name]], [metadata[name].fields], ...) to a callee
      puts the callee's result back at the place it was read from
      ([writeBack]); this is in-place mutation read functionally.
    - The functions a specifier carries ([initial], [shorthand], [fixup],
      [validate], [mapType]) and the [onFixup] option are functions of the
      embedding; they return [Returned r] or [Threw cause].  They are pure:
      an initializer gives a fresh value at each call.
    - A value held at two places (the [value] and the [initial] of a
      metadata node, the data of a leaf) is two equal values: the embedding
      does not track that the code holds one object there.  The code writes
      to such an object only when a namespace initializer seeded a record,
      so the statements that read [initial] after a change are for specs
      without namespace initializers.
    - In the settings, [o[k]] reads the properties [o] holds itself.  For a
      name that objects inherit from [Object.prototype] ([inheritedNames]:
      [toString], [constructor], ...) and that [o] does not hold, the code
      finds the inherited member; such reads are outside the embedding, and
      the statements that depend on one are for names that are not
      inherited.  The backing types model the inherited member
      ([backingTypeOf]).
    - [log.trace], [log.debug] and [log.warn] calls are left out. *)

From Stdlib Require Import List String Ascii ZArith Bool Lia.
From Stdlib Require Import Decimal DecimalNat DecimalString.
Import ListNotations.
Local Open Scope string_scope.

Set Warnings "-register-all".

(** ** JavaScript values *)

Unset Elimination Schemes.
Inductive value : Type :=
| VUndefined
| VNull
| VBool (b : bool)
| VNum (n : Z)
| VStr (s : string)
| VObj (plain : bool) (props : list (string * value)).
Set Elimination Schemes.

(** [{}] *)
Definition emptyObject : value := VObj true [].

(** [Lo.isPlainObject] *)
Definition isPlainObject (v : value) : bool :=
  match v with
  | VObj true _ => true
  | _ => false
  end.

(** What [if (v)] and [!v] test. *)
Definition truthy (v : value) : bool :=
  match v with
  | VUndefined | VNull => false
  | VBool b => b
  | VNum n => negb (Z.eqb n 0)
  | VStr s => negb (String.eqb s "")
  | VObj _ _ => true
  end.

Definition nullish (v : value) : bool :=
  match v with
  | VUndefined | VNull => true
  | _ => false
  end.

(** [a ?? b] *)
Definition nullishOr (a b : value) : value :=
  if nullish a then b else a.

(** ** Property lists *)

Section Assoc.
Context {A : Type}.

Fixpoint lookup (l : list (string * A)) (k : string) : option A :=
    match l with
    | [] => None
    | (k', a) :: r => if String.eqb k' k then Some a else lookup r k
    end.

  (** [o[k] = a] on the property list of [o]: an existing property keeps its
      place, a new one is added last. *)
Fixpoint assign (l : list (string * A)) (k : string) (a : A) : list (string * A) :=
    match l with
    | [] => [(k, a)]
    | (k', a') :: r =>
        if String.eqb k' k then (k', a) :: r else (k', a') :: assign r k a
    end.

  (** The same, for a property that exists already; nothing is added. *)
Fixpoint replace (l : list (string * A)) (k : string) (a : A) : list (string * A) :=
    match l with
    | [] => []
    | (k', a') :: r =>
        if String.eqb k' k then (k', a) :: r else (k', a') :: replace r k a
    end.

Definition keys (l : list (string * A)) : list string := map fst l.
End Assoc.

Section LookupWith.
Context {A B : Type} (f : A -> B).

  (** [f] applied to the property [k] of [l], when there is one. *)
Fixpoint lookupWith (l : list (string * A)) (k : string) : option B :=
    match l with
    | [] => None
    | (k', a) :: r => if String.eqb k' k then Some (f a) else lookupWith r k
    end.
End LookupWith.

(** The key of the [i]-th element of an array or character of a string. *)
Definition indexKey (i : nat) : string :=
  NilEmpty.string_of_uint (Nat.to_uint i).

Fixpoint charEntries (i : nat) (s : string) : list (string * value) :=
  match s with
  | EmptyString => []
  | String c r => (indexKey i, VStr (String c EmptyString)) :: charEntries (S i) r
  end.

(** The own enumerable properties of a value, as [Lo.forOwn], [Lo.entries]
    and [Lo.mapValues] enumerate them: those of an object, the characters of
    a string, nothing for the other primitives. *)
Definition ownEntries (v : value) : list (string * value) :=
  match v with
  | VObj _ props => props
  | VStr s => charEntries 0 s
  | _ => []
  end.

(** [Lo.mapValues(o, f)] *)
Definition mapValues (f : value -> value) (o : value) : value :=
  VObj true (map (fun kv => (fst kv, f (snd kv))) (ownEntries o)).

(** ** Errors *)

(** The cause a function of the specification threw. *)
Definition exn := string.

Inductive call (A : Type) : Type :=
| Returned (a : A)
| Threw (cause : exn).
Arguments Returned {A} a.
Arguments Threw {A} cause.

(** The errors of the module.  The code throws plain [Error]s told apart by
    their message; the constructors carry what the message is built from. *)
Inductive error : Type :=
| UnknownSetting (inputFieldName : string)
  (* You are trying to change a setting called "..." but no such setting exists *)
| NotANamespace (inputFieldName : string) (inputFieldValue : value)
  (* Setting "..." is not a namespace and so does not accept objects, but one given: ... *)
| UnknownSpecifierKind
  (* Unknown kind of specifier: ... *)
| ShorthandNotSupported (path : string) (inputFieldValue : value)
  (* Setting "..." is a namespace with no shorthand so expects an object but received a non-object: ... *)
| ShorthandError (path : string) (inputFieldValue : value) (cause : exn)
  (* There was an unexpected error while running the namespace shorthand for setting "..." *)
| NonObjectRecord
  (* received a non-object for record-type settings *)
| FixupError (inputFieldName : string) (v : value) (cause : exn)
  (* Fixup for "..." failed while running on value ... *)
| OnFixupError (inputFieldName : string) (cause : exn)
  (* onFixup callback for "..." failed *)
| ValidationRuntimeError (inputFieldName : string) (v : value) (cause : exn)
  (* Validation for "..." unexpectedly failed while running on value ... *)
| ValidationFailed (inputFieldName : string) (v : value) (messages : list string)
  (* Your setting "..." failed validation with value ...: - ... *)
| TypeMapperError (inputFieldName : string) (cause : exn)
  (* There was an unexpected error while running the type mapper for setting "..." *)
| InitializerError (inputFieldName : string) (cause : exn)
  (* There was an unexpected error while running the initializer for setting "..." *)
| InvalidInitializerKind (inputFieldName : string) (v : value)
  (* Initializer for setting "..." was configured with a static value. It must be a function. *)
| Uncaught (cause : exn)
  (* an exception of a function of the specification that no handler wraps *)
| TypeError.
  (* a property read or written on undefined or null, a property written on
     a primitive (the module is in strict mode), a call of a non-function *)

Inductive result (A : Type) : Type :=
| Ok (a : A)
| Err (e : error).
Arguments Ok {A} a.
Arguments Err {A} e.

(** [o[k]] *)
Definition getProp (o : value) (k : string) : result value :=
  if nullish o then Err TypeError
  else Ok (match lookup (ownEntries o) k with
           | Some v => v
           | None => VUndefined
           end).

(** [o[k] = v] *)
Definition setProp (o : value) (k : string) (v : value) : result value :=
  match o with
  | VObj plain props => Ok (VObj plain (assign props k v))
  | _ => Err TypeError
  end.

(** The object [o] after the object it holds at [k] was mutated into [child]. *)
Definition writeBack (o : value) (k : string) (child : value) : value :=
  match o with
  | VObj plain props => VObj plain (replace props k child)
  | _ => o
  end.

(** The names every object inherits from [Object.prototype]: for one that an
    object does not hold itself, [o[k]] is the inherited member (a function;
    the prototype for [__proto__]), not [undefined]. *)
Definition inheritedNames : list string :=
  ["constructor"; "__defineGetter__"; "__defineSetter__"; "hasOwnProperty";
   "__lookupGetter__"; "__lookupSetter__"; "isPrototypeOf"; "propertyIsEnumerable";
   "toString"; "valueOf"; "__proto__"; "toLocaleString"].

Definition inherited (k : string) : bool :=
  existsb (String.eqb k) inheritedNames.

(** None of the names is inherited. *)
Definition ownNames (ks : list string) : bool :=
  forallb (fun k => negb (inherited k)) ks.

(** ** The spec tree *)

(** What a fixup returns when it corrected the value: [{ value, messages }]. *)
Record FixupResult : Type := {
  fixedValue : value;
  fixupMessages : list string }.

(** [specifier.initial] when it is not [undefined]: a function, or a static
    value (a configuration error). *)
Inductive initializer : Type :=
| InitialFunction (run : call value)
| InitialStatic (v : value).

(** A specifier is the object the caller wrote: every property is optional,
    and the code tells leaves, namespaces and records apart by the
    properties present ([fields], then [entryFields]). *)
Inductive specifier : Type := Specifier {
  initial : option initializer;
  fields : option (list (string * specifier));
  entryFields : option (list (string * specifier));
  shorthand : option (value -> call value);
  fixup : option (value -> call (option FixupResult));
  validate : option (value -> call (option (list string)));
  mapType : option (value -> call value) }.

Definition Spec : Type := list (string * specifier).

(** [if (specifier.p)] for an optional property [p]. *)
Definition has {A : Type} (p : option A) : bool :=
  match p with
  | Some _ => true
  | None => false
  end.

Record FixupInfo : Type := {
  name : string;
  before : value;
  after : value;
  messages : list string }.

(** The options of [create].  A custom [onFixup] handler may throw; what it
    logs, itself or through the original handler it is given, is left out. *)
Record Options : Type := {
  onFixup : option (FixupInfo -> call unit) }.

(** [{}], the options of a seed resolution *)
Definition noOptions : Options := {| onFixup := None |}.

Inductive MetadataValueFromType : Type :=
| FromSet
| FromInitial.

Definition fromValue (from : MetadataValueFromType) : value :=
  match from with
  | FromSet => VStr "set"
  | FromInitial => VStr "initial"
  end.

(** The two guards of the callback of [resolve] that reject an object given
    to a leaf, as the code writes them. *)
Definition notANamespaceGuard (isValueObject : bool) (specifier : specifier) : bool :=
  isValueObject && negb (has specifier.(fields)) && negb (has specifier.(entryFields)).

Definition unknownKindGuard (isValueObject : bool) (specifier : specifier) : bool :=
  isValueObject && negb (has specifier.(entryFields)) && negb (has specifier.(fields)).

(** ** Outcomes of the mutating functions *)

Record outcome : Type := Outcome {
  outData : value;
  outMetadata : value;
  thrown : option error }.

Definition done (data metadata : value) : outcome :=
  Outcome data metadata None.

Definition throw (e : error) (data metadata : value) : outcome :=
  Outcome data metadata (Some e).

Section Iteration.
Context {A : Type} (callback : string -> A -> value -> value -> outcome).

  (** One call of [callback] per entry, on the same [data] and [metadata]
      objects, until a call throws: [Lo.forOwn(input, callback)] and
      [Lo.chain(fields).entries().reduce(callback, { data, metadata })]. *)
Fixpoint forEachEntry (entries : list (string * A)) (data metadata : value) : outcome :=
    match entries with
    | [] => done data metadata
    | (k, a) :: rest =>
        let o := callback k a data metadata in
        match thrown o with
        | Some _ => o
        | None => forEachEntry rest o.(outData) o.(outMetadata)
        end
    end.
End Iteration.

(** ** Metadata nodes *)

Definition initMetadataField (v : value) : value :=
  VObj true [("type", VStr "leaf"); ("from", VStr "initial"); ("value", v); ("initial", v)].

(** [Lo.cloneDeep] is the identity on values. *)
Definition initMetadataRecord (v : value) : value :=
  VObj true [("type", VStr "record"); ("from", VStr "initial"); ("value", v); ("initial", v)].

(** The metadata a namespace initializer's object is turned into:
    [{ value: v, from: 'initial', initial: v }] for each of its properties. *)
Definition seedNode (v : value) : value :=
  VObj true [("value", v); ("from", VStr "initial"); ("initial", v)].

Definition seedMetadata (initializedNamespace : value) : value :=
  VObj true [("fields", mapValues seedNode initializedNamespace)].

(** ** The leaf pipeline of [resolve] *)

Definition runTypeMapper (typeMapper : value -> call value) (inputFieldValue : value)
    (inputFieldName : string) : result value :=
  match typeMapper inputFieldValue with
  | Returned v => Ok v
  | Threw e => Err (TypeMapperError inputFieldName e)
  end.

(** "Run fixups": the value the fixup leaves, after the handler was told. *)
Definition runFixup (options : Options) (specifier : specifier)
    (inputFieldName : string) (inputFieldValue : value) : result value :=
  match specifier.(fixup) with
  | None => Ok inputFieldValue
  | Some f =>
      match f inputFieldValue with
      | Threw e => Err (FixupError inputFieldName inputFieldValue e)
      | Returned None => Ok inputFieldValue
      | Returned (Some maybeFixedup) =>
          let fixupInfo :=
            {| before := inputFieldValue;
               after := maybeFixedup.(fixedValue);
               name := inputFieldName;
               messages := maybeFixedup.(fixupMessages) |} in
          match options.(onFixup) with
          | Some handler =>
              match handler fixupInfo with
              | Returned _ => Ok maybeFixedup.(fixedValue)
              | Threw e => Err (OnFixupError inputFieldName e)
              end
          | None => Ok maybeFixedup.(fixedValue)
          end
      end
  end.

(** "Run validators" *)
Definition runValidate (specifier : specifier) (inputFieldName : string)
    (resolvedValue : value) : result value :=
  match specifier.(validate) with
  | None => Ok resolvedValue
  | Some f =>
      match f resolvedValue with
      | Threw e => Err (ValidationRuntimeError inputFieldName resolvedValue e)
      | Returned (Some violations) =>
          Err (ValidationFailed inputFieldName resolvedValue violations)
      | Returned None => Ok resolvedValue
      end
  end.

(** "Run type mappers" *)
Definition runMapType (specifier : specifier) (inputFieldName : string)
    (resolvedValue : value) : result value :=
  match specifier.(mapType) with
  | None => Ok resolvedValue
  | Some typeMapper => runTypeMapper typeMapper resolvedValue inputFieldName
  end.

(** "committing data": the four assignments that end the callback of
    [resolve]. *)
Definition commit (metadataFrom : MetadataValueFromType) (inputFieldName : string)
    (resolvedValue : value) (data metadata : value) : outcome :=
  match setProp data inputFieldName resolvedValue with
  | Err e => throw e data metadata
  | Ok data' =>
      match getProp metadata inputFieldName with
      | Err e => throw e data' metadata
      | Ok node =>
          match node with
          | VObj plain props =>
              let props := assign props "value" resolvedValue in
              let props := assign props "from" (fromValue metadataFrom) in
              let props :=
                match metadataFrom with
                | FromInitial => assign props "initial" resolvedValue
                | FromSet => props
                end in
              done data' (writeBack metadata inputFieldName (VObj plain props))
          | _ => throw TypeError data' metadata
          end
      end
  end.

Definition resolveLeaf (options : Options) (metadataFrom : MetadataValueFromType)
    (specifier : specifier) (inputFieldName : string) (inputFieldValue : value)
    (data metadata : value) : outcome :=
  match runFixup options specifier inputFieldName inputFieldValue with
  | Err e => throw e data metadata
  | Ok resolvedValue =>
      match runValidate specifier inputFieldName resolvedValue with
      | Err e => throw e data metadata
      | Ok resolvedValue =>
          match runMapType specifier inputFieldName resolvedValue with
          | Err e => throw e data metadata
          | Ok resolvedValue =>
              commit metadataFrom inputFieldName resolvedValue data metadata
          end
      end
  end.

(** ** Sequencing *)

(** [r] is evaluated while the objects are [d] and [m]: its error, if any,
    is thrown from that state. *)
Notation "'try' x <- r 'from' d , m ; k" :=
  (match r with
   | Err e => throw e d m
   | Ok x => k
   end)
  (at level 10, x pattern, r at level 100, d at level 9, m at level 9, k at level 200).

(** [run] works on the objects held at [k] by [data] and by [metadata]
    (the arguments [data[k]] and [metadata[k]] of a call). *)
Definition onChildren (k : string) (run : value -> value -> outcome)
    (data metadata : value) : outcome :=
  try d <- getProp data k from data, metadata;
  try m <- getProp metadata k from data, metadata;
  let o := run d m in
  Outcome (writeBack data k o.(outData)) (writeBack metadata k o.(outMetadata)) o.(thrown).

(** ** Initializers *)

Definition runInitializer (specifier : specifier) (inputFieldName : string)
    (data : value) : result value :=
  match specifier.(initial) with
  | None =>
      (* the namespace might have initialized some data *)
      match getProp data inputFieldName with
      | Ok d => Ok (nullishOr d VUndefined)
      | Err e => Err e
      end
  | Some (InitialFunction run) =>
      match run with
      | Returned v => Ok v
      | Threw e => Err (InitializerError inputFieldName e)
      end
  | Some (InitialStatic v) => Err (InvalidInitializerKind inputFieldName v)
  end.

(** [specifier.initial?.() ?? {}] *)
Definition initializedNamespaceOf (specifier : specifier) : result value :=
  match specifier.(initial) with
  | None => Ok emptyObject
  | Some (InitialFunction run) =>
      match run with
      | Returned v => Ok (nullishOr v emptyObject)
      | Threw e => Err (Uncaught e)
      end
  | Some (InitialStatic v) => if nullish v then Ok emptyObject else Err TypeError
  end.

(** [specifier.initial ? runInitializer(specifier, inputFieldName, data) : {}] *)
Definition initialRecordOf (specifier : specifier) (inputFieldName : string)
    (data : value) : result value :=
  match specifier.(initial) with
  | None => Ok emptyObject
  | Some (InitialStatic v) =>
      if truthy v then runInitializer specifier inputFieldName data else Ok emptyObject
  | Some (InitialFunction _) => runInitializer specifier inputFieldName data
  end.

(** [data[inputFieldName] = value] and
    [metadata[inputFieldName] = initMetadataField(value)], which end the
    callback of [doInitialize] at a leaf. *)
Definition commitInitial (inputFieldName : string) (v : value)
    (data metadata : value) : outcome :=
  try data <- setProp data inputFieldName v from data, metadata;
  try metadata <- setProp metadata inputFieldName (initMetadataField v)
     from data, metadata;
  done data metadata.

(** ** The recursive functions

    [resolve] and [doInitialize] call each other through the spec tree:
    [resolve] initializes the new entries of a record, [doInitialize]
    resolves the seeds of one.  Both recurse on the specifier they are at;
    the section gives their bodies, over the two functions applied one
    level down. *)

Section Bodies.
  (** The callback of [Lo.forOwn] in [resolve], once [fields[inputFieldName]]
      was found. *)
Variable resolveField :
    specifier -> Options -> MetadataValueFromType -> string -> value ->
    value -> value -> outcome.
  (** The callback of [reduce] in [doInitialize]. *)
Variable initializeField : specifier -> string -> value -> value -> outcome.

(** [resolve]: the pass [Lo.forOwn(input, ...)].  [fields[inputFieldName]] is
    read among the settings that [fields] holds itself; for a name that
    objects inherit the code finds the inherited member instead (see the
    conventions). *)
Definition resolveIn (options : Options) (metadataFrom : MetadataValueFromType)
      (fields : Spec) (input : value) (data metadata : value) : outcome :=
    forEachEntry
      (fun inputFieldName inputFieldValue data metadata =>
         match lookupWith
                 (fun specifier =>
                    resolveField specifier options metadataFrom
                                 inputFieldName inputFieldValue data metadata)
                 fields inputFieldName with
         | None => throw (UnknownSetting inputFieldName) data metadata
         | Some o => o
         end)
      (ownEntries input) data metadata.

  (** [resolve] on a [fields] that may be [undefined]: each key of the input
      then reads a property of [undefined]. *)
Definition resolveInMaybe (options : Options) (metadataFrom : MetadataValueFromType)
      (fields : option Spec) (input : value) (data metadata : value) : outcome :=
    match fields with
    | Some fields => resolveIn options metadataFrom fields input data metadata
    | None =>
        forEachEntry (fun _ (_ : value) data metadata => throw TypeError data metadata)
                     (ownEntries input) data metadata
    end.

Definition doInitializeIn (fields : Spec) (data metadata : value) : outcome :=
    forEachEntry (fun inputFieldName specifier => initializeField specifier inputFieldName)
                 fields data metadata.

Definition doInitializeInMaybe (fields : option Spec) (data metadata : value) : outcome :=
    match fields with
    | Some fields => doInitializeIn fields data metadata
    | None => done data metadata
    end.

  (** [initialize(fields)]: the two fresh objects, unless it throws. *)
Definition initializeInMaybe (fields : option Spec) : result (value * value) :=
    let o := doInitializeInMaybe fields emptyObject emptyObject in
    match o.(thrown) with
    | Some e => Err e
    | None => Ok (o.(outData), o.(outMetadata))
    end.

Definition resolveNamespaceBody (options : Options)
      (metadataFrom : MetadataValueFromType) (specifier : specifier)
      (inputFieldValue : value) (path : string) (data metadata : value) : outcome :=
    let isValueObject := isPlainObject inputFieldValue in
    if negb isValueObject && has specifier.(fields) && negb (has specifier.(shorthand)) then
      throw (ShorthandNotSupported path inputFieldValue) data metadata
    else
      let longhand :=
        match specifier.(shorthand) with
        | Some expand =>
            if negb isValueObject then
              match expand inputFieldValue with
              | Returned v => Ok v
              | Threw e => Err (ShorthandError path inputFieldValue e)
              end
            else Ok inputFieldValue
        | None => Ok inputFieldValue
        end in
      try longhandValue <- longhand from data, metadata;
      try metadataFields <- getProp metadata "fields" from data, metadata;
      let o := resolveInMaybe options metadataFrom specifier.(fields) longhandValue
                              data metadataFields in
      Outcome o.(outData) (writeBack metadata "fields" o.(outMetadata)) o.(thrown).

(** [if (!data[key]) { ... }] in [resolveRecord]: a record entry that the data
    does not hold yet is initialized from the entry fields.  [data[key]] is
    read among the entries the record holds itself (see the conventions for
    the names objects inherit). *)
Definition ensureRecordEntryBody (specifier : specifier) (key : string)
      (data metadata : value) : outcome :=
    try entryData <- getProp data key from data, metadata;
    if negb (truthy entryData) then
      (* initializing new record entry *)
      try (initialData, initialMetadata) <-
         initializeInMaybe specifier.(entryFields) from data, metadata;
      try data' <- setProp data key initialData from data, metadata;
      try metadataValue <- getProp metadata "value" from data', metadata;
      try metadataValue' <- setProp metadataValue key initialMetadata
         from data', metadata;
      done data' (writeBack metadata "value" metadataValue')
    else done data metadata.

(** The callback of [Lo.forOwn] in [resolveRecord]. *)
Definition resolveRecordEntryBody (options : Options)
      (metadataFrom : MetadataValueFromType) (specifier : specifier)
      (key : string) (inputEntryValue : value) (data metadata : value) : outcome :=
    let o := ensureRecordEntryBody specifier key data metadata in
    match o.(thrown) with
    | Some _ => o
    | None =>
        let data := o.(outData) in
        let metadata := o.(outMetadata) in
        try entryData <- getProp data key from data, metadata;
        try metadataValue <- getProp metadata "value" from data, metadata;
        try entryMetadata <- getProp metadataValue key from data, metadata;
        let r := resolveInMaybe options metadataFrom specifier.(entryFields)
                                inputEntryValue entryData entryMetadata in
        Outcome (writeBack data key r.(outData))
                (writeBack metadata "value"
                           (writeBack metadataValue key r.(outMetadata)))
                r.(thrown)
    end.

Definition resolveRecordBody (options : Options)
      (metadataFrom : MetadataValueFromType) (specifier : specifier)
      (inputFieldValue : value) (data metadata : value) : outcome :=
    let isValueObject := isPlainObject inputFieldValue in
    if negb isValueObject then throw NonObjectRecord data metadata
    else
      forEachEntry (resolveRecordEntryBody options metadataFrom specifier)
                   (ownEntries inputFieldValue) data metadata.

Definition resolveFieldBody (specifier : specifier) (options : Options)
      (metadataFrom : MetadataValueFromType) (inputFieldName : string)
      (inputFieldValue : value) (data metadata : value) : outcome :=
    let isValueObject := isPlainObject inputFieldValue in
    if notANamespaceGuard isValueObject specifier then
      throw (NotANamespace inputFieldName inputFieldValue) data metadata
    else if unknownKindGuard isValueObject specifier then
      throw UnknownSpecifierKind data metadata
    else if has specifier.(fields) then
      onChildren inputFieldName
        (resolveNamespaceBody options metadataFrom specifier inputFieldValue inputFieldName)
        data metadata
    else if has specifier.(entryFields) then
      onChildren inputFieldName
        (resolveRecordBody options metadataFrom specifier inputFieldValue)
        data metadata
    else
      resolveLeaf options metadataFrom specifier inputFieldName inputFieldValue
                  data metadata.

  (** The seeds of a record: each is resolved, as an input from ['initial'],
      on a fresh entry. *)
Definition initializeRecordEntries (specifier : specifier) (initialRecord : value)
      : outcome :=
    forEachEntry
      (fun k v accData accMetadata =>
         try (initialData, initialMetadata) <-
            initializeInMaybe specifier.(entryFields) from accData, accMetadata;
         let r := resolveInMaybe noOptions FromInitial specifier.(entryFields) v
                                 initialData initialMetadata in
         match r.(thrown) with
         | Some e => throw e accData accMetadata
         | None =>
             try accData' <- setProp accData k r.(outData) from accData, accMetadata;
             try accMetadata' <- setProp accMetadata k r.(outMetadata)
                from accData', accMetadata;
             done accData' accMetadata'
         end)
      (ownEntries initialRecord) emptyObject emptyObject.

Definition initializeFieldBody (specifier : specifier) (inputFieldName : string)
      (data metadata : value) : outcome :=
    if has specifier.(fields) then
      try initializedNamespace <- initializedNamespaceOf specifier from data, metadata;
      try existingData <- getProp data inputFieldName from data, metadata;
      try data <- setProp data inputFieldName (nullishOr existingData initializedNamespace)
         from data, metadata;
      try existingMetadata <- getProp metadata inputFieldName from data, metadata;
      try metadata <- setProp metadata inputFieldName
                        (nullishOr existingMetadata (seedMetadata initializedNamespace))
         from data, metadata;
      try namespaceData <- getProp data inputFieldName from data, metadata;
      try namespaceMetadata <- getProp metadata inputFieldName from data, metadata;
      try metadataFields <- getProp namespaceMetadata "fields" from data, metadata;
      let o := doInitializeInMaybe specifier.(fields) namespaceData metadataFields in
      Outcome (writeBack data inputFieldName o.(outData))
              (writeBack metadata inputFieldName
                         (writeBack namespaceMetadata "fields" o.(outMetadata)))
              o.(thrown)
    else if has specifier.(entryFields) then
      try initialRecord <- initialRecordOf specifier inputFieldName data
         from data, metadata;
      let initialRecordInitialized := initializeRecordEntries specifier initialRecord in
      match initialRecordInitialized.(thrown) with
      | Some e => throw e data metadata
      | None =>
          try data <- setProp data inputFieldName initialRecordInitialized.(outData)
             from data, metadata;
          try existingMetadata <- getProp metadata inputFieldName from data, metadata;
          try metadata <- setProp metadata inputFieldName
                            (nullishOr existingMetadata
                               (initMetadataRecord initialRecordInitialized.(outMetadata)))
             from data, metadata;
          done data metadata
      end
    else
      try value <- runInitializer specifier inputFieldName data from data, metadata;
      try value <- runMapType specifier inputFieldName value from data, metadata;
      commitInitial inputFieldName value data metadata.
End Bodies.

Fixpoint resolveField (specifier : specifier) (options : Options)
    (metadataFrom : MetadataValueFromType) (inputFieldName : string)
    (inputFieldValue : value) (data metadata : value) {struct specifier} : outcome :=
  resolveFieldBody resolveField initializeField specifier options metadataFrom
                   inputFieldName inputFieldValue data metadata
with initializeField (specifier : specifier) (inputFieldName : string)
    (data metadata : value) {struct specifier} : outcome :=
  initializeFieldBody resolveField initializeField specifier inputFieldName
                      data metadata.

(** [resolve(options, metadataFrom, fields, input, data, metadata)] *)
Definition resolve : Options -> MetadataValueFromType -> Spec -> value ->
    value -> value -> outcome :=
  resolveIn resolveField.

Definition resolveNamespace : Options -> MetadataValueFromType -> specifier ->
    value -> string -> value -> value -> outcome :=
  resolveNamespaceBody resolveField.

Definition resolveRecord : Options -> MetadataValueFromType -> specifier ->
    value -> value -> value -> outcome :=
  resolveRecordBody resolveField initializeField.

Definition ensureRecordEntry : specifier -> string -> value -> value -> outcome :=
  ensureRecordEntryBody initializeField.

Definition resolveRecordEntry : Options -> MetadataValueFromType -> specifier ->
    string -> value -> value -> value -> outcome :=
  resolveRecordEntryBody resolveField initializeField.

(** [doInitialize(fields, data, metadata)] *)
Definition doInitialize : Spec -> value -> value -> outcome :=
  doInitializeIn initializeField.

(** [initialize(fields)] *)
Definition initialize (fields : Spec) : result (value * value) :=
  initializeInMaybe initializeField (Some fields).

(** ** The manager *)

Section MetadataToData.
Context (callback : string -> value -> value -> result value).

  (** [Lo.forOwn(metadata, callback)], the callback assigning into [copy] *)
Fixpoint forOwnInto (entries : list (string * value)) (copy : value) : result value :=
    match entries with
    | [] => Ok copy
    | (k, v) :: rest =>
        match callback k v copy with
        | Ok copy' => forOwnInto rest copy'
        | Err e => Err e
        end
    end.
End MetadataToData.

Fixpoint metadataToData (metadata : value) (copy : value) {struct metadata} : result value :=
  match metadata with
  | VObj _ props =>
      forOwnInto
        (fun name info copy =>
           match info with
           | VUndefined | VNull => Err TypeError
           | VObj _ infoProps =>
               match lookupWith (fun f => (truthy f, metadataToData f emptyObject))
                                infoProps "fields" with
               | Some (true, Ok nested) => setProp copy name nested
               | Some (true, Err e) => Err e
               | _ =>
                   match lookup infoProps "initial" with
                   | Some v => setProp copy name v
                   | None => setProp copy name VUndefined
                   end
               end
           | _ => setProp copy name VUndefined
           end)
        props copy
  | VStr s =>
      forOwnInto (fun name (_ : value) copy => setProp copy name VUndefined)
                 (charEntries 0 s) copy
  | _ => Ok copy
  end.

(** The state [create] closes over: the spec, the options, and the two
    objects [state.data] and [state.metadata] ([state.original] is never
    assigned). *)
Record Manager : Type := {
  managerFields : Spec;
  managerOptions : Options;
  managerData : value;
  managerMetadata : value }.

Definition create (fields : Spec) (options : Options) : result Manager :=
  match initialize fields with
  | Ok (data, metadata) =>
      Ok {| managerFields := fields; managerOptions := options;
            managerData := data; managerMetadata := metadata |}
  | Err e => Err e
  end.

(** [change(input)]: the manager afterwards, and the error if it threw. *)
Definition change (m : Manager) (input : value) : Manager * option error :=
  let o := resolve m.(managerOptions) FromSet m.(managerFields) input
                   m.(managerData) m.(managerMetadata) in
  ({| managerFields := m.(managerFields); managerOptions := m.(managerOptions);
      managerData := o.(outData); managerMetadata := o.(outMetadata) |},
   o.(thrown)).

Definition reset (m : Manager) : result Manager :=
  create m.(managerFields) m.(managerOptions).

Definition original (m : Manager) : result value :=
  metadataToData m.(managerMetadata) emptyObject.

(** * Definitions the theorems are stated with *)

(** The callback of [Lo.forOwn] in [resolve]. *)
Definition resolveEntry (options : Options) (metadataFrom : MetadataValueFromType)
    (fields : Spec) (inputFieldName : string) (inputFieldValue : value)
    (data metadata : value) : outcome :=
  match lookup fields inputFieldName with
  | None => throw (UnknownSetting inputFieldName) data metadata
  | Some specifier =>
      resolveField specifier options metadataFrom inputFieldName inputFieldValue
                   data metadata
  end.


(** The errors other than "Unknown kind of specifier". *)
Definition notUnknownKind (e : error) : Prop :=
  match e with UnknownSpecifierKind => False | _ => True end.

(** No error of [o] is "Unknown kind of specifier". *)
Definition neverUnknownKind (o : outcome) : Prop :=
  forall e, o.(thrown) = Some e -> notUnknownKind e.

Definition throwsUnknownKind (o : outcome) : bool :=
  match o.(thrown) with
  | Some UnknownSpecifierKind => true
  | _ => false
  end.


(** [o'] is [o] but for its property [k]. *)
Definition sameButAt (k : string) (o o' : value) : Prop :=
  forall k', k <> k' -> getProp o' k' = getProp o k'.

Definition framed (k : string) (data metadata : value) (o : outcome) : Prop :=
  sameButAt k data o.(outData) /\ sameButAt k metadata o.(outMetadata).

(** [o[k1][k2]...] *)
Fixpoint getPath (o : value) (path : list string) : result value :=
  match path with
  | [] => Ok o
  | k :: rest =>
      match getProp o k with
      | Ok child => getPath child rest
      | Err e => Err e
      end
  end.

Definition sameNullish (data metadata : value) (o : outcome) : Prop :=
  nullish o.(outData) = nullish data /\ nullish o.(outMetadata) = nullish metadata.

(** The kinds of error of the specification's taxonomy (its section 7). *)
Definition specTaxonomy : list string :=
  ["InvalidInitializerKind"; "UnknownSetting"; "NotANamespace"; "ShorthandNotSupported";
   "ShorthandError"; "InitializerError"; "FixupError"; "OnFixupError";
   "ValidationRuntimeError"; "ValidationFailed"; "TypeMapperError"].

Definition errorKind (e : error) : string :=
  match e with
  | UnknownSetting _ => "UnknownSetting"
  | NotANamespace _ _ => "NotANamespace"
  | UnknownSpecifierKind => "UnknownSpecifierKind"
  | ShorthandNotSupported _ _ => "ShorthandNotSupported"
  | ShorthandError _ _ _ => "ShorthandError"
  | NonObjectRecord => "NonObjectRecord"
  | FixupError _ _ _ => "FixupError"
  | OnFixupError _ _ => "OnFixupError"
  | ValidationRuntimeError _ _ _ => "ValidationRuntimeError"
  | ValidationFailed _ _ _ => "ValidationFailed"
  | TypeMapperError _ _ => "TypeMapperError"
  | InitializerError _ _ => "InitializerError"
  | InvalidInitializerKind _ _ => "InvalidInitializerKind"
  | Uncaught _ => "Uncaught"
  | TypeError => "TypeError"
  end.

Definition inTaxonomy (e : error) : bool :=
  existsb (String.eqb (errorKind e)) specTaxonomy.

(** The commit pipeline of a leaf as the specification words it (section
    4.2, "Leaf case", steps 1 to 5), for a leaf that defines [fixup] as [f],
    [validate] as [g] and [mapType] as [h]. *)
Definition commitPipeline (options : Options) (metadataFrom : MetadataValueFromType)
    (f : value -> call (option FixupResult))
    (g : value -> call (option (list string)))
    (h : value -> call value)
    (inputFieldName : string) (inputValue : value) (data metadata : value) : outcome :=
  (* 1 *)
  let resolvedValue := inputValue in
  (* 2 *)
  match f resolvedValue with
  | Threw cause => throw (FixupError inputFieldName resolvedValue cause) data metadata
  | Returned fixed =>
      let notified :=
        match fixed, options.(onFixup) with
        | Some r, Some handler =>
            handler {| name := inputFieldName; before := inputValue;
                       after := r.(fixedValue); messages := r.(fixupMessages) |}
        | _, _ => Returned tt
        end in
      let resolvedValue :=
        match fixed with
        | Some r => r.(fixedValue)
        | None => resolvedValue
        end in
      match notified with
      | Threw cause => throw (OnFixupError inputFieldName cause) data metadata
      | Returned _ =>
          (* 3 *)
          match g resolvedValue with
          | Threw cause =>
              throw (ValidationRuntimeError inputFieldName resolvedValue cause) data metadata
          | Returned (Some violations) =>
              throw (ValidationFailed inputFieldName resolvedValue violations) data metadata
          | Returned None =>
              (* 4 *)
              match h resolvedValue with
              | Threw cause => throw (TypeMapperError inputFieldName cause) data metadata
              | Returned mapped =>
                  (* 5 *)
                  commit metadataFrom inputFieldName mapped data metadata
              end
          end
      end
  end.

Definition committedNode (metadataFrom : MetadataValueFromType) (v node : value) : value :=
  match node with
  | VObj plain props =>
      let props := assign props "value" v in
      let props := assign props "from" (fromValue metadataFrom) in
      VObj plain match metadataFrom with
                 | FromInitial => assign props "initial" v
                 | FromSet => props
                 end
  | _ => node
  end.

(** The specifier without the [fixup] and [validate] of its leaves: those
    of the leaves that [doInitialize] reaches through namespaces.  A record
    is left as it is (its seeds are resolved as input, through the fixups
    and validators of its entry fields). *)
Fixpoint withoutChecks (sp : specifier) : specifier :=
  match sp with
  | Specifier i f e s fx vd mt =>
      match f, e with
      | Some fs, _ =>
          Specifier i (Some (map (fun kv => (fst kv, withoutChecks (snd kv))) fs))
                    e s fx vd mt
      | None, Some _ => sp
      | None, None => Specifier i None None s None None mt
      end
  end.

Definition specWithoutChecks (spec : Spec) : Spec :=
  map (fun kv => (fst kv, withoutChecks (snd kv))) spec.

(** The value [doInitialize] gives a leaf: its initial value, type-mapped. *)
Definition leafInitialValue (leaf : specifier) (k : string) (base : value) : result value :=
  match runInitializer leaf k base with
  | Ok v => runMapType leaf k v
  | Err e => Err e
  end.



(** ** Leaves, read by path *)

(** [typeof v === 'object'] for a value that is not [null]. *)
Definition isObject (v : value) : bool :=
  match v with
  | VObj _ _ => true
  | _ => false
  end.

(** [m.type === t] *)
Definition hasType (t : string) (m : value) : bool :=
  match m with
  | VObj _ props =>
      match lookup props "type" with
      | Some (VStr s) => String.eqb s t
      | _ => false
      end
  | _ => false
  end.

(** The entry [key] of a record, in its data [d] and in the [value] of its
    metadata [m] (a node of type ['record']), when the data holds one. *)
Definition atEntry {A : Type} (key : string) (inner : value -> value -> option A)
    (d m : value) : option A :=
  match getProp d key, getProp m "value" with
  | Ok entryData, Ok metadataValue =>
      match getProp metadataValue key with
      | Ok entryMetadata =>
          if hasType "record" m && truthy entryData
          then inner entryData entryMetadata
          else None
      | Err _ => None
      end
  | _, _ => None
  end.

(** The node of a leaf, read at its field: an object of type ['leaf']. *)
Definition leafNode (_ m : value) : option value :=
  if hasType "leaf" m then Some m else None.

(** The fields of a namespace, in its data [d] and in the [fields] of its
    metadata [m]. *)
Definition atFields {A : Type} (inner : value -> value -> option A)
    (d m : value) : option A :=
  match getProp m "fields" with
  | Ok metadataFields => inner d metadataFields
  | Err _ => None
  end.

(** The field [k], in the data and in the metadata. *)
Definition atField {A : Type} (k : string) (inner : value -> value -> option A)
    (data metadata : value) : option A :=
  match getProp data k, getProp metadata k with
  | Ok d, Ok m => inner d m
  | _, _ => None
  end.

(** The metadata node of the leaf at [path], when the data and the metadata
    have one there.  A path names a field at each namespace it goes through,
    a field and the key of an entry at each record; the entry is one the
    data of the record holds. *)
Fixpoint leafAt (spec : Spec) (data metadata : value) (path : list string)
    {struct path} : option value :=
  match path with
  | [] => None
  | inputFieldName :: rest =>
      match lookup spec inputFieldName with
      | None => None
      | Some specifier =>
          match specifier.(fields), specifier.(entryFields) with
          | Some fs, _ =>
              atField inputFieldName
                (atFields (fun d metadataFields => leafAt fs d metadataFields rest))
                data metadata
          | None, Some efs =>
              match rest with
              | key :: rest' =>
                  atField inputFieldName
                    (atEntry key (fun entryData entryMetadata =>
                                    leafAt efs entryData entryMetadata rest'))
                    data metadata
              | [] => None
              end
          | None, None =>
              match rest with
              | [] => atField inputFieldName leafNode data metadata
              | _ :: _ => None
              end
          end
      end
  end.

(** What a change may do to the metadata node of a leaf: nothing, or set
    its [from] to ['set']; its [initial] stays. *)
Definition changedLeaf (node node' : value) : Prop :=
  getProp node' "initial" = getProp node "initial"
  /\ (node' = node \/ getProp node' "from" = Ok (VStr "set")).

(** A call writes to objects only: what is not an object is what it was, and
    the data stay an object. *)
Definition keepsNonObjects (data metadata : value) (o : outcome) : Prop :=
  (isObject data = false -> o.(outData) = data)
  /\ (isObject metadata = false -> o.(outMetadata) = metadata)
  /\ (isObject data = true -> isObject o.(outData) = true).

(** The leaf that [read] finds is still found, changed as a change may. *)
Definition keepsLeaf (read : value -> value -> option value) (d m : value) (o : outcome)
    : Prop :=
  forall node,
    read d m = Some node ->
    exists node', read o.(outData) o.(outMetadata) = Some node' /\ changedLeaf node node'.

(** A leaf node as [initMetadataField] makes it: from ['initial'], its value
    the initial one. *)
Definition initialLeaf (node : value) : Prop :=
  getProp node "from" = Ok (VStr "initial")
  /\ getProp node "value" = getProp node "initial".

(** Every node [read] finds is an initial leaf. *)
Definition allInitial (read : value -> value -> option value) (d m : value) : Prop :=
  forall node, read d m = Some node -> initialLeaf node.

(** A call that returns leaves the nodes [read] finds initial ones, when they
    were. *)
Definition staysInitial (read : value -> value -> option value) (d m : value)
    (o : outcome) : Prop :=
  o.(thrown) = None -> allInitial read d m -> allInitial read o.(outData) o.(outMetadata).

(** The keys of an object are distinct: the specs the caller can write. *)
Fixpoint nodupb (l : list string) : bool :=
  match l with
  | [] => true
  | k :: rest => negb (existsb (String.eqb k) rest) && nodupb rest
  end.

(** Distinct keys in the [fields] and the [entryFields] of a specifier, and
    below. *)
Fixpoint distinctKeys (sp : specifier) : bool :=
  match sp with
  | Specifier _ fs efs _ _ _ _ =>
      match fs with
      | Some fs => nodupb (keys fs) && forallb (fun kv => distinctKeys (snd kv)) fs
      | None => true
      end
      && match efs with
         | Some efs => nodupb (keys efs) && forallb (fun kv => distinctKeys (snd kv)) efs
         | None => true
         end
  end.

Definition distinctKeysSpec (spec : Spec) : bool :=
  nodupb (keys spec) && forallb (fun kv => distinctKeys (snd kv)) spec.

(** The metadata [doInitialize] may find at a field: nothing, or what a
    namespace initializer seeded. *)
Definition seedState (metadata : value) : Prop :=
  forall k, getProp metadata k = Ok VUndefined
            \/ exists v, getProp metadata k = Ok (seedNode v).

(** The value an input gives at [path], through plain objects. *)
Fixpoint inputAt (input : value) (path : list string) : option value :=
  match path with
  | [] => Some input
  | inputFieldName :: rest =>
      if isPlainObject input && nodupb (keys (ownEntries input)) then
        match lookup (ownEntries input) inputFieldName with
        | Some v => inputAt v rest
        | None => None
        end
      else None
  end.

(** Every node [read] finds is from ['set']. *)
Definition allSet (read : value -> value -> option value) (d m : value) : Prop :=
  forall node, read d m = Some node -> getProp node "from" = Ok (VStr "set").

(** The manager after the calls [change(input)], one per input, whether they
    return or throw. *)
Definition changes (m : Manager) (inputs : list value) : Manager :=
  fold_left (fun m input => fst (change m input)) inputs m.

(** The metadata node of the leaf at [path] in the state of a manager. *)
Definition leafOf (m : Manager) (path : list string) : option value :=
  leafAt m.(managerFields) m.(managerData) m.(managerMetadata) path.

(** The errors of the pipeline of the leaf [k]: the value was an object, or
    its fixup, the [onFixup] handler, its validator or its type mapper
    refused it. *)
Definition pipelineError (k : string) (e : error) : Prop :=
  match e with
  | NotANamespace k' _ | FixupError k' _ _ | OnFixupError k' _
  | ValidationRuntimeError k' _ _ | ValidationFailed k' _ _
  | TypeMapperError k' _ => k' = k
  | _ => False
  end.

(** The keys of an object after [o[k] = ...]: a new key comes last. *)
Definition addKey (ks : list string) (k : string) : list string :=
  if existsb (String.eqb k) ks then ks else (ks ++ [k])%list.

(** The state of a manager whose data and metadata hold the settings of its
    spec, one key each, in the order of the spec. *)
Definition holdsTheSettings (m : Manager) : Prop :=
  (isPlainObject m.(managerData) = true
   /\ keys (ownEntries m.(managerData)) = keys m.(managerFields))
  /\ (isPlainObject m.(managerMetadata) = true
      /\ keys (ownEntries m.(managerMetadata)) = keys m.(managerFields)).

(** The callback of [Lo.forOwn] in [metadataToData]. *)
Definition originalEntry (name : string) (info : value) (copy : value) : result value :=
  match info with
  | VUndefined | VNull => Err TypeError
  | VObj _ infoProps =>
      match lookupWith (fun f => (truthy f, metadataToData f emptyObject))
                       infoProps "fields" with
      | Some (true, Ok nested) => setProp copy name nested
      | Some (true, Err e) => Err e
      | _ =>
          match lookup infoProps "initial" with
          | Some v => setProp copy name v
          | None => setProp copy name VUndefined
          end
      end
  | _ => setProp copy name VUndefined
  end.

(** Two metadata nodes that [metadataToData] reads the same. *)
Definition sameOriginal (node node' : value) : Prop :=
  forall name copy, originalEntry name node' copy = originalEntry name node copy.

(** A spec whose namespaces have no initializer of their own, so that no
    object of a seed is both the [value] and the [initial] of a node. *)
Fixpoint seedless (sp : specifier) : bool :=
  match sp with
  | Specifier init fs efs _ _ _ _ =>
      match fs with
      | Some fs => negb (has init) && forallb (fun kv => seedless (snd kv)) fs
      | None =>
          match efs with
          | Some efs => forallb (fun kv => seedless (snd kv)) efs
          | None => true
          end
      end
  end.

Definition seedlessSpec (spec : Spec) : bool :=
  forallb (fun kv => seedless (snd kv)) spec.

(** A spec of leaves and of namespaces without an initializer, the keys of
    each namespace distinct. *)
Fixpoint leavesAndNamespaces (sp : specifier) : bool :=
  match sp with
  | Specifier init fs efs _ _ _ _ =>
      match fs, efs with
      | Some fs, _ =>
          negb (has init) && nodupb (keys fs)
          && forallb (fun kv => leavesAndNamespaces (snd kv)) fs
      | None, Some _ => false
      | None, None => true
      end
  end.

Definition leavesAndNamespacesSpec (spec : Spec) : bool :=
  nodupb (keys spec) && forallb (fun kv => leavesAndNamespaces (snd kv)) spec.

(** [metadataToData] gives back the data that [initialize] made. *)
Definition originalIsData (fs : Spec) : Prop :=
  (doInitialize fs emptyObject emptyObject).(thrown) = None ->
  metadataToData (doInitialize fs emptyObject emptyObject).(outMetadata) emptyObject
  = Ok (doInitialize fs emptyObject emptyObject).(outData).

(** The same, of one field more. *)
Definition originalIsDataAt (sp : specifier) : Prop :=
  forall name p mp d,
    lookup mp name = None ->
    getProp d name = Ok VUndefined ->
    metadataToData (VObj p mp) emptyObject = Ok d ->
    (initializeField sp name d (VObj p mp)).(thrown) = None ->
    metadataToData (initializeField sp name d (VObj p mp)).(outMetadata) emptyObject
    = Ok (initializeField sp name d (VObj p mp)).(outData).

(** What the [mapType] of a specifier holds as the caller wrote it: a
    function, or a value of some other type. *)
Inductive mapTypeSource : Type :=
| MapTypeFunction (typeMapper : value -> call value)
| MapTypeOther (v : value).

(** A specifier as written: the one of the engine, but for [mapType]. *)
Inductive specifierSource : Type := SpecifierSource {
  sourceInitial : option initializer;
  sourceFields : option (list (string * specifierSource));
  sourceEntryFields : option (list (string * specifierSource));
  sourceShorthand : option (value -> call value);
  sourceFixup : option (value -> call (option FixupResult));
  sourceValidate : option (value -> call (option (list string)));
  sourceMapType : option mapTypeSource }.

Definition SpecSource : Type := list (string * specifierSource).

(** The error of [validateSpec]: "Type mapper for setting "..." was invalid.
    Type mappers must be functions. Got: ...". *)
Inductive specError : Type :=
| InvalidTypeMapper (name : string) (got : value).

(** [specifier.mapType !== undefined && typeof specifier.mapType !== 'function'],
    with the value that is then reported. *)
Definition invalidMapType (m : option mapTypeSource) : option value :=
  match m with
  | Some (MapTypeOther VUndefined) => None
  | Some (MapTypeOther v) => Some v
  | Some (MapTypeFunction _) => None
  | None => None
  end.

Section FirstThrown.
Context {A E : Type} (callback : string -> A -> option E).

  (** [Lo.forOwn(o, callback)] for a callback that may throw: the first
      error. *)
Fixpoint firstThrown (entries : list (string * A)) : option E :=
    match entries with
    | [] => None
    | (k, a) :: rest =>
        match callback k a with
        | Some e => Some e
        | None => firstThrown rest
        end
    end.
End FirstThrown.

(** The callback of [Lo.forOwn] in [validateSpec]. *)
Fixpoint validateSpecifier (name : string) (source : specifierSource)
    {struct source} : option specError :=
  match source with
  | SpecifierSource _ fs efs _ _ _ mapType =>
      match fs with
      | Some fs => firstThrown (fun name source => validateSpecifier name source) fs
      | None =>
          match efs with
          | Some efs =>
              firstThrown (fun name source => validateSpecifier name source) efs
          | None =>
              match invalidMapType mapType with
              | Some got => Some (InvalidTypeMapper name got)
              | None => None
              end
          end
      end
  end.

(** [validateSpec(spec)]: the error it throws, if any. *)
Definition validateSpec (spec : SpecSource) : option specError :=
  firstThrown validateSpecifier spec.

(** [process.env.NODE_ENV === 'production'] *)
Definition isProduction (nodeEnv : option string) : bool :=
  match nodeEnv with
  | Some s => String.eqb s "production"
  | None => false
  end.

(** [process.env.NODE_ENV !== 'production'] *)
Definition isDevelopment (nodeEnv : option string) : bool :=
  negb (isProduction nodeEnv).

(** The type mapper the engine finds: [if (specifier.mapType)] lets a falsy
    value pass for none, and calling a value that is not a function throws a
    [TypeError], which [runTypeMapper] wraps like any error of a mapper. *)
Definition mapTypeOf (m : option mapTypeSource) : option (value -> call value) :=
  match m with
  | Some (MapTypeFunction typeMapper) => Some typeMapper
  | Some (MapTypeOther v) =>
      if truthy v then Some (fun _ => Threw "TypeError: typeMapper is not a function")
      else None
  | None => None
  end.

Fixpoint specifierOf (source : specifierSource) : specifier :=
  match source with
  | SpecifierSource init fs efs sh fx vd mapType =>
      {| initial := init;
         fields := option_map (map (fun kv => (fst kv, specifierOf (snd kv)))) fs;
         entryFields := option_map (map (fun kv => (fst kv, specifierOf (snd kv)))) efs;
         shorthand := sh; fixup := fx; validate := vd;
         mapType := mapTypeOf mapType |}
  end.

Definition specOf (spec : SpecSource) : Spec :=
  map (fun kv => (fst kv, specifierOf (snd kv))) spec.

(** [create({ fields, ...options })] from its first line, under
    [process.env.NODE_ENV]: the error of [validateSpec], or what the rest of
    [create] does. *)
Definition createIn (nodeEnv : option string) (fields : SpecSource) (options : Options)
    : specError + result Manager :=
  if isDevelopment nodeEnv then
    match validateSpec fields with
    | Some e => inl e
    | None => inr (create (specOf fields) options)
    end
  else inr (create (specOf fields) options).

(** The leaves [validateSpec] gets to: those of the spec, of the [fields] of
    its namespaces and of the [entryFields] of its records.  A specifier
    with [fields] is a namespace, whatever else it holds. *)
Inductive checkedLeaf : SpecSource -> string -> specifierSource -> Prop :=
| CheckedHere spec name leaf :
    In (name, leaf) spec ->
    leaf.(sourceFields) = None -> leaf.(sourceEntryFields) = None ->
    checkedLeaf spec name leaf
| CheckedInNamespace spec k namespace fs name leaf :
    In (k, namespace) spec ->
    namespace.(sourceFields) = Some fs ->
    checkedLeaf fs name leaf ->
    checkedLeaf spec name leaf
| CheckedInRecord spec k record efs name leaf :
    In (k, record) spec ->
    record.(sourceFields) = None -> record.(sourceEntryFields) = Some efs ->
    checkedLeaf efs name leaf ->
    checkedLeaf spec name leaf.

(** The data that [dread] finds are the [value] of the node that [read]
    finds, when it finds one. *)
Definition mirrored (read : value -> value -> option value) (dread : value -> result value)
    (d m : value) : Prop :=
  forall node, read d m = Some node -> dread d = getProp node "value".

Definition keepsMirror (read : value -> value -> option value)
    (dread : value -> result value) (d m : value) (o : outcome) : Prop :=
  mirrored read dread d m -> mirrored read dread o.(outData) o.(outMetadata).

(** [dread] applied to the property [k] of the data. *)
Definition under (k : string) (dread : value -> result value) (d : value) : result value :=
  match getProp d k with
  | Ok child => dread child
  | Err e => Err e
  end.

(** The state of a manager whose data hold, at the path of every leaf, the
    [value] of the leaf's metadata node. *)
Definition dataAreValues (m : Manager) : Prop :=
  forall path node,
    leafOf m path = Some node -> getPath m.(managerData) path = getProp node "value".



(** The exception of the [onFixup] handler of [options] on a fixup, if it
    throws; without a handler the fixup is logged. *)
Definition handlerThrows (options : Options) (info : FixupInfo) : option exn :=
  match options.(onFixup) with
  | Some handler =>
      match handler info with
      | Threw cause => Some cause
      | Returned _ => None
      end
  | None => None
  end.

(** What [backingTypes[name]] finds: the path that the object holds for the
    name, or, for a name that it does not hold and that objects inherit, the
    member of [Object.prototype] of that name (a function, or the prototype
    itself); [undefined] otherwise. *)
Inductive foundPath : Type :=
| FilePath (path : string)
| InheritedMember (memberName : string).

(** What [t.value.rootTyping] holds: the name of a backing type, or the
    import [{ name, path }] that [remapNexusTypesWithBackingTypes] puts in
    its place. *)
Inductive rootTyping : Type :=
| RootTypingName (s : string)
| RootTypingImport (importName : string) (path : foundPath).

(** The kinds of type definition that the [NexusSchema.core.isNexus...TypeDef]
    tests tell apart; the five that have a root typing, and the others. *)
Inductive typeDefKind : Type :=
| ObjectTypeDef | InterfaceTypeDef | UnionTypeDef | ScalarTypeDef | EnumTypeDef
| OtherTypeDef.

Record typeDef : Type := {
  typeKind : typeDefKind;
  typeName : string;
  typeRootTyping : option rootTyping }.

(** [BackingTypes]: the path of the file of each backing type. *)
Definition BackingTypes : Type := list (string * string).

Definition hasRootTyping (k : typeDefKind) : bool :=
  match k with
  | OtherTypeDef => false
  | _ => true
  end.

(** [backingTypes[name]], [None] for [undefined]. *)
Definition backingTypeOf (backingTypes : BackingTypes) (s : string) : option foundPath :=
  match lookup backingTypes s with
  | Some path => Some (FilePath path)
  | None => if inherited s then Some (InheritedMember s) else None
  end.

(** [!filePath] is false: a path that is not empty, or an inherited member. *)
Definition knownFile (filePath : option foundPath) : bool :=
  match filePath with
  | Some (FilePath path) => negb (String.eqb path "")
  | Some (InheritedMember _) => true
  | None => false
  end.

(** The callback of [types.map]. *)
Definition remapType (backingTypes : BackingTypes) (t : typeDef) : typeDef :=
  if hasRootTyping t.(typeKind) then
    match t.(typeRootTyping) with
    | Some (RootTypingName s) =>
        let filePath := backingTypeOf backingTypes s in
        if Nat.eqb (String.length s) 0 then t
        else
          match filePath with
          | Some path =>
              if negb (knownFile filePath) then t (* the warning *)
              else {| typeKind := t.(typeKind); typeName := t.(typeName);
                      typeRootTyping := Some (RootTypingImport s path) |}
          | None => t (* the warning *)
          end
    | _ => t
    end
  else t.

Definition remapNexusTypesWithBackingTypes (types : list typeDef)
    (backingTypes : BackingTypes) : list typeDef :=
  map (remapType backingTypes) types.


(** A path of the spec to a leaf, through namespaces. *)
Fixpoint specLeaf (spec : Spec) (path : list string) {struct path} : bool :=
  match path with
  | [] => false
  | inputFieldName :: rest =>
      match lookup spec inputFieldName with
      | None => false
      | Some specifier =>
          match specifier.(fields), specifier.(entryFields) with
          | Some fs, _ => specLeaf fs rest
          | None, Some _ => false
          | None, None =>
              match rest with
              | [] => true
              | _ :: _ => false
              end
          end
      end
  end.

(** Every object of [v] has distinct keys, and so below: the values the
    language can hold. *)
Fixpoint distinctProps (v : value) : bool :=
  match v with
  | VObj _ props =>
      nodupb (keys props) && forallb (fun kv => distinctProps (snd kv)) props
  | _ => true
  end.

(** [P] holds of every element of [l]. *)
Fixpoint allOf {A : Type} (P : A -> Prop) (l : list A) : Prop :=
  match l with
  | [] => True
  | a :: rest => P a /\ allOf P rest
  end.

(** The shorthands of [sp], and of the specifiers below, return such
    values for such values. *)
Fixpoint expandsToDistinct (sp : specifier) : Prop :=
  match sp with
  | Specifier _ fs efs sh _ _ _ =>
      match sh with
      | Some expand => forall v longhand, distinctProps v = true ->
                                          expand v = Returned longhand ->
                                          distinctProps longhand = true
      | None => True
      end
      /\ match fs with
         | Some fs => allOf (fun kv => expandsToDistinct (snd kv)) fs
         | None => True
         end
      /\ match efs with
         | Some efs => allOf (fun kv => expandsToDistinct (snd kv)) efs
         | None => True
         end
  end.

Definition expandsToDistinctSpec (spec : Spec) : Prop :=
  allOf (fun kv => expandsToDistinct (snd kv)) spec.

(** [y] is an object when [x] is, and holds at [k] what [x] holds there. *)
Definition agreeAt (k : string) (x y : value) : Prop :=
  isObject y = isObject x
  /\ lookup (ownEntries y) k = lookup (ownEntries x) k
  /\ getProp y k = getProp x k.

(** The leaf of the spec at [path], through namespaces. *)
Fixpoint specLeafAt (spec : Spec) (path : list string) {struct path} : option specifier :=
  match path with
  | [] => None
  | inputFieldName :: rest =>
      match lookup spec inputFieldName with
      | None => None
      | Some specifier =>
          match specifier.(fields), specifier.(entryFields) with
          | Some fs, _ => specLeafAt fs rest
          | None, Some _ => None
          | None, None =>
              match rest with
              | [] => Some specifier
              | _ :: _ => None
              end
          end
      end
  end.

(** [mapped] is [v] through the type mapper of [leaf], when it has one. *)
Definition typeMapped (leaf : specifier) (v mapped : value) : Prop :=
  match leaf.(mapType) with
  | Some typeMapper => typeMapper v = Returned mapped
  | None => mapped = v
  end.
(** * Specifications and inputs of the examples *)

Module Examples.
  (** [c(x)], the constant function *)
Definition c (x : value) : option initializer := Some (InitialFunction (Returned x)).

Definition leaf (init : option initializer) : specifier :=
    {| initial := init; fields := None; entryFields := None; shorthand := None;
       fixup := None; validate := None; mapType := None |}.

Definition namespace (fs : Spec) : specifier :=
    {| initial := None; fields := Some fs; entryFields := None; shorthand := None;
       fixup := None; validate := None; mapType := None |}.

Definition record (efs : Spec) (init : option initializer) : specifier :=
    {| initial := init; fields := None; entryFields := Some efs; shorthand := None;
       fixup := None; validate := None; mapType := None |}.

Definition obj (props : list (string * value)) : value := VObj true props.

Definition changed (r : result Manager) (input : value) : result Manager :=
    match r with
    | Ok m => match change m input with
              | (m', None) => Ok m'
              | (_, Some e) => Err e
              end
    | Err e => Err e
    end.

Definition dataOf (r : result Manager) : result value :=
    match r with Ok m => Ok m.(managerData) | Err e => Err e end.

Definition metadataOf (r : result Manager) : result value :=
    match r with Ok m => Ok m.(managerMetadata) | Err e => Err e end.

(** The leaf of the fixup tests: a path starts with a slash.  The validator
    rejects what the fixup would correct, the type mapper closes the path
    with a slash. *)
Definition leadingSlash (v : value) : bool :=
  match v with
  | VStr s => String.prefix "/" s
  | _ => false
  end.

Definition fixupSlash (v : value) : call (option FixupResult) :=
  match v with
  | VStr s =>
      if String.prefix "/" s then Returned None
      else Returned (Some {| fixedValue := VStr ("/" ++ s);
                             fixupMessages := ["must have leading slash"] |})
  | _ => Returned None
  end.

Definition validateSlash (v : value) : call (option (list string)) :=
  if leadingSlash v then Returned None else Returned (Some ["no leading slash"]).

Definition mapTrailingSlash (v : value) : call value :=
  match v with
  | VStr s => Returned (VStr (s ++ "/"))
  | _ => Returned v
  end.

Definition pathLeaf : specifier :=
  {| initial := c (VStr "/foo"); fields := None; entryFields := None; shorthand := None;
     fixup := Some fixupSlash; validate := Some validateSlash;
     mapType := Some mapTrailingSlash |}.

Definition pathSpec : Spec := [("path", pathLeaf)].

(** The objects of a manager just created, [{}] if [create] throws. *)
Definition initialData (fields : Spec) : value :=
  match initialize fields with
  | Ok (data, _) => data
  | Err _ => emptyObject
  end.

Definition initialMetadata (fields : Spec) : value :=
  match initialize fields with
  | Ok (_, metadata) => metadata
  | Err _ => emptyObject
  end.

(** The manager [create] returns when it does not throw. *)
Definition created (fields : Spec) (options : Options) : Manager :=
  {| managerFields := fields; managerOptions := options;
     managerData := initialData fields; managerMetadata := initialMetadata fields |}.

(** [{ a: { fields: { x: { initial: c(1) }, y: { initial: c(2) } } } }] *)
Definition xyNamespace : specifier :=
  namespace [("x", leaf (c (VNum 1))); ("y", leaf (c (VNum 2)))].

Definition xySpec : Spec := [("a", xyNamespace)].

(** The namespace of the shorthand tests:
    [shorthand(value) { return { b: value + ' via shorthand!' } }]. *)
Definition viaShorthand (v : value) : call value :=
  match v with
  | VStr s => Returned (obj [("b", VStr (s ++ " via shorthand!"))])
  | _ => Returned (obj [("b", v)])
  end.

Definition shorthandNamespace : specifier :=
  {| initial := None; fields := Some [("b", leaf (c (VStr "")))]; entryFields := None;
     shorthand := Some viaShorthand; fixup := None; validate := None; mapType := None |}.

Definition shorthandSpec : Spec := [("a", shorthandNamespace)].

(** The leaf of the validator tests: ['bar'] is too long. *)
Definition validateNotBar (v : value) : call (option (list string)) :=
  match v with
  | VStr s => if String.eqb s "bar" then Returned (Some ["Too long"]) else Returned None
  | _ => Returned None
  end.

Definition notBarLeaf : specifier :=
  {| initial := c (VStr "foo"); fields := None; entryFields := None; shorthand := None;
     fixup := None; validate := Some validateNotBar; mapType := None |}.

Definition notBarSpec : Spec := [("a", notBarLeaf)].

(** The same leaf beside a record of entries [{ x }]. *)
Definition xRecord (init : option initializer) : specifier :=
  record [("x", leaf (c (VNum 0)))] init.

Definition leafAndRecordSpec : Spec := [("a", notBarLeaf); ("r", xRecord None)].

(** A namespace with an initializer of its own:
    [{ initial: () => ({ x: 5, y: 6, z: 7 }),
       fields: { x: { initial: c(1) }, y: {} } }]. *)
Definition seed : value := obj [("x", VNum 5); ("y", VNum 6); ("z", VNum 7)].

Definition seededNamespace : specifier :=
  {| initial := c seed;
     fields := Some [("x", leaf (c (VNum 1))); ("y", leaf None)];
     entryFields := None; shorthand := None; fixup := None; validate := None;
     mapType := None |}.

Definition seededSpec : Spec := [("a", seededNamespace)].

(** A record with an entry in its seed:
    [{ r: { entryFields: { x: { initial: c(0) } },
            initial: () => ({ foo: { x: 1 } }) } }]. *)
Definition seededRecordSpec : Spec :=
  [("r", xRecord (c (obj [("foo", obj [("x", VNum 1)])])))].

(** The spec of the test of [original()]. *)
Definition twoNamespacesSpec : Spec :=
  [("a", namespace [("a", leaf (c (VStr "foo")))]);
   ("b", namespace [("a", leaf (c (VNum 1)))])].
End Examples.

(** * Facts about the embedding *)

(** ** Induction on spec trees *)

Section SpecifierInduction.
Variable P : specifier -> Prop.
Hypothesis step :
    forall sp,
      (forall fs, sp.(fields) = Some fs -> Forall (fun kv => P (snd kv)) fs) ->
      (forall efs, sp.(entryFields) = Some efs -> Forall (fun kv => P (snd kv)) efs) ->
      P sp.

Fixpoint specifier_induction (sp : specifier) : P sp.
Proof.
    apply step; destruct sp as [i f e s fx vd mt]; simpl; intros l Hl.
    - destruct f as [fs|]; [|discriminate]. injection Hl as <-.
      induction fs as [|[k s0] r IH]; constructor; [apply specifier_induction | exact IH].
    - destruct e as [efs|]; [|discriminate]. injection Hl as <-.
      induction efs as [|[k s0] r IH]; constructor; [apply specifier_induction | exact IH].
Qed.
End SpecifierInduction.

Lemma resolveField_eq sp options metadataFrom inputFieldName inputFieldValue data metadata :
  resolveField sp options metadataFrom inputFieldName inputFieldValue data metadata =
  resolveFieldBody resolveField initializeField sp options metadataFrom
                   inputFieldName inputFieldValue data metadata.
Proof. destruct sp; reflexivity. Qed.

Lemma initializeField_eq sp inputFieldName data metadata :
  initializeField sp inputFieldName data metadata =
  initializeFieldBody resolveField initializeField sp inputFieldName data metadata.
Proof. destruct sp; reflexivity. Qed.

(** ** Property lists *)

Lemma lookupWith_lookup {A B} (f : A -> B) l k :
  lookupWith f l k = option_map f (lookup l k).
Proof.
  induction l as [|[k' a] r IH]; simpl; [reflexivity|].
  destruct (String.eqb k' k); [reflexivity | exact IH].
Qed.

Lemma lookup_In {A} (l : list (string * A)) k a :
  lookup l k = Some a -> In (k, a) l.
Proof.
  induction l as [|[k' a'] r IH]; simpl; [discriminate|].
  destruct (String.eqb_spec k' k) as [->|_].
  - intros [= ->]. now left.
  - intros H. right. auto.
Qed.

Lemma lookup_assign_same {A} (l : list (string * A)) k a :
  lookup (assign l k a) k = Some a.
Proof.
  induction l as [|[k' a'] r IH]; simpl.
  - now rewrite String.eqb_refl.
  - destruct (String.eqb_spec k' k) as [->|Hne]; simpl.
    + now rewrite String.eqb_refl.
    + destruct (String.eqb_spec k' k); [contradiction | exact IH].
Qed.

Lemma lookup_assign_other {A} (l : list (string * A)) k k' a :
  k <> k' -> lookup (assign l k a) k' = lookup l k'.
Proof.
  intros Hne. induction l as [|[k0 a0] r IH]; simpl.
  - destruct (String.eqb_spec k k'); [contradiction | reflexivity].
  - destruct (String.eqb_spec k0 k) as [->|Hk]; simpl.
    + destruct (String.eqb_spec k k'); [contradiction | reflexivity].
    + destruct (String.eqb k0 k'); [reflexivity | exact IH].
Qed.

Lemma lookup_replace_same {A} (l : list (string * A)) k a :
  lookup (replace l k a) k = option_map (fun _ => a) (lookup l k).
Proof.
  induction l as [|[k' a'] r IH]; simpl; [reflexivity|].
  destruct (String.eqb_spec k' k) as [->|Hne]; simpl.
  - now rewrite String.eqb_refl.
  - destruct (String.eqb_spec k' k); [contradiction | exact IH].
Qed.

Lemma lookup_replace_other {A} (l : list (string * A)) k k' a :
  k <> k' -> lookup (replace l k a) k' = lookup l k'.
Proof.
  intros Hne. induction l as [|[k0 a0] r IH]; simpl; [reflexivity|].
  destruct (String.eqb_spec k0 k) as [->|Hk]; simpl.
  - destruct (String.eqb_spec k k'); [contradiction | reflexivity].
  - destruct (String.eqb k0 k'); [reflexivity | exact IH].
Qed.

Lemma replace_lookup_id {A} (l : list (string * A)) k a :
  lookup l k = Some a -> replace l k a = l.
Proof.
  induction l as [|[k' a'] r IH]; simpl; [reflexivity|].
  destruct (String.eqb_spec k' k) as [->|Hne].
  - now intros [= ->].
  - intros H. now rewrite IH.
Qed.

Lemma replace_absent {A} (l : list (string * A)) k a :
  lookup l k = None -> replace l k a = l.
Proof.
  induction l as [|[k' a'] r IH]; simpl; [reflexivity|].
  destruct (String.eqb k' k); [discriminate|].
  intros H. now rewrite IH.
Qed.

(** ** Reading and writing properties *)

Lemma getProp_setProp_same o k v o' :
  setProp o k v = Ok o' -> getProp o' k = Ok v.
Proof.
  destruct o; simpl; try discriminate. intros [= <-].
  unfold getProp; simpl. now rewrite lookup_assign_same.
Qed.

Lemma getProp_setProp_other o k k' v o' :
  setProp o k v = Ok o' -> k <> k' -> getProp o' k' = getProp o k'.
Proof.
  destruct o; simpl; try discriminate. intros [= <-] Hne.
  unfold getProp; simpl. now rewrite lookup_assign_other.
Qed.

Lemma getProp_writeBack_other o k k' child :
  k <> k' -> getProp (writeBack o k child) k' = getProp o k'.
Proof.
  intros Hne. destruct o; simpl; try reflexivity.
  unfold getProp; simpl. now rewrite lookup_replace_other.
Qed.

(** Putting back the very object that was read changes nothing. *)
Lemma writeBack_getProp o k child :
  getProp o k = Ok child -> writeBack o k child = o.
Proof.
  destruct o; simpl; try reflexivity.
  unfold getProp; simpl. intros [= H].
  destruct (lookup props k) as [v|] eqn:E.
  - subst. now rewrite (replace_lookup_id _ _ _ E).
  - now rewrite replace_absent.
Qed.

(** ** Iteration *)

Lemma forEachEntry_ext {A} (f g : string -> A -> value -> value -> outcome) es :
  (forall k a d m, In (k, a) es -> f k a d m = g k a d m) ->
  forall d m, forEachEntry f es d m = forEachEntry g es d m.
Proof.
  induction es as [|[k a] r IH]; intros H d m; simpl; [reflexivity|].
  rewrite (H k a d m) by now left.
  destruct (thrown (g k a d m)); [reflexivity|].
  apply IH. intros; apply H; now right.
Qed.

Lemma forEachEntry_app {A} (f : string -> A -> value -> value -> outcome) es1 es2 d m :
  forEachEntry f (es1 ++ es2) d m =
  let o := forEachEntry f es1 d m in
  match o.(thrown) with
  | Some _ => o
  | None => forEachEntry f es2 o.(outData) o.(outMetadata)
  end.
Proof.
  revert d m. induction es1 as [|[k a] r IH]; intros d m; simpl; [reflexivity|].
  destruct (thrown (f k a d m)) eqn:E; simpl.
  - now rewrite E.
  - apply IH.
Qed.

(** What [forEachEntry] throws, one of the calls threw; a property of the
    objects that every call keeps, the iteration keeps. *)
Lemma forEachEntry_invariant {A} (f : string -> A -> value -> value -> outcome)
    (I : value -> value -> Prop) (E : error -> Prop) es :
  (forall k a d m, In (k, a) es -> I d m ->
     I (f k a d m).(outData) (f k a d m).(outMetadata) /\
     (forall e, (f k a d m).(thrown) = Some e -> E e)) ->
  forall d m, I d m ->
    I (forEachEntry f es d m).(outData) (forEachEntry f es d m).(outMetadata) /\
    (forall e, (forEachEntry f es d m).(thrown) = Some e -> E e).
Proof.
  induction es as [|[k a] r IH]; intros H d m HI; simpl.
  - split; [exact HI | discriminate].
  - destruct (H k a d m (or_introl eq_refl) HI) as [HI' HE].
    destruct (thrown (f k a d m)) eqn:Et.
    + split; [exact HI' | now rewrite Et].
    + apply IH; [|exact HI']. intros; apply H; [now right | assumption].
Qed.

Lemma resolve_forEach options metadataFrom fields input data metadata :
  resolve options metadataFrom fields input data metadata =
  forEachEntry (resolveEntry options metadataFrom fields) (ownEntries input) data metadata.
Proof.
  unfold resolve, resolveIn. apply forEachEntry_ext. intros k a d m _.
  unfold resolveEntry. rewrite lookupWith_lookup.
  now destruct (lookup fields k).
Qed.

Lemma forEachEntry_thrown {A} (f : string -> A -> value -> value -> outcome)
    (E : error -> Prop) es :
  (forall k a d m e, In (k, a) es -> (f k a d m).(thrown) = Some e -> E e) ->
  forall d m e, (forEachEntry f es d m).(thrown) = Some e -> E e.
Proof.
  intros H d m.
  apply (forEachEntry_invariant f (fun _ _ => True) E es); [|exact I].
  intros k a d' m' Hin _. split; [exact I|]. intros e. now apply H.
Qed.

Lemma getProp_error o k e : getProp o k = Err e -> e = TypeError.
Proof. unfold getProp. destruct (nullish o); now intros [= <-]. Qed.

Lemma setProp_error o k v e : setProp o k v = Err e -> e = TypeError.
Proof. destruct o; simpl; now intros [= <-]. Qed.


(** ** What a call of the callbacks leaves alone *)

Lemma sameButAt_refl k o : sameButAt k o o.
Proof. now intros k' _. Qed.

Lemma sameButAt_setProp k o v o' : setProp o k v = Ok o' -> sameButAt k o o'.
Proof. intros H k' Hne. now apply (getProp_setProp_other _ _ _ _ _ H). Qed.

Lemma sameButAt_writeBack k o child : sameButAt k o (writeBack o k child).
Proof. intros k' Hne. now apply getProp_writeBack_other. Qed.

Lemma sameButAt_trans k o1 o2 o3 :
  sameButAt k o1 o2 -> sameButAt k o2 o3 -> sameButAt k o1 o3.
Proof. intros H1 H2 k' Hne. now rewrite H2, H1. Qed.

Lemma framed_throw k e d m : framed k d m (throw e d m).
Proof. split; apply sameButAt_refl. Qed.

Lemma onChildren_framed k run d m : framed k d m (onChildren k run d m).
Proof.
  unfold onChildren.
  destruct (getProp d k); [|apply framed_throw].
  destruct (getProp m k); [|apply framed_throw].
  split; apply sameButAt_writeBack.
Qed.

Lemma commit_framed f k v d m : framed k d m (commit f k v d m).
Proof.
  unfold commit.
  destruct (setProp d k v) as [d'|] eqn:Ed; [|apply framed_throw].
  pose proof (sameButAt_setProp _ _ _ _ Ed) as Hd.
  destruct (getProp m k) as [node|]; [|split; [exact Hd | apply sameButAt_refl]].
  destruct node; (split; [exact Hd|]); cbn; try apply sameButAt_refl.
  apply sameButAt_writeBack.
Qed.

Lemma resolveLeaf_framed o f sp k v d m : framed k d m (resolveLeaf o f sp k v d m).
Proof.
  unfold resolveLeaf.
  destruct (runFixup _ _ _ _); [|apply framed_throw].
  destruct (runValidate _ _ _); [|apply framed_throw].
  destruct (runMapType _ _ _); [|apply framed_throw].
  apply commit_framed.
Qed.

Lemma resolveField_framed sp o f k v d m : framed k d m (resolveField sp o f k v d m).
Proof.
  rewrite resolveField_eq. unfold resolveFieldBody.
  destruct (notANamespaceGuard _ _); [apply framed_throw|].
  destruct (unknownKindGuard _ _); [apply framed_throw|].
  destruct (has (fields sp)); [apply onChildren_framed|].
  destruct (has (entryFields sp)); [apply onChildren_framed|].
  apply resolveLeaf_framed.
Qed.

Lemma resolveEntry_framed o f fs k v d m : framed k d m (resolveEntry o f fs k v d m).
Proof.
  unfold resolveEntry. destruct (lookup fs k); [apply resolveField_framed | apply framed_throw].
Qed.

(** A property that no entry names is what it was, whether the iteration
    ends or throws. *)
Lemma forEachEntry_framed {A} (f : string -> A -> value -> value -> outcome) es :
  (forall k a d m, In (k, a) es -> framed k d m (f k a d m)) ->
  forall d m k, ~ In k (keys es) ->
    getProp (forEachEntry f es d m).(outData) k = getProp d k /\
    getProp (forEachEntry f es d m).(outMetadata) k = getProp m k.
Proof.
  induction es as [|[k0 a] r IH]; intros H d m k Hk; simpl; [now split|].
  assert (Hne : k0 <> k) by (intros ->; apply Hk; now left).
  destruct (H k0 a d m (or_introl eq_refl)) as [Hd Hm].
  destruct (thrown (f k0 a d m)).
  - split; [now apply Hd | now apply Hm].
  - destruct (IH (fun k a d m Hin => H k a d m (or_intror Hin))
                 (outData (f k0 a d m)) (outMetadata (f k0 a d m)) k) as [Hd' Hm'].
    { intros Hin. apply Hk. now right. }
    rewrite Hd', Hm'. split; [now apply Hd | now apply Hm].
Qed.

Lemma resolve_frame options metadataFrom fields input data metadata k :
  ~ In k (keys (ownEntries input)) ->
  getProp (resolve options metadataFrom fields input data metadata).(outData) k = getProp data k /\
  getProp (resolve options metadataFrom fields input data metadata).(outMetadata) k = getProp metadata k.
Proof.
  intros Hk. rewrite resolve_forEach. apply forEachEntry_framed; [|exact Hk].
  intros; apply resolveEntry_framed.
Qed.

Lemma getPath_writeBack o k child child' rest :
  getProp o k = Ok child ->
  getPath child' rest = getPath child rest ->
  getPath (writeBack o k child') (k :: rest) = getPath o (k :: rest).
Proof.
  intros Hget Hrest. destruct o; try reflexivity.
  cbn [writeBack getPath]. unfold getProp in *. cbn [nullish ownEntries] in *.
  rewrite lookup_replace_same.
  destruct (lookup props k) as [c|]; cbn [option_map].
  - injection Hget as ->. exact Hrest.
  - reflexivity.
Qed.


(** * The "Unknown kind of specifier" branch *)

Lemma getProp_notUnknownKind o k e : getProp o k = Err e -> notUnknownKind e.
Proof. now intros ->%getProp_error. Qed.

Lemma setProp_notUnknownKind o k v e : setProp o k v = Err e -> notUnknownKind e.
Proof. now intros ->%setProp_error. Qed.

Lemma runInitializer_notUnknownKind sp n d e :
  runInitializer sp n d = Err e -> notUnknownKind e.
Proof.
  unfold runInitializer. destruct (initial sp) as [[[v|c]|v]|].
  - discriminate.
  - now intros [= <-].
  - now intros [= <-].
  - destruct (getProp d n) eqn:E; [discriminate|]. intros [= <-]. eapply getProp_notUnknownKind, E.
Qed.

Lemma initializedNamespaceOf_notUnknownKind sp e :
  initializedNamespaceOf sp = Err e -> notUnknownKind e.
Proof.
  unfold initializedNamespaceOf. destruct (initial sp) as [[[v|c]|v]|]; try discriminate.
  - now intros [= <-].
  - destruct (nullish v); [discriminate | now intros [= <-]].
Qed.

Lemma initialRecordOf_notUnknownKind sp n d e :
  initialRecordOf sp n d = Err e -> notUnknownKind e.
Proof.
  unfold initialRecordOf. destruct (initial sp) as [[c|v]|] eqn:E; try discriminate.
  - apply runInitializer_notUnknownKind.
  - destruct (truthy v); [apply runInitializer_notUnknownKind | discriminate].
Qed.

Lemma runMapType_notUnknownKind sp n v e :
  runMapType sp n v = Err e -> notUnknownKind e.
Proof.
  unfold runMapType, runTypeMapper. destruct (mapType sp) as [f|]; [|discriminate].
  destruct (f v); [discriminate | now intros [= <-]].
Qed.

Lemma runValidate_notUnknownKind sp n v e :
  runValidate sp n v = Err e -> notUnknownKind e.
Proof.
  unfold runValidate. destruct (validate sp) as [f|]; [|discriminate].
  destruct (f v) as [[msgs|]|]; try discriminate; now intros [= <-].
Qed.

Lemma runFixup_notUnknownKind o sp n v e :
  runFixup o sp n v = Err e -> notUnknownKind e.
Proof.
  unfold runFixup. destruct (fixup sp) as [f|]; [|discriminate].
  destruct (f v) as [[fx|]|]; try discriminate; [|now intros [= <-]].
  destruct (onFixup o) as [h|]; [|discriminate].
  destruct (h _); [discriminate | now intros [= <-]].
Qed.

Create HintDb never_unknown discriminated.
#[local] Hint Resolve getProp_notUnknownKind setProp_notUnknownKind
  runInitializer_notUnknownKind initializedNamespaceOf_notUnknownKind
  initialRecordOf_notUnknownKind runMapType_notUnknownKind
  runValidate_notUnknownKind runFixup_notUnknownKind : never_unknown.

Ltac crush_thrown :=
  repeat first
    [ progress (cbn [thrown throw done outData outMetadata])
    | match goal with
      | |- forall e, Some _ = Some e -> _ => intros ? [= <-]; first [exact I | solve [eauto with never_unknown]]
      | |- forall e, None = Some e -> _ => discriminate
      | |- Some _ = Some _ -> _ => intros [= <-]; first [exact I | solve [eauto with never_unknown]]
      | |- None = Some _ -> _ => discriminate
      | |- neverUnknownKind _ => unfold neverUnknownKind
      | |- context [match ?r with Ok _ => _ | Err _ => _ end] => destruct r eqn:?
      | |- context [let '(_, _) := ?p in _] => destruct p
      | |- context [match ?p with (_, _) => _ end] => destruct p
      end ].

Section Unreachable.
Variable resolveF : specifier -> Options -> MetadataValueFromType -> string -> value -> value -> value -> outcome.
Variable initializeF : specifier -> string -> value -> value -> outcome.

Lemma resolveInMaybe_never options metadataFrom fs input data metadata :
  (forall l, fs = Some l -> Forall (fun kv => forall o f n v d m, neverUnknownKind (resolveF (snd kv) o f n v d m)) l) ->
  neverUnknownKind (resolveInMaybe resolveF options metadataFrom fs input data metadata).
Proof.
  intros H. destruct fs as [l|]; simpl.
  - specialize (H l eq_refl). rewrite Forall_forall in H.
    unfold resolveIn, neverUnknownKind.
    apply forEachEntry_thrown. intros k a d m e _.
    rewrite lookupWith_lookup. destruct (lookup l k) as [sp|] eqn:E; simpl.
    + apply (H (k, sp) (lookup_In _ _ _ E)).
    + intros [= <-]; exact I.
  - unfold neverUnknownKind. apply forEachEntry_thrown.
    intros k a d m e _. simpl. intros [= <-]; exact I.
Qed.

Lemma doInitializeInMaybe_never fs data metadata :
  (forall l, fs = Some l -> Forall (fun kv => forall n d m, neverUnknownKind (initializeF (snd kv) n d m)) l) ->
  neverUnknownKind (doInitializeInMaybe initializeF fs data metadata).
Proof.
  intros H. destruct fs as [l|]; simpl.
  - specialize (H l eq_refl). rewrite Forall_forall in H.
    unfold doInitializeIn, neverUnknownKind.
    apply forEachEntry_thrown. intros k a d m e Hin. apply (H (k, a) Hin).
  - intros e; discriminate.
Qed.

Lemma onChildren_never k run data metadata :
  (forall d m, neverUnknownKind (run d m)) ->
  neverUnknownKind (onChildren k run data metadata).
Proof.
  intros H. unfold onChildren. crush_thrown; apply H.
Qed.

Lemma initializeInMaybe_never fs e :
  (forall d m, neverUnknownKind (doInitializeInMaybe initializeF fs d m)) ->
  initializeInMaybe initializeF fs = Err e -> notUnknownKind e.
Proof.
  intros H. unfold initializeInMaybe.
  destruct (thrown _) eqn:E; [|discriminate]. intros [= <-]. eapply H, E.
Qed.

Section AtSpecifier.
Variable sp : specifier.
Hypothesis resolve_fields : forall o f input d m,
  neverUnknownKind (resolveInMaybe resolveF o f sp.(fields) input d m).
Hypothesis resolve_entryFields : forall o f input d m,
  neverUnknownKind (resolveInMaybe resolveF o f sp.(entryFields) input d m).
Hypothesis initialize_fields : forall d m,
  neverUnknownKind (doInitializeInMaybe initializeF sp.(fields) d m).
Hypothesis initialize_entryFields : forall d m,
  neverUnknownKind (doInitializeInMaybe initializeF sp.(entryFields) d m).

Lemma resolveNamespaceBody_never o f v path d m :
  neverUnknownKind (resolveNamespaceBody resolveF o f sp v path d m).
Proof.
  unfold resolveNamespaceBody.
  destruct (_ && _ && _); [crush_thrown|].
  destruct (shorthand sp) as [expand|]; [destruct (negb (isPlainObject v)); [destruct (expand v)|]|];
    crush_thrown; apply resolve_fields.
Qed.

Lemma resolveRecordBody_never o f v d m :
  neverUnknownKind (resolveRecordBody resolveF initializeF o f sp v d m).
Proof.
  unfold resolveRecordBody.
  destruct (negb (isPlainObject v)); [crush_thrown|].
  unfold neverUnknownKind. apply forEachEntry_thrown.
  intros k a d' m' e _. unfold resolveRecordEntryBody, ensureRecordEntryBody.
  destruct (getProp d' k) eqn:Eg; [|crush_thrown].
  destruct (negb (truthy a0)).
  - destruct (initializeInMaybe initializeF (entryFields sp)) as [[idata imeta]|e'] eqn:Ei.
    + crush_thrown; try apply resolve_entryFields.
    + cbn. intros [= <-]. eapply initializeInMaybe_never; [|exact Ei]. apply initialize_entryFields.
  - crush_thrown; apply resolve_entryFields.
Qed.

Lemma initializeRecordEntries_never initialRecord :
  neverUnknownKind (initializeRecordEntries resolveF initializeF sp initialRecord).
Proof.
  unfold initializeRecordEntries, neverUnknownKind. apply forEachEntry_thrown.
  intros k a d m e _.
  destruct (initializeInMaybe initializeF (entryFields sp)) as [[idata imeta]|e'] eqn:Ei.
  - destruct (thrown (resolveInMaybe _ _ _ _ _ _ _)) eqn:Er.
    + cbn. intros [= <-]. eapply resolve_entryFields, Er.
    + crush_thrown.
  - cbn. intros [= <-]. eapply initializeInMaybe_never; [|exact Ei]. apply initialize_entryFields.
Qed.

Lemma guards_agree isValueObject :
  unknownKindGuard isValueObject sp = notANamespaceGuard isValueObject sp.
Proof.
  unfold unknownKindGuard, notANamespaceGuard.
  now rewrite <- !andb_assoc, (andb_comm (negb (has (entryFields sp)))).
Qed.

Lemma commit_never f n v d m : neverUnknownKind (commit f n v d m).
Proof. unfold commit. crush_thrown. destruct a0; crush_thrown. Qed.

Lemma resolveLeaf_never o f n v d m : neverUnknownKind (resolveLeaf o f sp n v d m).
Proof. unfold resolveLeaf. crush_thrown. apply commit_never. Qed.

Lemma resolveFieldBody_never o f n v d m :
  neverUnknownKind (resolveFieldBody resolveF initializeF sp o f n v d m).
Proof.
  unfold resolveFieldBody. rewrite guards_agree.
  destruct (notANamespaceGuard _ _); [crush_thrown|].
  destruct (has (fields sp)); [apply onChildren_never; intros; apply resolveNamespaceBody_never|].
  destruct (has (entryFields sp)); [apply onChildren_never; intros; apply resolveRecordBody_never|].
  apply resolveLeaf_never.
Qed.

Lemma initializeFieldBody_never n d m :
  neverUnknownKind (initializeFieldBody resolveF initializeF sp n d m).
Proof.
  unfold initializeFieldBody, commitInitial.
  destruct (has (fields sp)); [crush_thrown; apply initialize_fields|].
  destruct (has (entryFields sp)); [|crush_thrown].
  destruct (initialRecordOf sp n d) eqn:Ei; [|crush_thrown].
  destruct (thrown (initializeRecordEntries _ _ _ _)) eqn:Er.
  - cbn. intros e' [= <-]. eapply initializeRecordEntries_never, Er.
  - crush_thrown.
Qed.
End AtSpecifier.
End Unreachable.

Lemma never_unknown_kind sp :
  (forall o f n v d m, neverUnknownKind (resolveField sp o f n v d m)) /\
  (forall n d m, neverUnknownKind (initializeField sp n d m)).
Proof.
  induction sp as [sp IHf IHe] using specifier_induction.
  assert (Hrf : forall o f input d m,
             neverUnknownKind (resolveInMaybe resolveField o f sp.(fields) input d m)).
  { intros. apply resolveInMaybe_never. intros l Hl.
    eapply Forall_impl; [|exact (IHf l Hl)]. intros kv [H _]. exact H. }
  assert (Hre : forall o f input d m,
             neverUnknownKind (resolveInMaybe resolveField o f sp.(entryFields) input d m)).
  { intros. apply resolveInMaybe_never. intros l Hl.
    eapply Forall_impl; [|exact (IHe l Hl)]. intros kv [H _]. exact H. }
  assert (Hif : forall d m,
             neverUnknownKind (doInitializeInMaybe initializeField sp.(fields) d m)).
  { intros. apply doInitializeInMaybe_never. intros l Hl.
    eapply Forall_impl; [|exact (IHf l Hl)]. intros kv [_ H]. exact H. }
  assert (Hie : forall d m,
             neverUnknownKind (doInitializeInMaybe initializeField sp.(entryFields) d m)).
  { intros. apply doInitializeInMaybe_never. intros l Hl.
    eapply Forall_impl; [|exact (IHe l Hl)]. intros kv [_ H]. exact H. }
  split; intros.
  - rewrite resolveField_eq. now apply resolveFieldBody_never.
  - rewrite initializeField_eq. now apply initializeFieldBody_never.
Qed.

Lemma neverUnknownKind_false o : neverUnknownKind o -> throwsUnknownKind o = false.
Proof.
  unfold neverUnknownKind, throwsUnknownKind. intros H.
  destruct (thrown o) as [e|]; [|reflexivity].
  specialize (H e eq_refl). now destruct e.
Qed.

(** C10: the guard of the "Unknown kind of specifier" branch of [resolve] is
    the guard of the "not a namespace" branch before it, so an input that
    satisfies it has thrown the latter error already, and no call of
    [resolve] or of [doInitialize] throws the former. *)
Theorem unknown_kind_branch_unreachable :
  forall specifier options metadataFrom inputFieldName inputFieldValue fields input
         data metadata,
    unknownKindGuard (isPlainObject inputFieldValue) specifier =
      notANamespaceGuard (isPlainObject inputFieldValue) specifier
    /\ (unknownKindGuard (isPlainObject inputFieldValue) specifier = true ->
        resolveField specifier options metadataFrom inputFieldName inputFieldValue
                     data metadata
        = throw (NotANamespace inputFieldName inputFieldValue) data metadata)
    /\ throwsUnknownKind
         (resolveField specifier options metadataFrom inputFieldName inputFieldValue
                       data metadata) = false
    /\ throwsUnknownKind (resolve options metadataFrom fields input data metadata) = false
    /\ throwsUnknownKind (doInitialize fields data metadata) = false.
Proof.
  intros sp o f n v fs input d m. split; [apply guards_agree|]. split; [|split; [|split]].
  - rewrite guards_agree, resolveField_eq. unfold resolveFieldBody. now intros ->.
  - apply neverUnknownKind_false, never_unknown_kind.
  - apply neverUnknownKind_false.
    apply (resolveInMaybe_never resolveField o f (Some fs)). intros l [= <-].
    apply Forall_forall. intros kv _. apply never_unknown_kind.
  - apply neverUnknownKind_false.
    apply (doInitializeInMaybe_never initializeField (Some fs)). intros l [= <-].
    apply Forall_forall. intros kv _. apply never_unknown_kind.
Qed.

(** * The leaf pipeline *)

Lemma lookup_charEntries i s k v : lookup (charEntries i s) k = Some v -> exists c, v = VStr c.
Proof.
  revert i. induction s as [|c s IH]; intros i; simpl; [discriminate|].
  destruct (String.eqb _ _); [intros [= <-]; eauto | apply IH].
Qed.

(** Only an object holds an object. *)
Lemma getProp_object o k plain props :
  getProp o k = Ok (VObj plain props) ->
  exists oplain oprops, o = VObj oplain oprops /\ lookup oprops k = Some (VObj plain props).
Proof.
  unfold getProp. destruct o; cbn; try discriminate.
  - destruct (lookup (charEntries 0 s) k) eqn:E; [|discriminate].
    destruct (lookup_charEntries _ _ _ _ E) as [c ->]. discriminate.
  - destruct (lookup props0 k) eqn:E; [|discriminate]. intros [= ->]. eauto.
Qed.

Lemma commit_object metadataFrom name v plain props metadata nodePlain nodeProps :
  getProp metadata name = Ok (VObj nodePlain nodeProps) ->
  let o := commit metadataFrom name v (VObj plain props) metadata in
  o.(thrown) = None
  /\ getProp o.(outData) name = Ok v
  /\ getProp o.(outMetadata) name
     = Ok (committedNode metadataFrom v (VObj nodePlain nodeProps)).
Proof.
  intros Hnode. unfold commit. cbn [setProp]. rewrite Hnode. cbn zeta.
  cbn [done outData outMetadata thrown].
  split; [reflexivity|]. split.
  { unfold getProp; cbn [nullish ownEntries]. now rewrite lookup_assign_same. }
  destruct (getProp_object _ _ _ _ Hnode) as (mp & mprops & -> & Hl).
  unfold getProp. cbn [nullish ownEntries writeBack].
  rewrite lookup_replace_same, Hl. reflexivity.
Qed.



(** * The original settings *)

(** C2, at the failing input: a record with an entry in its seed.  The data
    of the record holds the entry's data; [original()] answers the
    [initial] of the record's metadata, which holds the entry's metadata. *)
Theorem original_of_a_record_is_its_metadata :
  exists m,
    create Examples.seededRecordSpec noOptions = Ok m
    /\ m.(managerData)
       = Examples.obj [("r", Examples.obj [("foo", Examples.obj [("x", VNum 1)])])]
    /\ original m
       = Ok (Examples.obj
               [("r", Examples.obj
                        [("foo", Examples.obj [("x", initMetadataField (VNum 1))])])])
    /\ original m <> Ok m.(managerData).
Proof.
  eexists. split; [reflexivity|]. split; [reflexivity|].
  split; [reflexivity | discriminate].
Qed.

(** Without records [original()] is the data as [create] made it, also
    after changes: the scenario of the module's test. *)
Example original_after_changes :
  let m := Examples.created Examples.twoNamespacesSpec noOptions in
  create Examples.twoNamespacesSpec noOptions = Ok m
  /\ original (fst (change m (Examples.obj [("a", Examples.obj [("a", VStr "bar")]);
                                           ("b", Examples.obj [("a", VNum 2)])])))
     = Ok m.(managerData).
Proof. split; reflexivity. Qed.


(** * Initial values skip fixups and validators *)

Lemma forEachEntry_map {A B} (g : A -> B) (f : string -> B -> value -> value -> outcome) es d m :
  forEachEntry f (map (fun kv => (fst kv, g (snd kv))) es) d m =
  forEachEntry (fun k a => f k (g a)) es d m.
Proof.
  revert d m. induction es as [|[k a] r IH]; intros d m; simpl; [reflexivity|].
  destruct (thrown (f k (g a) d m)); [reflexivity | apply IH].
Qed.

Lemma initializeField_withoutChecks sp :
  forall name d m,
    initializeField (withoutChecks sp) name d m = initializeField sp name d m.
Proof.
  induction sp as [sp IHf _] using specifier_induction. intros name d m.
  rewrite !initializeField_eq.
  destruct sp as [i [fs|] e s fx vd mt]; cbn [fields] in IHf.
  - specialize (IHf fs eq_refl). rewrite Forall_forall in IHf.
    assert (Hfs : forall d' m',
               doInitializeIn initializeField
                 (map (fun kv => (fst kv, withoutChecks (snd kv))) fs) d' m' =
               doInitializeIn initializeField fs d' m').
    { intros d' m'. unfold doInitializeIn. rewrite forEachEntry_map.
      apply forEachEntry_ext. intros k a d0 m0 Hin. apply (IHf (k, a) Hin). }
    cbn [withoutChecks]. unfold initializeFieldBody, initializedNamespaceOf.
    cbn [fields has initial doInitializeInMaybe].
    repeat match goal with
           | |- context [match ?x with Ok _ => _ | Err _ => _ end] =>
               destruct x; [|reflexivity]
           end.
    now rewrite Hfs.
  - destruct e as [efs|]; reflexivity.
Qed.

Lemma doInitialize_withoutChecks spec d m :
  doInitialize (specWithoutChecks spec) d m = doInitialize spec d m.
Proof.
  unfold doInitialize, doInitializeIn, specWithoutChecks. rewrite forEachEntry_map.
  apply forEachEntry_ext. intros k a d0 m0 _. apply initializeField_withoutChecks.
Qed.

(** * The seed of a namespace *)

(** ** What a step of [doInitialize] leaves alone *)

Lemma commitInitial_framed k v d m : framed k d m (commitInitial k v d m).
Proof.
  unfold commitInitial.
  destruct (setProp d k v) as [d'|] eqn:Ed; [|apply framed_throw].
  pose proof (sameButAt_setProp _ _ _ _ Ed) as Hd.
  destruct (setProp m k _) as [m'|] eqn:Em.
  - split; [exact Hd | exact (sameButAt_setProp _ _ _ _ Em)].
  - split; [exact Hd | apply sameButAt_refl].
Qed.

Lemma initializeField_framed sp k d m : framed k d m (initializeField sp k d m).
Proof.
  rewrite initializeField_eq. unfold initializeFieldBody.
  destruct (has (fields sp)).
  - destruct (initializedNamespaceOf sp); [|apply framed_throw].
    destruct (getProp d k); [|apply framed_throw].
    destruct (setProp d k _) as [d1|] eqn:Ed; [|apply framed_throw].
    pose proof (sameButAt_setProp _ _ _ _ Ed) as Hd.
    destruct (getProp m k); [|split; [exact Hd | apply sameButAt_refl]].
    destruct (setProp m k _) as [m1|] eqn:Em; [|split; [exact Hd | apply sameButAt_refl]].
    pose proof (sameButAt_setProp _ _ _ _ Em) as Hm.
    destruct (getProp d1 k); [|split; assumption].
    destruct (getProp m1 k); [|split; assumption].
    destruct (getProp _ "fields"); [|split; assumption].
    split; cbn [outData outMetadata];
      (eapply sameButAt_trans; [eassumption | apply sameButAt_writeBack]).
  - destruct (has (entryFields sp)).
    + destruct (initialRecordOf sp k d); [|apply framed_throw].
      destruct (thrown _); [apply framed_throw|].
      destruct (setProp d k _) as [d1|] eqn:Ed; [|apply framed_throw].
      pose proof (sameButAt_setProp _ _ _ _ Ed) as Hd.
      destruct (getProp m k); [|split; [exact Hd | apply sameButAt_refl]].
      destruct (setProp m k _) as [m1|] eqn:Em; [|split; [exact Hd | apply sameButAt_refl]].
      split; [exact Hd | exact (sameButAt_setProp _ _ _ _ Em)].
    + destruct (runInitializer sp k d); [|apply framed_throw].
      destruct (runMapType sp k _); [|apply framed_throw].
      apply commitInitial_framed.
Qed.

Lemma doInitialize_frame spec d m k :
  ~ In k (keys spec) ->
  getProp (doInitialize spec d m).(outData) k = getProp d k /\
  getProp (doInitialize spec d m).(outMetadata) k = getProp m k.
Proof.
  intros Hk. unfold doInitialize, doInitializeIn.
  apply (forEachEntry_framed (fun inputFieldName specifier =>
                                initializeField specifier inputFieldName)); [|exact Hk].
  intros; apply initializeField_framed.
Qed.

Lemma doInitialize_at (pre : Spec) k sp post d m :
  doInitialize (pre ++ (k, sp) :: post)%list d m =
  let before := doInitialize pre d m in
  match before.(thrown) with
  | Some _ => before
  | None =>
      let here := initializeField sp k before.(outData) before.(outMetadata) in
      match here.(thrown) with
      | Some _ => here
      | None => doInitialize post here.(outData) here.(outMetadata)
      end
  end.
Proof.
  unfold doInitialize, doInitializeIn. rewrite forEachEntry_app. cbn zeta.
  destruct (thrown (forEachEntry _ pre d m)); reflexivity.
Qed.

Lemma runInitializer_same sp k d d' :
  getProp d' k = getProp d k -> runInitializer sp k d' = runInitializer sp k d.
Proof. unfold runInitializer. now intros ->. Qed.

Lemma initializeField_leaf_value leaf k d m :
  leaf.(fields) = None -> leaf.(entryFields) = None ->
  (initializeField leaf k d m).(thrown) = None ->
  getProp (initializeField leaf k d m).(outData) k = leafInitialValue leaf k d.
Proof.
  intros Hf He. rewrite initializeField_eq. unfold initializeFieldBody, leafInitialValue.
  rewrite Hf, He. cbn [has].
  destruct (runInitializer leaf k d) as [v|]; [|discriminate].
  destruct (runMapType leaf k v) as [w|]; [|discriminate].
  unfold commitInitial.
  destruct (setProp d k w) as [d'|] eqn:Ed; [|discriminate].
  destruct (setProp m k _); [|discriminate]. intros _. cbn [done outData].
  exact (getProp_setProp_same _ _ _ _ Ed).
Qed.

Lemma getPath_two o k1 k2 c :
  getProp o k1 = Ok c -> getPath o [k1; k2] = getProp c k2.
Proof. intros H. simpl. rewrite H. now destruct (getProp c k2). Qed.

Lemma getProp_writeBack_setProp o k v o' child :
  setProp o k v = Ok o' -> getProp (writeBack o' k child) k = Ok child.
Proof.
  destruct o; cbn [setProp]; try discriminate. intros [= <-].
  unfold getProp. cbn [nullish ownEntries writeBack].
  now rewrite lookup_replace_same, lookup_assign_same.
Qed.

Lemma thrown_doInitialize_at (pre : Spec) k sp post d m :
  (doInitialize (pre ++ (k, sp) :: post)%list d m).(thrown) = None ->
  let before := doInitialize pre d m in
  let here := initializeField sp k before.(outData) before.(outMetadata) in
  before.(thrown) = None /\ here.(thrown) = None /\
  doInitialize (pre ++ (k, sp) :: post)%list d m
    = doInitialize post here.(outData) here.(outMetadata).
Proof.
  rewrite doInitialize_at. cbn zeta.
  destruct (thrown (doInitialize pre d m)) eqn:E1; [now rewrite E1|].
  destruct (thrown (initializeField sp k _ _)) eqn:E2; [now rewrite E2|].
  auto.
Qed.

(** The data [doInitialize] leaves at a leaf [k] that [spec] names once. *)
Lemma doInitialize_leaf_value (pre : Spec) k leaf post d m :
  ~ In k (keys pre) -> ~ In k (keys post) ->
  leaf.(fields) = None -> leaf.(entryFields) = None ->
  (doInitialize (pre ++ (k, leaf) :: post)%list d m).(thrown) = None ->
  getProp (doInitialize (pre ++ (k, leaf) :: post)%list d m).(outData) k
  = leafInitialValue leaf k d.
Proof.
  intros Hpre Hpost Hf He Hok.
  destruct (thrown_doInitialize_at _ _ _ _ _ _ Hok) as (_ & Hhere & ->).
  destruct (doInitialize_frame pre d m k Hpre) as [Hd _].
  destruct (doInitialize_frame post
              (outData (initializeField leaf k (outData (doInitialize pre d m))
                                        (outMetadata (doInitialize pre d m))))
              (outMetadata (initializeField leaf k (outData (doInitialize pre d m))
                                            (outMetadata (doInitialize pre d m))))
              k Hpost) as [Hd' _].
  rewrite Hd', (initializeField_leaf_value leaf k _ _ Hf He Hhere).
  unfold leafInitialValue. now rewrite (runInitializer_same leaf k d _ Hd).
Qed.

(** A namespace that is not initialized yet: its fields are initialized on
    the object its initializer returned. *)
Lemma initializeField_namespace sp fs name d m base :
  sp.(fields) = Some fs ->
  initializedNamespaceOf sp = Ok base ->
  getProp d name = Ok VUndefined ->
  (initializeField sp name d m).(thrown) = None ->
  exists metadataFields,
    getProp (initializeField sp name d m).(outData) name
      = Ok (doInitialize fs base metadataFields).(outData)
    /\ (doInitialize fs base metadataFields).(thrown) = None.
Proof.
  intros Hfs Hbase Hd. rewrite initializeField_eq. unfold initializeFieldBody.
  rewrite Hfs, Hbase, Hd. cbn [has nullishOr nullish doInitializeInMaybe].
  destruct (setProp d name base) as [d1|] eqn:Ed; [|discriminate].
  destruct (getProp m name) as [m0|]; [|discriminate].
  destruct (setProp m name _) as [m1|]; [|discriminate].
  rewrite (getProp_setProp_same _ _ _ _ Ed).
  destruct (getProp m1 name) as [nm|]; [|discriminate].
  destruct (getProp nm "fields") as [mf|]; [|discriminate].
  cbn [outData thrown]. intros Hok. exists mf. split; [|exact Hok].
  exact (getProp_writeBack_setProp _ _ _ _ _ Ed).
Qed.





(** * Changes merge into namespaces *)



Lemma resolveNamespace_frame options metadataFrom specifier fs input path data metadata y :
  specifier.(fields) = Some fs ->
  isPlainObject input = true ->
  ~ In y (keys (ownEntries input)) ->
  let o := resolveNamespace options metadataFrom specifier input path data metadata in
  getProp o.(outData) y = getProp data y /\
  getPath o.(outMetadata) ["fields"; y] = getPath metadata ["fields"; y].
Proof.
  intros Hfs Hplain Hy. unfold resolveNamespace, resolveNamespaceBody.
  rewrite Hplain, Hfs. cbn [negb andb].
  replace (match shorthand specifier with Some _ => Ok input | None => Ok input end)
    with (@Ok value input) by now destruct (shorthand specifier).
  destruct (getProp metadata "fields") as [mf|] eqn:Em; cbn [outData outMetadata throw];
    [|split; reflexivity].
  change (resolveInMaybe resolveField options metadataFrom (Some fs) input data mf)
    with (resolve options metadataFrom fs input data mf).
  destruct (resolve_frame options metadataFrom fs input data mf y Hy) as [Hd Hm].
  split; [exact Hd|].
  apply getPath_writeBack with (child := mf); [exact Em|]. simpl. now rewrite Hm.
Qed.




Example change_merges_xy :
  Examples.dataOf (Examples.changed (create Examples.xySpec noOptions)
                     (Examples.obj [("a", Examples.obj [("x", VNum 9)])]))
  = Ok (Examples.obj [("a", Examples.obj [("x", VNum 9); ("y", VNum 2)])]).
Proof. reflexivity. Qed.

(** * Shorthands, unknown settings and records *)

(** ** A call of [resolve], key by key *)

Lemma resolve_at options metadataFrom fields plain pre k v post data metadata :
  resolve options metadataFrom fields (VObj plain (pre ++ (k, v) :: post)) data metadata =
  let before := resolve options metadataFrom fields (VObj plain pre) data metadata in
  match before.(thrown) with
  | Some _ => before
  | None =>
      let here := resolveEntry options metadataFrom fields k v
                               before.(outData) before.(outMetadata) in
      match here.(thrown) with
      | Some _ => here
      | None => resolve options metadataFrom fields (VObj plain post)
                        here.(outData) here.(outMetadata)
      end
  end.
Proof.
  rewrite !resolve_forEach. cbn [ownEntries]. rewrite forEachEntry_app. cbn zeta.
  destruct (thrown (forEachEntry _ pre data metadata)); [reflexivity|].
  cbn [forEachEntry]. destruct (thrown (resolveEntry _ _ _ _ _ _ _)); [reflexivity|].
  now rewrite resolve_forEach.
Qed.

Lemma resolveField_shorthand options metadataFrom specifier expand name v longhand data metadata :
  has specifier.(fields) = true ->
  specifier.(shorthand) = Some expand ->
  isPlainObject v = false ->
  expand v = Returned longhand ->
  isPlainObject longhand = true ->
  resolveField specifier options metadataFrom name v data metadata =
  resolveField specifier options metadataFrom name longhand data metadata.
Proof.
  intros Hf Hs Hv He Hl. rewrite !resolveField_eq.
  unfold resolveFieldBody, notANamespaceGuard, unknownKindGuard.
  rewrite Hf, Hv, Hl. cbn [negb andb]. rewrite !andb_false_r.
  unfold onChildren. destruct (getProp data name); [|reflexivity].
  destruct (getProp metadata name); [|reflexivity].
  unfold resolveNamespaceBody. rewrite Hf, Hs, Hv, Hl, He. reflexivity.
Qed.

(** C7: at a namespace with a shorthand, a value that is not an object gives
    the data and metadata (and the error, if one is thrown) that the longhand
    object the shorthand expands it to gives: in any call of the resolver,
    and so in [change]. *)
Theorem shorthand_is_its_longhand :
  forall m specifier expand name v longhand pre post,
    lookup m.(managerFields) name = Some specifier ->
    has specifier.(fields) = true ->
    specifier.(shorthand) = Some expand ->
    isPlainObject v = false ->
    expand v = Returned longhand ->
    isPlainObject longhand = true ->
    (forall options metadataFrom data metadata,
       resolve options metadataFrom m.(managerFields)
               (VObj true (pre ++ (name, v) :: post)) data metadata =
       resolve options metadataFrom m.(managerFields)
               (VObj true (pre ++ (name, longhand) :: post)) data metadata)
    /\ change m (VObj true (pre ++ (name, v) :: post)) =
       change m (VObj true (pre ++ (name, longhand) :: post)).
Proof.
  intros m sp expand name v longhand pre post Hl Hf Hs Hv He Hlh.
  assert (Hentry : forall options metadataFrom d md,
             resolveEntry options metadataFrom (managerFields m) name v d md =
             resolveEntry options metadataFrom (managerFields m) name longhand d md).
  { intros options metadataFrom d md. unfold resolveEntry. rewrite Hl.
    exact (resolveField_shorthand _ _ _ _ _ _ _ _ _ Hf Hs Hv He Hlh). }
  assert (Hresolve : forall options metadataFrom data metadata,
       resolve options metadataFrom m.(managerFields)
               (VObj true (pre ++ (name, v) :: post)) data metadata =
       resolve options metadataFrom m.(managerFields)
               (VObj true (pre ++ (name, longhand) :: post)) data metadata).
  { intros. rewrite !resolve_at. cbn zeta. now rewrite !Hentry. }
  split; [exact Hresolve|].
  unfold change. now rewrite Hresolve.
Qed.

(** The shorthand of the tests: ['some change'] is [{ b: 'some change via
    shorthand!' }]. *)
Lemma shorthand_is_its_longhand_witness :
  let m := Examples.created Examples.shorthandSpec noOptions in
  create Examples.shorthandSpec noOptions = Ok m
  /\ change m (Examples.obj [("a", VStr "some change")])
     = change m (Examples.obj
                   [("a", Examples.obj [("b", VStr "some change via shorthand!")])])
  /\ getProp (fst (change m (Examples.obj [("a", VStr "some change")]))).(managerData) "a"
     = Ok (Examples.obj [("b", VStr "some change via shorthand!")]).
Proof.
  split; [reflexivity|]. split; [|reflexivity].
  exact (proj2 (shorthand_is_its_longhand
                  (Examples.created Examples.shorthandSpec noOptions)
                  Examples.shorthandNamespace Examples.viaShorthand
                  "a" (VStr "some change")
                  (Examples.obj [("b", VStr "some change via shorthand!")]) [] []
                  eq_refl eq_refl eq_refl eq_refl eq_refl eq_refl)).
Defined.

(** ** Objects stay objects *)

Lemma nullish_writeBack o k c : nullish (writeBack o k c) = nullish o.
Proof. now destruct o. Qed.

Lemma nullish_setProp o k v o' : setProp o k v = Ok o' -> nullish o' = nullish o.
Proof. destruct o; simpl; try discriminate. now intros [= <-]. Qed.

Lemma resolveEntry_sameNullish o f fs k v d m : sameNullish d m (resolveEntry o f fs k v d m).
Proof.
  unfold resolveEntry. destruct (lookup fs k) as [sp|]; [|now split].
  rewrite resolveField_eq. unfold resolveFieldBody.
  destruct (notANamespaceGuard _ _); [now split|].
  destruct (unknownKindGuard _ _); [now split|].
  assert (Hch : forall run, sameNullish d m (onChildren k run d m)).
  { intros run. unfold onChildren.
    destruct (getProp d k); [|now split]. destruct (getProp m k); [|now split].
    split; apply nullish_writeBack. }
  destruct (has (fields sp)); [apply Hch|].
  destruct (has (entryFields sp)); [apply Hch|].
  unfold resolveLeaf.
  destruct (runFixup _ _ _ _); [|now split].
  destruct (runValidate _ _ _); [|now split].
  destruct (runMapType _ _ _); [|now split].
  unfold commit. destruct (setProp d k a1) as [d'|] eqn:Ed; [|now split].
  pose proof (nullish_setProp _ _ _ _ Ed) as Hd.
  destruct (getProp m k) as [node|]; [|now split].
  destruct node; split; cbn; auto using nullish_writeBack.
Qed.

Lemma resolve_sameNullish o f fs input d m : sameNullish d m (resolve o f fs input d m).
Proof.
  rewrite resolve_forEach.
  destruct (forEachEntry_invariant (resolveEntry o f fs)
              (fun d' m' => nullish d' = nullish d /\ nullish m' = nullish m)
              (fun _ => True) (ownEntries input)) with (d := d) (m := m) as [H _]; auto.
  intros k a d' m' _ [Hd Hm]. split; [|trivial].
  destruct (resolveEntry_sameNullish o f fs k a d' m') as [Hd' Hm'].
  now rewrite Hd', Hm'.
Qed.




Lemma resolveEntry_record options metadataFrom spec specifier k v data metadata :
  lookup spec k = Some specifier ->
  has specifier.(fields) = false ->
  has specifier.(entryFields) = true ->
  isPlainObject v = false ->
  nullish data = false -> nullish metadata = false ->
  resolveEntry options metadataFrom spec k v data metadata =
  throw NonObjectRecord data metadata.
Proof.
  intros Hl Hf He Hv Hd Hm. unfold resolveEntry. rewrite Hl, resolveField_eq.
  unfold resolveFieldBody, notANamespaceGuard, unknownKindGuard.
  rewrite Hf, He, Hv. cbn [negb andb]. unfold onChildren, getProp.
  rewrite Hd, Hm. unfold resolveRecordBody. rewrite Hv. cbn [negb throw outData outMetadata thrown].
  unfold throw. f_equal; apply writeBack_getProp; unfold getProp; now (rewrite Hd || rewrite Hm).
Qed.





(** * Leaves: from 'initial' until a change sets them *)

Lemma changedLeaf_refl node : changedLeaf node node.
Proof. split; auto. Qed.

Lemma changedLeaf_trans n1 n2 n3 :
  changedLeaf n1 n2 -> changedLeaf n2 n3 -> changedLeaf n1 n3.
Proof.
  intros [Hi1 H1] [Hi2 H2]. split; [congruence|].
  destruct H2 as [->|H2]; auto.
Qed.

(** ** Reading back what was put back *)

Lemma getProp_writeBack_exact o k c c' :
  getProp o k = Ok c ->
  (isObject c = false -> c' = c) ->
  getProp (writeBack o k c') k = Ok c'.
Proof.
  intros Hget Hsame.
  destruct o; cbn [writeBack]; try discriminate Hget.
  - rewrite Hget, Hsame; [reflexivity|]. now injection Hget as <-.
  - rewrite Hget, Hsame; [reflexivity|]. now injection Hget as <-.
  - (* a string holds characters *)
    rewrite Hget, Hsame; [reflexivity|].
    unfold getProp in Hget. cbn in Hget. injection Hget as <-.
    destruct (lookup (charEntries 0 s) k) eqn:E; [|reflexivity].
    now destruct (lookup_charEntries _ _ _ _ E) as [ch ->].
  - unfold getProp in *. cbn [nullish ownEntries] in *. rewrite lookup_replace_same.
    destruct (lookup props k) as [c0|]; cbn [option_map]; [reflexivity|].
    injection Hget as <-. now rewrite Hsame.
Qed.

Lemma leafAt_ext spec d m d' m' k rest :
  getProp d' k = getProp d k -> getProp m' k = getProp m k ->
  leafAt spec d' m' (k :: rest) = leafAt spec d m (k :: rest).
Proof.
  intros Hd Hm. cbn [leafAt]. unfold atField. rewrite Hd, Hm. reflexivity.
Qed.

(** ** Non-objects are never written to *)

Lemma writeBack_nonObject o k c : isObject o = false -> writeBack o k c = o.
Proof. now destruct o. Qed.

Lemma isObject_writeBack o k c : isObject (writeBack o k c) = isObject o.
Proof. now destruct o. Qed.

Lemma isObject_setProp o k v o' : setProp o k v = Ok o' -> isObject o = true /\ isObject o' = true.
Proof. destruct o; cbn; try discriminate. now intros [= <-]. Qed.

Lemma getProp_nonObject o k c : isObject o = false -> getProp o k = Ok c -> isObject c = false.
Proof.
  intros Ho Hc. destruct c; try reflexivity.
  destruct (getProp_object _ _ _ _ Hc) as (p & ps & -> & _). discriminate.
Qed.

Lemma keepsNonObjects_throw e d m : keepsNonObjects d m (throw e d m).
Proof. repeat split; auto. Qed.

Lemma onChildren_keepsNonObjects k run d m : keepsNonObjects d m (onChildren k run d m).
Proof.
  unfold onChildren.
  destruct (getProp d k); [|apply keepsNonObjects_throw].
  destruct (getProp m k); [|apply keepsNonObjects_throw].
  repeat split; cbn [outData outMetadata]; intros H;
    rewrite ?isObject_writeBack; auto using writeBack_nonObject.
Qed.

Lemma commit_keepsNonObjects f k v d m : keepsNonObjects d m (commit f k v d m).
Proof.
  unfold commit. destruct (setProp d k v) as [d'|] eqn:Ed; [|apply keepsNonObjects_throw].
  destruct (isObject_setProp _ _ _ _ Ed) as [Hd Hd'].
  destruct (getProp m k) as [node|] eqn:Em.
  - destruct node; repeat split; cbn [outData outMetadata throw done]; intros H;
      try congruence.
    apply writeBack_nonObject, H.
  - repeat split; cbn [outData outMetadata throw]; intros H; congruence.
Qed.

Lemma forEachEntry_keepsNonObjects {A} (f : string -> A -> value -> value -> outcome) es :
  (forall k a d m, keepsNonObjects d m (f k a d m)) ->
  forall d m, keepsNonObjects d m (forEachEntry f es d m).
Proof.
  intros H. induction es as [|[k a] r IH]; intros d m; cbn [forEachEntry].
  - repeat split; auto.
  - destruct (thrown (f k a d m)); [apply H|].
    destruct (H k a d m) as (H1 & H2 & H3).
    destruct (IH (outData (f k a d m)) (outMetadata (f k a d m))) as (I1 & I2 & I3).
    repeat split; intros Hx.
    + rewrite I1; rewrite H1; auto.
    + rewrite I2; rewrite H2; auto.
    + auto.
Qed.

Lemma resolveEntry_keepsNonObjects o f spec k v d m :
  keepsNonObjects d m (resolveEntry o f spec k v d m).
Proof.
  unfold resolveEntry. destruct (lookup spec k) as [sp|]; [|apply keepsNonObjects_throw].
  rewrite resolveField_eq. unfold resolveFieldBody.
  destruct (notANamespaceGuard _ _); [apply keepsNonObjects_throw|].
  destruct (unknownKindGuard _ _); [apply keepsNonObjects_throw|].
  destruct (has (fields sp)); [apply onChildren_keepsNonObjects|].
  destruct (has (entryFields sp)); [apply onChildren_keepsNonObjects|].
  unfold resolveLeaf.
  destruct (runFixup _ _ _ _); [|apply keepsNonObjects_throw].
  destruct (runValidate _ _ _); [|apply keepsNonObjects_throw].
  destruct (runMapType _ _ _); [|apply keepsNonObjects_throw].
  apply commit_keepsNonObjects.
Qed.

Lemma resolve_keepsNonObjects o f spec input d m :
  keepsNonObjects d m (resolve o f spec input d m).
Proof.
  rewrite resolve_forEach. apply forEachEntry_keepsNonObjects.
  intros; apply resolveEntry_keepsNonObjects.
Qed.

Lemma resolveInMaybe_keepsNonObjects o f fs input d m :
  keepsNonObjects d m (resolveInMaybe resolveField o f fs input d m).
Proof.
  destruct fs as [spec|]; [apply resolve_keepsNonObjects|].
  apply forEachEntry_keepsNonObjects. intros; apply keepsNonObjects_throw.
Qed.

Lemma resolveNamespace_keepsNonObjects o f sp v path d m :
  keepsNonObjects d m (resolveNamespace o f sp v path d m).
Proof.
  unfold resolveNamespace, resolveNamespaceBody.
  destruct (_ && _ && _); [apply keepsNonObjects_throw|].
  destruct (match shorthand sp with Some _ => _ | None => _ end);
    [|apply keepsNonObjects_throw].
  destruct (getProp m "fields"); [|apply keepsNonObjects_throw].
  destruct (resolveInMaybe_keepsNonObjects o f (fields sp) a d a0) as (H1 & _ & H3).
  repeat split; cbn [outData outMetadata]; auto using writeBack_nonObject.
Qed.

Lemma ensureRecordEntry_keepsNonObjects sp k d m :
  keepsNonObjects d m (ensureRecordEntry sp k d m).
Proof.
  unfold ensureRecordEntry, ensureRecordEntryBody.
  destruct (getProp d k); [|apply keepsNonObjects_throw].
  destruct (negb (truthy a)); [|repeat split; auto].
  destruct (initializeInMaybe _ _) as [[idata imeta]|]; [|apply keepsNonObjects_throw].
  destruct (setProp d k idata) as [d'|] eqn:Ed; [|apply keepsNonObjects_throw].
  destruct (isObject_setProp _ _ _ _ Ed) as [Hd Hd'].
  destruct (getProp m "value"); [|repeat split; cbn; intros; congruence].
  destruct (setProp _ k imeta); [|repeat split; cbn; intros; congruence].
  repeat split; cbn; intros; try congruence. now apply writeBack_nonObject.
Qed.

Lemma resolveRecordEntry_keepsNonObjects o f sp k v d m :
  keepsNonObjects d m (resolveRecordEntry o f sp k v d m).
Proof.
  unfold resolveRecordEntry, resolveRecordEntryBody.
  fold (ensureRecordEntry sp k d m).
  pose proof (ensureRecordEntry_keepsNonObjects sp k d m) as (H1 & H2 & H3).
  destruct (thrown (ensureRecordEntry sp k d m)); [repeat split; assumption|].
  set (d1 := outData (ensureRecordEntry sp k d m)) in *.
  set (m1 := outMetadata (ensureRecordEntry sp k d m)) in *.
  destruct (getProp d1 k); [|repeat split; assumption].
  destruct (getProp m1 "value"); [|repeat split; assumption].
  destruct (getProp _ k); [|repeat split; assumption].
  repeat split; cbn [outData outMetadata]; intros H.
  - rewrite writeBack_nonObject; rewrite H1; auto.
  - rewrite writeBack_nonObject; rewrite H2; auto.
  - rewrite isObject_writeBack. auto.
Qed.

Lemma resolveRecord_keepsNonObjects o f sp v d m :
  keepsNonObjects d m (resolveRecord o f sp v d m).
Proof.
  unfold resolveRecord, resolveRecordBody.
  destruct (negb _); [apply keepsNonObjects_throw|].
  apply forEachEntry_keepsNonObjects. intros. apply resolveRecordEntry_keepsNonObjects.
Qed.

(** ** Leaves under a change *)

Lemma keepsLeaf_throw read e d m : keepsLeaf read d m (throw e d m).
Proof. intros node H. exists node. split; [exact H | apply changedLeaf_refl]. Qed.

Lemma forEachEntry_keepsLeaf {A} (f : string -> A -> value -> value -> outcome) read es :
  (forall k a d m, In (k, a) es -> keepsLeaf read d m (f k a d m)) ->
  forall d m, keepsLeaf read d m (forEachEntry f es d m).
Proof.
  induction es as [|[k a] r IH]; intros H d m node Hnode; cbn [forEachEntry].
  - exists node. split; [exact Hnode | apply changedLeaf_refl].
  - destruct (H k a d m (or_introl eq_refl) node Hnode) as (n1 & Hn1 & Hc1).
    destruct (thrown (f k a d m)); [eauto|].
    destruct (IH (fun k a d m Hin => H k a d m (or_intror Hin)) _ _ n1 Hn1)
      as (n2 & Hn2 & Hc2).
    exists n2. split; [exact Hn2 | eapply changedLeaf_trans; eassumption].
Qed.

(** A callee that keeps the leaf among the children at [k] keeps it in the
    parents. *)
Lemma onChildren_keepsLeaf k run inner d m :
  (forall d' m', keepsNonObjects d' m' (run d' m')) ->
  (forall d' m', keepsLeaf inner d' m' (run d' m')) ->
  keepsLeaf (atField k inner) d m (onChildren k run d m).
Proof.
  intros Hkeeps Hrun node. unfold atField at 1, onChildren.
  destruct (getProp d k) as [dk|] eqn:Ed; [|discriminate].
  destruct (getProp m k) as [mk|] eqn:Em; [|discriminate].
  intros Hnode. destruct (Hrun dk mk node Hnode) as (node' & Hnode' & Hc).
  exists node'. split; [|exact Hc].
  destruct (Hkeeps dk mk) as (H1 & H2 & _).
  unfold atField. cbn [outData outMetadata].
  rewrite (getProp_writeBack_exact _ _ _ _ Ed H1), (getProp_writeBack_exact _ _ _ _ Em H2).
  exact Hnode'.
Qed.

Lemma resolveNamespace_keepsLeaf o f sp fs v path inner d m :
  sp.(fields) = Some fs ->
  (forall input d' m', keepsLeaf inner d' m' (resolve o f fs input d' m')) ->
  keepsLeaf (atFields inner) d m (resolveNamespace o f sp v path d m).
Proof.
  intros Hfs Hinner. unfold resolveNamespace, resolveNamespaceBody. rewrite Hfs.
  destruct (_ && _ && _); [apply keepsLeaf_throw|].
  destruct (match shorthand sp with Some _ => _ | None => _ end) as [longhand|];
    [|apply keepsLeaf_throw].
  intros node. unfold atFields at 1.
  destruct (getProp m "fields") as [mf|] eqn:Em; [|discriminate].
  cbn [resolveInMaybe]. change (resolveIn resolveField o f fs longhand d mf)
    with (resolve o f fs longhand d mf).
  intros Hnode. destruct (Hinner longhand d mf node Hnode) as (node' & Hnode' & Hc).
  exists node'. split; [|exact Hc]. unfold atFields. cbn [outData outMetadata].
  destruct (resolve_keepsNonObjects o f fs longhand d mf) as (_ & H2 & _).
  now rewrite (getProp_writeBack_exact _ _ _ _ Em H2).
Qed.

Lemma truthy_object v : isObject v = true -> truthy v = true.
Proof. now destruct v. Qed.

Lemma hasType_writeBack_value t m x : hasType t (writeBack m "value" x) = hasType t m.
Proof.
  destruct m; try reflexivity. cbn [writeBack hasType].
  now rewrite lookup_replace_other by discriminate.
Qed.

Lemma hasType_object t m : hasType t m = true -> isObject m = true.
Proof. now destruct m. Qed.

Lemma ensureRecordEntry_keepsLeaf sp key inner k d m :
  keepsLeaf (atEntry key inner) d m (ensureRecordEntry sp k d m).
Proof.
  intros node Hnode. exists node. split; [|apply changedLeaf_refl].
  revert Hnode. unfold atEntry at 1, ensureRecordEntry, ensureRecordEntryBody.
  destruct (getProp d key) as [ed|] eqn:Ed; [|discriminate].
  destruct (getProp m "value") as [mv|] eqn:Emv; [|discriminate].
  destruct (getProp mv key) as [em|] eqn:Eem; [|discriminate].
  destruct (hasType "record" m) eqn:Ety; [|discriminate].
  destruct (truthy ed) eqn:Et; [|discriminate]. cbn [andb]. intros Hnode.
  assert (Hsame : atEntry key inner d m = Some node).
  { unfold atEntry. now rewrite Ed, Emv, Eem, Ety, Et. }
  destruct (String.eqb_spec k key) as [->|Hne].
  - rewrite Ed, Et. exact Hsame.
  - destruct (getProp d k) as [edk|]; [|exact Hsame].
    destruct (negb (truthy edk)); [|exact Hsame].
    destruct (initializeInMaybe _ _) as [[idata imeta]|]; [|exact Hsame].
    destruct (setProp d k idata) as [d'|] eqn:Ed'; [|exact Hsame].
    pose proof (getProp_setProp_other _ _ key _ _ Ed' Hne) as Hd'.
    destruct (setProp mv k imeta) as [mv'|] eqn:Emv'.
    + cbn [done throw outData outMetadata]. unfold atEntry. rewrite Hd', Ed.
      destruct (isObject_setProp _ _ _ _ Emv') as [Hmv _].
      rewrite (getProp_writeBack_exact _ _ _ mv' Emv) by congruence.
      rewrite (getProp_setProp_other _ _ key _ _ Emv' Hne), Eem, Et.
      rewrite hasType_writeBack_value, Ety. exact Hnode.
    + cbn [throw outData outMetadata]. unfold atEntry. now rewrite Hd', Ed, Emv, Eem, Ety, Et.
Qed.

Lemma resolveRecordEntry_keepsLeaf o f sp efs key inner k v d m :
  sp.(entryFields) = Some efs ->
  (forall input d' m', keepsLeaf inner d' m' (resolve o f efs input d' m')) ->
  keepsLeaf (atEntry key inner) d m (resolveRecordEntry o f sp k v d m).
Proof.
  intros Hefs Hinner node Hnode.
  unfold resolveRecordEntry, resolveRecordEntryBody. fold (ensureRecordEntry sp k d m).
  destruct (ensureRecordEntry_keepsLeaf sp key inner k d m node Hnode) as (n1 & Hn1 & Hc1).
  destruct (thrown (ensureRecordEntry sp k d m)); [eauto|].
  set (d1 := outData (ensureRecordEntry sp k d m)) in *.
  set (m1 := outMetadata (ensureRecordEntry sp k d m)) in *.
  assert (Hstay : exists n2, atEntry key inner d1 m1 = Some n2 /\ changedLeaf node n2) by eauto.
  destruct (getProp d1 k) as [edk|] eqn:Edk; [|exact Hstay].
  destruct (getProp m1 "value") as [mv|] eqn:Emv; [|exact Hstay].
  destruct (getProp mv k) as [emk|] eqn:Eemk; [|exact Hstay].
  rewrite Hefs. cbn [resolveInMaybe].
  change (resolveIn resolveField o f efs v edk emk) with (resolve o f efs v edk emk).
  destruct (resolve_keepsNonObjects o f efs v edk emk) as (K1 & K2 & K3).
  cbn [outData outMetadata].
  assert (Hvalue : getProp (writeBack m1 "value"
                              (writeBack mv k (outMetadata (resolve o f efs v edk emk))))
                           "value"
                   = Ok (writeBack mv k (outMetadata (resolve o f efs v edk emk)))).
  { apply (getProp_writeBack_exact _ _ _ _ Emv). apply writeBack_nonObject. }
  revert Hn1. unfold atEntry. rewrite Emv, Hvalue, hasType_writeBack_value.
  destruct (String.eqb_spec k key) as [->|Hne].
  - rewrite Edk, Eemk.
    rewrite (getProp_writeBack_exact _ _ _ _ Edk K1), (getProp_writeBack_exact _ _ _ _ Eemk K2).
    destruct (hasType "record" m1); [|discriminate].
    destruct (truthy edk) eqn:Et; [|discriminate]. cbn [andb]. intros Hn1.
    destruct (Hinner v edk emk n1 Hn1) as (n2 & Hn2 & Hc2).
    exists n2. split; [|eapply changedLeaf_trans; eassumption].
    replace (truthy (outData (resolve o f efs v edk emk))) with true; [exact Hn2|].
    destruct (isObject edk) eqn:Eo.
    + symmetry. now apply truthy_object, K3.
    + now rewrite K1.
  - rewrite !getProp_writeBack_other by exact Hne. intros Hn1.
    exists n1. split; [exact Hn1 | exact Hc1].
Qed.

Lemma resolveRecord_keepsLeaf o f sp efs key inner v d m :
  sp.(entryFields) = Some efs ->
  (forall input d' m', keepsLeaf inner d' m' (resolve o f efs input d' m')) ->
  keepsLeaf (atEntry key inner) d m (resolveRecord o f sp v d m).
Proof.
  intros Hefs Hinner. unfold resolveRecord, resolveRecordBody.
  destruct (negb _); [apply keepsLeaf_throw|].
  apply forEachEntry_keepsLeaf. intros k a d' m' _.
  now apply resolveRecordEntry_keepsLeaf with (efs := efs).
Qed.

Lemma keepsLeaf_ext read read' d m o :
  (forall d m, read d m = read' d m) -> keepsLeaf read' d m o -> keepsLeaf read d m o.
Proof.
  intros Hext H node Hnode. rewrite Hext in Hnode.
  destruct (H node Hnode) as (node' & Hnode' & Hc). exists node'. now rewrite Hext.
Qed.

Lemma keepsLeaf_none d m o : keepsLeaf (fun _ _ => None) d m o.
Proof. intros node H. discriminate H. Qed.

Lemma hasType_assign t p props k v :
  k <> "type" -> hasType t (VObj p (assign props k v)) = hasType t (VObj p props).
Proof. intros Hne. cbn [hasType]. now rewrite lookup_assign_other. Qed.

Lemma commit_keepsLeaf k v d m :
  keepsLeaf (atField k leafNode) d m (commit FromSet k v d m).
Proof.
  intros node. unfold atField at 1, leafNode at 1.
  destruct (getProp d k) as [dk|] eqn:Ed; [|discriminate].
  destruct (getProp m k) as [mk|] eqn:Em; [|discriminate].
  destruct (hasType "leaf" mk) eqn:Ety; [|discriminate]. intros [= <-].
  destruct mk as [| | | | |p props]; try discriminate Ety.
  unfold commit. destruct (setProp d k v) as [d'|] eqn:Ed'.
  - rewrite Em. cbn [done outData outMetadata fromValue].
    eexists. split.
    + unfold atField, leafNode. rewrite (getProp_setProp_same _ _ _ _ Ed').
      rewrite (getProp_writeBack_exact _ _ _ _ Em) by discriminate.
      now rewrite !hasType_assign, Ety by discriminate.
    + split; [|right]; unfold getProp; cbn [nullish ownEntries].
      * now rewrite !lookup_assign_other by discriminate.
      * now rewrite lookup_assign_same.
  - exists (VObj p props). split; [|apply changedLeaf_refl].
    cbn [throw outData outMetadata]. unfold atField, leafNode. now rewrite Ed, Em, Ety.
Qed.

Lemma resolveLeaf_keepsLeaf o sp k v d m :
  keepsLeaf (atField k leafNode) d m (resolveLeaf o FromSet sp k v d m).
Proof.
  unfold resolveLeaf.
  destruct (runFixup _ _ _ _); [|apply keepsLeaf_throw].
  destruct (runValidate _ _ _); [|apply keepsLeaf_throw].
  destruct (runMapType _ _ _); [|apply keepsLeaf_throw].
  apply commit_keepsLeaf.
Qed.

Lemma leafAt_cons spec name rest d m :
  leafAt spec d m (name :: rest) =
  match lookup spec name with
  | None => None
  | Some sp =>
      match sp.(fields), sp.(entryFields) with
      | Some fs, _ => atField name (atFields (fun d mf => leafAt fs d mf rest)) d m
      | None, Some efs =>
          match rest with
          | key :: rest' => atField name (atEntry key (fun ed em => leafAt efs ed em rest')) d m
          | [] => None
          end
      | None, None =>
          match rest with
          | [] => atField name leafNode d m
          | _ :: _ => None
          end
      end
  end.
Proof. reflexivity. Qed.

Lemma resolve_keepsLeaf n :
  forall path : list string, List.length path <= n ->
  forall o spec input d m,
    keepsLeaf (fun d m => leafAt spec d m path) d m (resolve o FromSet spec input d m).
Proof.
  induction n as [|n IH]; intros [|name rest] Hlen o spec input d m;
    try (apply keepsLeaf_none); [cbn in Hlen; lia|].
  cbn [List.length] in Hlen.
  rewrite resolve_forEach. apply forEachEntry_keepsLeaf. intros k v d' m' _.
  destruct (String.eqb_spec k name) as [->|Hne].
  2:{ intros node Hnode. exists node. split; [|apply changedLeaf_refl].
      destruct (resolveEntry_framed o FromSet spec k v d' m') as [Hd Hm].
      rewrite <- Hnode. apply leafAt_ext; [now apply Hd | now apply Hm]. }
  unfold resolveEntry.
  eapply keepsLeaf_ext; [intros; apply leafAt_cons|].
  destruct (lookup spec name) as [sp|]; [|apply keepsLeaf_throw].
  rewrite resolveField_eq. unfold resolveFieldBody, notANamespaceGuard, unknownKindGuard.
  destruct (fields sp) as [fs|] eqn:Hfs; [|destruct (entryFields sp) as [efs|] eqn:Hefs].
  - cbn [has negb]. rewrite !andb_false_r.
    apply onChildren_keepsLeaf.
    + intros. apply resolveNamespace_keepsNonObjects.
    + intros. apply resolveNamespace_keepsLeaf with (fs := fs); [exact Hfs|].
      intros. apply IH. lia.
  - cbn [has negb]. rewrite !andb_false_r.
    destruct rest as [|key rest']; [apply keepsLeaf_none|].
    apply onChildren_keepsLeaf.
    + intros. apply resolveRecord_keepsNonObjects.
    + intros. apply resolveRecord_keepsLeaf with (efs := efs); [exact Hefs|].
      intros. apply IH. cbn [List.length] in Hlen. lia.
  - cbn [has negb]. rewrite !andb_true_r.
    destruct rest as [|key rest']; [|apply keepsLeaf_none].
    destruct (isPlainObject v); [apply keepsLeaf_throw | apply resolveLeaf_keepsLeaf].
Qed.

(** ** Leaves after initialization *)

Lemma allInitial_none d m : allInitial (fun _ _ => None) d m.
Proof. intros node H. discriminate H. Qed.

Lemma staysInitial_throw read e d m : staysInitial read d m (throw e d m).
Proof. intros H. discriminate H. Qed.

Lemma staysInitial_ext read read' d m o :
  (forall d m, read d m = read' d m) -> staysInitial read' d m o -> staysInitial read d m o.
Proof.
  intros Hext H Hok Hall node Hnode. rewrite Hext in Hnode.
  apply (H Hok); [|exact Hnode]. intros n Hn. apply Hall. now rewrite Hext.
Qed.

Lemma forEachEntry_staysInitial {A} (f : string -> A -> value -> value -> outcome) read es :
  (forall k a d m, In (k, a) es -> staysInitial read d m (f k a d m)) ->
  forall d m, staysInitial read d m (forEachEntry f es d m).
Proof.
  induction es as [|[k a] r IH]; intros H d m; cbn [forEachEntry].
  - intros _ Hall. exact Hall.
  - pose proof (H k a d m (or_introl eq_refl)) as Hstep. unfold staysInitial in *.
    destruct (thrown (f k a d m)) eqn:Et.
    + intros Hok. congruence.
    + intros Hok Hall. apply IH; auto. intros. apply H; auto. now right.
Qed.

Lemma onChildren_staysInitial k run inner d m :
  (forall d' m', keepsNonObjects d' m' (run d' m')) ->
  (forall d' m', staysInitial inner d' m' (run d' m')) ->
  staysInitial (atField k inner) d m (onChildren k run d m).
Proof.
  intros Hkeeps Hrun. unfold onChildren.
  destruct (getProp d k) as [dk|] eqn:Ed; [|apply staysInitial_throw].
  destruct (getProp m k) as [mk|] eqn:Em; [|apply staysInitial_throw].
  intros Hok Hall node. cbn [outData outMetadata thrown] in *.
  destruct (Hkeeps dk mk) as (H1 & H2 & _).
  unfold atField.
  rewrite (getProp_writeBack_exact _ _ _ _ Ed H1), (getProp_writeBack_exact _ _ _ _ Em H2).
  apply (Hrun dk mk Hok). intros n Hn. apply Hall. unfold atField. now rewrite Ed, Em.
Qed.

Lemma resolveNamespace_staysInitial o f sp fs v path inner d m :
  sp.(fields) = Some fs ->
  (forall input d' m', staysInitial inner d' m' (resolve o f fs input d' m')) ->
  staysInitial (atFields inner) d m (resolveNamespace o f sp v path d m).
Proof.
  intros Hfs Hinner. unfold resolveNamespace, resolveNamespaceBody. rewrite Hfs.
  destruct (_ && _ && _); [apply staysInitial_throw|].
  destruct (match shorthand sp with Some _ => _ | None => _ end) as [longhand|];
    [|apply staysInitial_throw].
  destruct (getProp m "fields") as [mf|] eqn:Em; [|apply staysInitial_throw].
  cbn [resolveInMaybe]. change (resolveIn resolveField o f fs longhand d mf)
    with (resolve o f fs longhand d mf).
  intros Hok Hall node. cbn [outData outMetadata thrown] in *. unfold atFields.
  destruct (resolve_keepsNonObjects o f fs longhand d mf) as (_ & H2 & _).
  rewrite (getProp_writeBack_exact _ _ _ _ Em H2).
  apply (Hinner longhand d mf Hok). intros n Hn. apply Hall. unfold atFields. now rewrite Em.
Qed.

(** A new record entry is what [initialize] makes of the entry fields. *)
Lemma ensureRecordEntry_staysInitial sp efs key inner k d m :
  sp.(entryFields) = Some efs ->
  (forall initialData initialMetadata,
      initialize efs = Ok (initialData, initialMetadata) ->
      allInitial inner initialData initialMetadata) ->
  staysInitial (atEntry key inner) d m (ensureRecordEntry sp k d m).
Proof.
  intros Hefs Hfresh. unfold ensureRecordEntry, ensureRecordEntryBody. rewrite Hefs.
  change (initializeInMaybe initializeField (Some efs)) with (initialize efs).
  destruct (getProp d k) as [edk|] eqn:Edk; [|apply staysInitial_throw].
  destruct (negb (truthy edk)) eqn:Et; [|intros _ Hall; exact Hall].
  destruct (initialize efs) as [[idata imeta]|] eqn:Einit; [|apply staysInitial_throw].
  destruct (setProp d k idata) as [d'|] eqn:Ed'; [|apply staysInitial_throw].
  destruct (getProp m "value") as [mv|] eqn:Emv; [|intros Hok; discriminate Hok].
  destruct (setProp mv k imeta) as [mv'|] eqn:Emv'; [|intros Hok; discriminate Hok].
  intros _ Hall node. cbn [done outData outMetadata]. unfold atEntry.
  destruct (isObject_setProp _ _ _ _ Emv') as [Hmv _].
  rewrite (getProp_writeBack_exact _ _ _ mv' Emv) by congruence.
  rewrite hasType_writeBack_value.
  destruct (String.eqb_spec k key) as [->|Hne].
  - rewrite (getProp_setProp_same _ _ _ _ Ed'), (getProp_setProp_same _ _ _ _ Emv').
    destruct (_ && _); [|discriminate]. now apply Hfresh.
  - rewrite (getProp_setProp_other _ _ key _ _ Ed' Hne).
    rewrite (getProp_setProp_other _ _ key _ _ Emv' Hne).
    intros Hnode. apply Hall. unfold atEntry. now rewrite Emv.
Qed.

Lemma resolveRecordEntry_staysInitial o f sp efs key inner k v d m :
  sp.(entryFields) = Some efs ->
  (forall initialData initialMetadata,
      initialize efs = Ok (initialData, initialMetadata) ->
      allInitial inner initialData initialMetadata) ->
  (forall input d' m', staysInitial inner d' m' (resolve o f efs input d' m')) ->
  staysInitial (atEntry key inner) d m (resolveRecordEntry o f sp k v d m).
Proof.
  intros Hefs Hfresh Hinner.
  unfold resolveRecordEntry, resolveRecordEntryBody. fold (ensureRecordEntry sp k d m).
  pose proof (ensureRecordEntry_staysInitial sp efs key inner k d m Hefs Hfresh) as Hensure.
  unfold staysInitial in *.
  destruct (thrown (ensureRecordEntry sp k d m)) eqn:Ethrown;
    [intros Hok; congruence|].
  set (d1 := outData (ensureRecordEntry sp k d m)) in *.
  set (m1 := outMetadata (ensureRecordEntry sp k d m)) in *.
  destruct (getProp d1 k) as [edk|] eqn:Edk; [|intros Hok; discriminate Hok].
  destruct (getProp m1 "value") as [mv|] eqn:Emv; [|intros Hok; discriminate Hok].
  destruct (getProp mv k) as [emk|] eqn:Eemk; [|intros Hok; discriminate Hok].
  rewrite Hefs. cbn [resolveInMaybe].
  change (resolveIn resolveField o f efs v edk emk) with (resolve o f efs v edk emk).
  destruct (resolve_keepsNonObjects o f efs v edk emk) as (K1 & K2 & K3).
  cbn [outData outMetadata thrown]. intros Hok Hall.
  specialize (Hensure eq_refl Hall).
  assert (Hvalue : getProp (writeBack m1 "value"
                              (writeBack mv k (outMetadata (resolve o f efs v edk emk))))
                           "value"
                   = Ok (writeBack mv k (outMetadata (resolve o f efs v edk emk)))).
  { apply (getProp_writeBack_exact _ _ _ _ Emv). apply writeBack_nonObject. }
  intros node. unfold atEntry. rewrite Hvalue, hasType_writeBack_value.
  destruct (String.eqb_spec k key) as [->|Hne].
  - rewrite (getProp_writeBack_exact _ _ _ _ Edk K1), (getProp_writeBack_exact _ _ _ _ Eemk K2).
    destruct (hasType "record" m1) eqn:Ety; [|discriminate]. cbn [andb].
    destruct (truthy (outData (resolve o f efs v edk emk))) eqn:Et'; [|discriminate].
    assert (Et : truthy edk = true).
    { destruct (isObject edk) eqn:Eo; [now apply truthy_object|]. now rewrite <- (K1 eq_refl). }
    apply (Hinner v edk emk Hok). intros n Hn. apply Hensure.
    unfold atEntry. now rewrite Edk, Emv, Eemk, Ety, Et.
  - rewrite !getProp_writeBack_other by exact Hne. intros Hnode. apply Hensure.
    unfold atEntry. now rewrite Emv.
Qed.

Lemma resolveRecord_staysInitial o f sp efs key inner v d m :
  sp.(entryFields) = Some efs ->
  (forall initialData initialMetadata,
      initialize efs = Ok (initialData, initialMetadata) ->
      allInitial inner initialData initialMetadata) ->
  (forall input d' m', staysInitial inner d' m' (resolve o f efs input d' m')) ->
  staysInitial (atEntry key inner) d m (resolveRecord o f sp v d m).
Proof.
  intros Hefs Hfresh Hinner. unfold resolveRecord, resolveRecordBody.
  destruct (negb _); [apply staysInitial_throw|].
  apply forEachEntry_staysInitial. intros k a d' m' _.
  now apply resolveRecordEntry_staysInitial with (efs := efs).
Qed.

(** A value committed from ['initial'] makes an initial leaf. *)
Lemma commit_initial k v d m :
  (commit FromInitial k v d m).(thrown) = None ->
  allInitial (atField k leafNode) (commit FromInitial k v d m).(outData)
             (commit FromInitial k v d m).(outMetadata).
Proof.
  unfold commit. destruct (setProp d k v) as [d'|] eqn:Ed'; [|discriminate].
  destruct (getProp m k) as [mk|] eqn:Em; [|discriminate].
  destruct mk as [| | | | |p props]; try discriminate.
  intros _ node. cbn [done outData outMetadata fromValue]. unfold atField, leafNode.
  rewrite (getProp_setProp_same _ _ _ _ Ed').
  rewrite (getProp_writeBack_exact _ _ _ _ Em) by discriminate.
  destruct (hasType _ _); [|discriminate]. intros [= <-].
  split; unfold getProp; cbn [nullish ownEntries].
  - rewrite lookup_assign_other by discriminate. now rewrite lookup_assign_same.
  - rewrite lookup_assign_same. rewrite !lookup_assign_other by discriminate.
    now rewrite lookup_assign_same.
Qed.

Lemma resolveLeaf_initial o sp k v d m :
  (resolveLeaf o FromInitial sp k v d m).(thrown) = None ->
  allInitial (atField k leafNode) (resolveLeaf o FromInitial sp k v d m).(outData)
             (resolveLeaf o FromInitial sp k v d m).(outMetadata).
Proof.
  unfold resolveLeaf.
  destruct (runFixup _ _ _ _); [|discriminate].
  destruct (runValidate _ _ _); [|discriminate].
  destruct (runMapType _ _ _); [|discriminate].
  apply commit_initial.
Qed.

Lemma nodupb_NoDup l : nodupb l = true -> NoDup l.
Proof.
  induction l as [|k r IH]; cbn; [constructor|].
  intros [Hk Hr]%andb_prop. constructor; [|auto].
  intros Hin. apply negb_true_iff in Hk.
  assert (existsb (String.eqb k) r = true); [|congruence].
  apply existsb_exists. exists k. split; [exact Hin | apply String.eqb_refl].
Qed.

Lemma distinctKeys_fields sp fs :
  distinctKeys sp = true -> sp.(fields) = Some fs -> distinctKeysSpec fs = true.
Proof. destruct sp; cbn. intros [H _]%andb_prop ->. exact H. Qed.

Lemma distinctKeys_entryFields sp efs :
  distinctKeys sp = true -> sp.(entryFields) = Some efs -> distinctKeysSpec efs = true.
Proof. destruct sp; cbn. intros [_ H]%andb_prop ->. exact H. Qed.

Lemma distinctKeysSpec_In spec k sp :
  distinctKeysSpec spec = true -> In (k, sp) spec -> distinctKeys sp = true.
Proof.
  intros [_ H]%andb_prop Hin. rewrite forallb_forall in H. exact (H _ Hin).
Qed.

(** A spec with distinct keys, around the field a lookup finds. *)
Lemma distinctKeysSpec_split spec k sp :
  distinctKeysSpec spec = true -> lookup spec k = Some sp ->
  exists pre post, spec = (pre ++ (k, sp) :: post)%list
                   /\ ~ In k (keys pre) /\ ~ In k (keys post).
Proof.
  intros [Hnd _]%andb_prop. apply nodupb_NoDup in Hnd. revert Hnd.
  induction spec as [|[k0 sp0] r IH]; cbn; [discriminate|]. intros Hnd Hl.
  inversion Hnd as [|? ? Hk0 Hr]; subst.
  destruct (String.eqb_spec k0 k) as [->|Hne].
  - injection Hl as ->. exists [], r. cbn. auto.
  - destruct (IH Hr Hl) as (pre & post & -> & Hpre & Hpost).
    exists ((k0, sp0) :: pre), post. cbn. intuition congruence.
Qed.

Lemma leafAt_no_metadata spec d m path : nullish m = true -> leafAt spec d m path = None.
Proof.
  intros Hm. destruct path as [|name rest]; [reflexivity|]. rewrite leafAt_cons.
  assert (Hat : forall A (inner : value -> value -> option A), atField name inner d m = None).
  { intros. unfold atField, getProp. rewrite Hm. now destruct (if nullish d then _ else _). }
  destruct (lookup spec name) as [sp|]; [|reflexivity].
  destruct (fields sp); [apply Hat|].
  destruct (entryFields sp); destruct rest; auto.
Qed.

Lemma lookup_map_values {A B} (f : A -> B) l k :
  lookup (map (fun kv => (fst kv, f (snd kv))) l) k = option_map f (lookup l k).
Proof.
  induction l as [|[k0 a] r IH]; cbn; [reflexivity|].
  now destruct (String.eqb k0 k).
Qed.

Lemma seedState_mapValues ns : seedState (mapValues seedNode ns).
Proof.
  intros k. unfold mapValues, getProp. cbn [nullish ownEntries].
  rewrite lookup_map_values. destruct (lookup (ownEntries ns) k); cbn; eauto.
Qed.

Lemma seedState_empty : seedState emptyObject.
Proof. intros k. now left. Qed.

Lemma commitInitial_keepsNonObjects k v d m : keepsNonObjects d m (commitInitial k v d m).
Proof.
  unfold commitInitial.
  destruct (setProp d k v) as [d'|] eqn:Ed; [|apply keepsNonObjects_throw].
  destruct (isObject_setProp _ _ _ _ Ed) as [Hd Hd'].
  destruct (setProp m k _) as [m'|] eqn:Em.
  - destruct (isObject_setProp _ _ _ _ Em) as [Hm Hm'].
    repeat split; cbn [done outData outMetadata]; congruence.
  - repeat split; cbn [throw outData outMetadata]; congruence.
Qed.

Lemma initializeField_keepsNonObjects sp k d m :
  keepsNonObjects d m (initializeField sp k d m).
Proof.
  rewrite initializeField_eq. unfold initializeFieldBody.
  destruct (has (fields sp)); [|destruct (has (entryFields sp))].
  - destruct (initializedNamespaceOf sp); [|apply keepsNonObjects_throw].
    destruct (getProp d k); [|apply keepsNonObjects_throw].
    destruct (setProp d k _) as [d1|] eqn:Ed; [|apply keepsNonObjects_throw].
    destruct (isObject_setProp _ _ _ _ Ed) as [Hd Hd1].
    assert (Hthrow : forall e, keepsNonObjects d m (throw e d1 m)).
    { intros e. repeat split; cbn [throw outData outMetadata]; congruence. }
    destruct (getProp m k); [|apply Hthrow].
    destruct (setProp m k _) as [m1|] eqn:Em; [|apply Hthrow].
    destruct (isObject_setProp _ _ _ _ Em) as [Hm Hm1].
    assert (Hthrow1 : forall e, keepsNonObjects d m (throw e d1 m1)).
    { intros e. repeat split; cbn [throw outData outMetadata]; congruence. }
    destruct (getProp d1 k); [|apply Hthrow1].
    destruct (getProp m1 k); [|apply Hthrow1].
    destruct (getProp _ "fields"); [|apply Hthrow1].
    repeat split; cbn [outData outMetadata]; rewrite ?isObject_writeBack; congruence.
  - destruct (initialRecordOf sp k d); [|apply keepsNonObjects_throw].
    destruct (thrown (initializeRecordEntries _ _ _ _)); [apply keepsNonObjects_throw|].
    destruct (setProp d k _) as [d1|] eqn:Ed; [|apply keepsNonObjects_throw].
    destruct (isObject_setProp _ _ _ _ Ed) as [Hd Hd1].
    assert (Hthrow : forall e, keepsNonObjects d m (throw e d1 m)).
    { intros e. repeat split; cbn [throw outData outMetadata]; congruence. }
    destruct (getProp m k); [|apply Hthrow].
    destruct (setProp m k _) as [m1|] eqn:Em; [|apply Hthrow].
    destruct (isObject_setProp _ _ _ _ Em) as [Hm Hm1].
    repeat split; cbn [done outData outMetadata]; congruence.
  - destruct (runInitializer sp k d); [|apply keepsNonObjects_throw].
    destruct (runMapType sp k _); [|apply keepsNonObjects_throw].
    apply commitInitial_keepsNonObjects.
Qed.

Lemma doInitialize_keepsNonObjects spec d m : keepsNonObjects d m (doInitialize spec d m).
Proof.
  unfold doInitialize, doInitializeIn.
  apply (forEachEntry_keepsNonObjects (fun k sp => initializeField sp k)).
  intros. apply initializeField_keepsNonObjects.
Qed.

Lemma getProp_initMetadataRecord_value v : getProp (initMetadataRecord v) "value" = Ok v.
Proof. reflexivity. Qed.

(** One level of the spec tree: what [doInitialize] and [resolve] do at a
    field, given what they do one level down. *)
Section InitializationStep.
Variable n : nat.
Hypothesis initialized :
  forall path : list string, List.length path <= n ->
  forall spec d m, distinctKeysSpec spec = true -> seedState m ->
    (doInitialize spec d m).(thrown) = None ->
    allInitial (fun d m => leafAt spec d m path)
               (doInitialize spec d m).(outData) (doInitialize spec d m).(outMetadata).
Hypothesis resolved :
  forall path : list string, List.length path <= n ->
  forall o spec input d m, distinctKeysSpec spec = true ->
    staysInitial (fun d m => leafAt spec d m path) d m (resolve o FromInitial spec input d m).

Lemma initializeField_leaf sp name d m :
  sp.(fields) = None -> sp.(entryFields) = None ->
  (initializeField sp name d m).(thrown) = None ->
  allInitial (atField name leafNode) (initializeField sp name d m).(outData)
             (initializeField sp name d m).(outMetadata).
Proof.
  intros Hfs Hefs. rewrite initializeField_eq. unfold initializeFieldBody.
  rewrite Hfs, Hefs. cbn [has].
  destruct (runInitializer sp name d); [|discriminate].
  destruct (runMapType sp name _) as [v|]; [|discriminate].
  unfold commitInitial.
  destruct (setProp d name v) as [d1|] eqn:Ed; [|discriminate].
  destruct (setProp m name _) as [m1|] eqn:Em; [|discriminate].
  intros _ node. cbn [done outData outMetadata]. unfold atField, leafNode.
  rewrite (getProp_setProp_same _ _ _ _ Ed), (getProp_setProp_same _ _ _ _ Em).
  cbn. intros [= <-]. now split.
Qed.

Lemma initializeField_namespaceLeaves sp fs name rest d m :
  List.length rest <= n ->
  sp.(fields) = Some fs -> distinctKeysSpec fs = true ->
  (getProp m name = Ok VUndefined \/ exists v, getProp m name = Ok (seedNode v)) ->
  (initializeField sp name d m).(thrown) = None ->
  allInitial (atField name (atFields (fun d mf => leafAt fs d mf rest)))
             (initializeField sp name d m).(outData)
             (initializeField sp name d m).(outMetadata).
Proof.
  intros Hlen Hfs Hdistinct Hseed. rewrite initializeField_eq. unfold initializeFieldBody.
  rewrite Hfs. cbn [has doInitializeInMaybe].
  destruct (initializedNamespaceOf sp) as [ns|]; [|discriminate].
  destruct (getProp d name) as [ed|]; [|discriminate].
  destruct (setProp d name _) as [d1|] eqn:Ed1; [|discriminate].
  destruct (getProp m name) as [em|] eqn:Em; [|discriminate].
  destruct (setProp m name _) as [m1|] eqn:Em1; [|discriminate].
  rewrite (getProp_setProp_same _ _ _ _ Ed1), (getProp_setProp_same _ _ _ _ Em1).
  set (nd := nullishOr ed ns). set (nm := nullishOr em (seedMetadata ns)).
  destruct (getProp nm "fields") as [mf|] eqn:Emf; [|discriminate].
  change (doInitializeIn initializeField fs nd mf) with (doInitialize fs nd mf).
  cbn [outData outMetadata thrown]. intros Hok node.
  destruct (doInitialize_keepsNonObjects fs nd mf) as (K1 & K2 & _).
  unfold atField, atFields.
  rewrite (getProp_writeBack_exact _ _ _ _ (getProp_setProp_same _ _ _ _ Ed1) K1).
  rewrite (getProp_writeBack_exact _ _ _ (writeBack nm "fields" _)
             (getProp_setProp_same _ _ _ _ Em1)) by apply writeBack_nonObject.
  rewrite (getProp_writeBack_exact _ _ _ _ Emf K2).
  destruct Hseed as [Hundef|[v Hv]].
  - apply (initialized rest Hlen fs nd mf Hdistinct); [|exact Hok].
    assert (em = VUndefined) by congruence. subst em. cbn in Emf.
    injection Emf as <-. apply seedState_mapValues.
  - assert (em = seedNode v) by congruence. subst em. cbn in Emf.
    injection Emf as <-. rewrite (K2 eq_refl).
    now rewrite leafAt_no_metadata.
Qed.

(** The seeds of a record, initialized and resolved one by one. *)
Lemma initializeRecordEntries_initial sp efs key rest initialRecord :
  List.length rest <= n ->
  sp.(entryFields) = Some efs -> distinctKeysSpec efs = true ->
  let o := initializeRecordEntries resolveField initializeField sp initialRecord in
  o.(thrown) = None ->
  allInitial (atField key (fun ed em => leafAt efs ed em rest)) o.(outData) o.(outMetadata).
Proof.
  intros Hlen Hefs Hdistinct o Hok. subst o.
  revert Hok. unfold initializeRecordEntries. rewrite Hefs. cbn [resolveInMaybe].
  change (initializeInMaybe initializeField (Some efs)) with (initialize efs).
  intros Hok.
  refine (forEachEntry_staysInitial _ (atField key (fun ed em => leafAt efs ed em rest))
            _ _ emptyObject emptyObject Hok _).
  - intros k v d m _.
    destruct (initialize efs) as [[idata imeta]|] eqn:Einit; [|apply staysInitial_throw].
    change (resolveIn resolveField noOptions FromInitial efs v idata imeta)
      with (resolve noOptions FromInitial efs v idata imeta).
    pose proof (resolved rest Hlen noOptions efs v idata imeta Hdistinct) as Hres.
    unfold staysInitial in Hres.
    destruct (thrown (resolve noOptions FromInitial efs v idata imeta));
      [apply staysInitial_throw|].
    destruct (setProp d k _) as [d1|] eqn:Ed1; [|apply staysInitial_throw].
    destruct (setProp m k _) as [m1|] eqn:Em1; [|intros H; discriminate H].
    intros _ Hall node. cbn [done outData outMetadata]. unfold atField.
    destruct (String.eqb_spec k key) as [->|Hne].
    + rewrite (getProp_setProp_same _ _ _ _ Ed1), (getProp_setProp_same _ _ _ _ Em1).
      apply (Hres eq_refl).
      unfold initialize, initializeInMaybe in Einit. cbn [doInitializeInMaybe] in Einit.
      change (doInitializeIn initializeField efs emptyObject emptyObject)
        with (doInitialize efs emptyObject emptyObject) in Einit.
      destruct (thrown (doInitialize efs emptyObject emptyObject)) eqn:Et; [discriminate|].
      injection Einit as <- <-.
      apply (initialized rest Hlen efs _ _ Hdistinct seedState_empty Et).
    + rewrite (getProp_setProp_other _ _ key _ _ Ed1 Hne).
      rewrite (getProp_setProp_other _ _ key _ _ Em1 Hne). apply Hall.
  - intros node. unfold atField. cbn. now rewrite leafAt_no_metadata.
Qed.

Lemma initializeField_recordLeaves sp efs name key rest d m :
  List.length rest <= n ->
  sp.(fields) = None -> sp.(entryFields) = Some efs -> distinctKeysSpec efs = true ->
  (getProp m name = Ok VUndefined \/ exists v, getProp m name = Ok (seedNode v)) ->
  (initializeField sp name d m).(thrown) = None ->
  allInitial (atField name (atEntry key (fun ed em => leafAt efs ed em rest)))
             (initializeField sp name d m).(outData)
             (initializeField sp name d m).(outMetadata).
Proof.
  intros Hlen Hfs Hefs Hdistinct Hseed. rewrite initializeField_eq. unfold initializeFieldBody.
  rewrite Hfs, Hefs. cbn [has].
  destruct (initialRecordOf sp name d) as [initialRecord|]; [|discriminate].
  pose proof (initializeRecordEntries_initial sp efs key rest initialRecord Hlen Hefs Hdistinct)
    as Hentries. cbn zeta in Hentries.
  destruct (thrown (initializeRecordEntries _ _ _ _)); [discriminate|].
  specialize (Hentries eq_refl).
  destruct (setProp d name _) as [d1|] eqn:Ed1; [|discriminate].
  destruct (getProp m name) as [em|] eqn:Em; [|discriminate].
  destruct (setProp m name _) as [m1|] eqn:Em1; [|discriminate].
  intros _ node. cbn [done outData outMetadata]. unfold atField at 1.
  rewrite (getProp_setProp_same _ _ _ _ Ed1), (getProp_setProp_same _ _ _ _ Em1).
  destruct Hseed as [Hundef|[v Hv]].
  - assert (em = VUndefined) by congruence. subst em. cbn [nullishOr nullish].
    unfold atEntry. rewrite getProp_initMetadataRecord_value.
    intros Hnode. apply Hentries. unfold atField. revert Hnode.
    destruct (getProp _ key); [|discriminate].
    destruct (getProp _ key); [|discriminate].
    destruct (_ && _); [|discriminate]. auto.
  - assert (em = seedNode v) by congruence. subst em. cbn [nullishOr nullish seedNode].
    unfold atEntry.
    destruct (getProp _ key); [|discriminate].
    destruct (getProp _ "value"); [|discriminate].
    destruct (getProp _ key); [|discriminate]. discriminate.
Qed.

End InitializationStep.

Lemma atField_ext {A} k (inner : value -> value -> option A) d m d' m' :
  getProp d' k = getProp d k -> getProp m' k = getProp m k ->
  atField k inner d' m' = atField k inner d m.
Proof. intros Hd Hm. unfold atField. now rewrite Hd, Hm. Qed.

(** After [doInitialize], every leaf is an initial one; [resolve] from
    ['initial'], which makes the seeds of a record, leaves them so. *)
Lemma initialization_leaves n :
  (forall path : list string, List.length path <= n ->
   forall spec d m, distinctKeysSpec spec = true -> seedState m ->
     (doInitialize spec d m).(thrown) = None ->
     allInitial (fun d m => leafAt spec d m path)
                (doInitialize spec d m).(outData) (doInitialize spec d m).(outMetadata))
  /\ (forall path : list string, List.length path <= n ->
      forall o spec input d m, distinctKeysSpec spec = true ->
        staysInitial (fun d m => leafAt spec d m path) d m
                     (resolve o FromInitial spec input d m)).
Proof.
  induction n as [|n [IHB IHR]].
  { split; intros [|name rest] Hlen; try (cbn in Hlen; lia); intros.
    - apply allInitial_none.
    - intros _ _. apply allInitial_none. }
  split; intros [|name rest] Hlen; cbn [List.length] in Hlen.
  - intros. apply allInitial_none.
  - intros spec d m Hdistinct Hseed Hok node. rewrite leafAt_cons.
    destruct (lookup spec name) as [sp|] eqn:El; [|discriminate].
    destruct (distinctKeysSpec_split _ _ _ Hdistinct El) as (pre & post & -> & Hpre & Hpost).
    assert (Hsp : distinctKeys sp = true).
    { apply (distinctKeysSpec_In _ name _ Hdistinct). apply in_or_app. right. now left. }
    destruct (thrown_doInitialize_at pre name sp post d m Hok) as (Hbefore & Hhere & ->).
    set (before := doInitialize pre d m) in *.
    set (here := initializeField sp name (outData before) (outMetadata before)) in *.
    destruct (doInitialize_frame post (outData here) (outMetadata here) name Hpost) as [Fd Fm].
    assert (Hat : getProp (outMetadata before) name = Ok VUndefined
                  \/ exists v, getProp (outMetadata before) name = Ok (seedNode v)).
    { destruct (doInitialize_frame pre d m name Hpre) as [_ Gm]. fold before in Gm.
      rewrite Gm. apply Hseed. }
    destruct (fields sp) as [fs|] eqn:Hfs; [|destruct (entryFields sp) as [efs|] eqn:Hefs].
    + rewrite (atField_ext _ _ _ _ _ _ Fd Fm).
      apply (initializeField_namespaceLeaves n IHB sp fs name rest); auto; [lia|].
      now apply distinctKeys_fields with (sp := sp).
    + destruct rest as [|key rest']; [discriminate|]. cbn [List.length] in Hlen.
      rewrite (atField_ext _ _ _ _ _ _ Fd Fm).
      apply (initializeField_recordLeaves n IHB IHR sp efs name key rest'); auto; [lia|].
      now apply distinctKeys_entryFields with (sp := sp).
    + destruct rest as [|key rest']; [|discriminate].
      rewrite (atField_ext _ _ _ _ _ _ Fd Fm).
      now apply initializeField_leaf.
  - intros. intros _ _. apply allInitial_none.
  - intros o spec input d m Hdistinct.
    rewrite resolve_forEach. apply forEachEntry_staysInitial. intros k v d' m' _.
    destruct (String.eqb_spec k name) as [->|Hne].
    2:{ intros _ Hall node Hnode. apply Hall. rewrite <- Hnode. symmetry.
        destruct (resolveEntry_framed o FromInitial spec k v d' m') as [Hd Hm].
        apply leafAt_ext; [now apply Hd | now apply Hm]. }
    unfold resolveEntry.
    eapply staysInitial_ext; [intros; apply leafAt_cons|].
    destruct (lookup spec name) as [sp|] eqn:El; [|apply staysInitial_throw].
    assert (Hsp : distinctKeys sp = true).
    { apply (distinctKeysSpec_In _ name _ Hdistinct). now apply lookup_In. }
    rewrite resolveField_eq. unfold resolveFieldBody, notANamespaceGuard, unknownKindGuard.
    destruct (fields sp) as [fs|] eqn:Hfs; [|destruct (entryFields sp) as [efs|] eqn:Hefs].
    + cbn [has negb]. rewrite !andb_false_r.
      apply onChildren_staysInitial.
      * intros. apply resolveNamespace_keepsNonObjects.
      * intros. apply resolveNamespace_staysInitial with (fs := fs); [exact Hfs|].
        intros. apply IHR; [lia|]. now apply distinctKeys_fields with (sp := sp).
    + cbn [has negb]. rewrite !andb_false_r.
      destruct rest as [|key rest']; [intros _ _; apply allInitial_none|].
      cbn [List.length] in Hlen.
      pose proof (distinctKeys_entryFields _ _ Hsp Hefs) as Hdefs.
      apply onChildren_staysInitial.
      * intros. apply resolveRecord_keepsNonObjects.
      * intros. apply resolveRecord_staysInitial with (efs := efs); [exact Hefs| |].
        -- intros idata imeta Einit.
           unfold initialize, initializeInMaybe in Einit. cbn [doInitializeInMaybe] in Einit.
           change (doInitializeIn initializeField efs emptyObject emptyObject)
             with (doInitialize efs emptyObject emptyObject) in Einit.
           destruct (thrown (doInitialize efs emptyObject emptyObject)) eqn:Et; [discriminate|].
           injection Einit as <- <-.
           apply (IHB rest'); [lia | exact Hdefs | apply seedState_empty | exact Et].
        -- intros. apply IHR; [lia | exact Hdefs].
    + cbn [has negb]. rewrite !andb_true_r.
      destruct rest as [|key rest']; [|intros _ _; apply allInitial_none].
      destruct (isPlainObject v); [apply staysInitial_throw|].
      intros Hok _. now apply resolveLeaf_initial.
Qed.

(** ** A change that names a leaf *)

Lemma allSet_none d m : allSet (fun _ _ => None) d m.
Proof. intros node H. discriminate H. Qed.

(** An iteration over distinct keys: what the callback makes true at [k]
    holds in the end, when the calls at the other keys keep it. *)
Lemma forEachEntry_keeps {A} (f : string -> A -> value -> value -> outcome)
    (P : value -> value -> Prop) es :
  (forall k a d m, In (k, a) es -> (f k a d m).(thrown) = None -> P d m ->
                   P (f k a d m).(outData) (f k a d m).(outMetadata)) ->
  forall d m, (forEachEntry f es d m).(thrown) = None -> P d m ->
              P (forEachEntry f es d m).(outData) (forEachEntry f es d m).(outMetadata).
Proof.
  induction es as [|[k a] r IH]; intros H d m; cbn [forEachEntry]; [auto|].
  pose proof (H k a d m (or_introl eq_refl)) as Hstep.
  destruct (thrown (f k a d m)) eqn:Et; [intros Hok; congruence|].
  intros Hok HP. apply IH; auto. intros. apply H; auto. now right.
Qed.

Lemma forEachEntry_settles {A} (f : string -> A -> value -> value -> outcome)
    (P : value -> value -> Prop) k a es :
  nodupb (keys es) = true -> lookup es k = Some a ->
  (forall d m, (f k a d m).(thrown) = None ->
               P (f k a d m).(outData) (f k a d m).(outMetadata)) ->
  (forall k' a' d m, k' <> k -> (f k' a' d m).(thrown) = None -> P d m ->
                     P (f k' a' d m).(outData) (f k' a' d m).(outMetadata)) ->
  forall d m, (forEachEntry f es d m).(thrown) = None ->
              P (forEachEntry f es d m).(outData) (forEachEntry f es d m).(outMetadata).
Proof.
  intros Hnd Hl Hhere Hother. induction es as [|[k0 a0] r IH]; [discriminate|].
  cbn in Hnd. apply andb_prop in Hnd as [Hk0 Hr]. apply negb_true_iff in Hk0.
  intros d m. cbn [forEachEntry]. cbn in Hl.
  destruct (String.eqb_spec k0 k) as [->|Hne].
  - injection Hl as ->. pose proof (Hhere d m) as Hstep.
    destruct (thrown (f k a d m)) eqn:Et; [intros Hok; congruence|]. intros Hok.
    apply forEachEntry_keeps; auto. intros k' a' d' m' Hin. apply Hother.
    intros ->. unfold keys in *.
    assert (existsb (String.eqb k) (map fst r) = true); [|congruence].
    apply existsb_exists. exists k. split; [|apply String.eqb_refl].
    apply in_map_iff. now exists (k, a').
  - destruct (thrown (f k0 a0 d m)) eqn:Et; [intros Hok; congruence|]. now apply IH.
Qed.

Lemma onChildren_allSet k run inner d m :
  (forall d' m', keepsNonObjects d' m' (run d' m')) ->
  (forall d' m', (run d' m').(thrown) = None ->
                 allSet inner (run d' m').(outData) (run d' m').(outMetadata)) ->
  (onChildren k run d m).(thrown) = None ->
  allSet (atField k inner) (onChildren k run d m).(outData) (onChildren k run d m).(outMetadata).
Proof.
  intros Hkeeps Hrun. unfold onChildren.
  destruct (getProp d k) as [dk|] eqn:Ed; [|discriminate].
  destruct (getProp m k) as [mk|] eqn:Em; [|discriminate].
  cbn [outData outMetadata thrown]. intros Hok node.
  destruct (Hkeeps dk mk) as (H1 & H2 & _). unfold atField.
  rewrite (getProp_writeBack_exact _ _ _ _ Ed H1), (getProp_writeBack_exact _ _ _ _ Em H2).
  now apply Hrun.
Qed.

Lemma resolveNamespace_allSet o f sp fs v path inner d m :
  sp.(fields) = Some fs -> isPlainObject v = true ->
  (forall d' m', (resolve o f fs v d' m').(thrown) = None ->
                 allSet inner (resolve o f fs v d' m').(outData)
                        (resolve o f fs v d' m').(outMetadata)) ->
  (resolveNamespace o f sp v path d m).(thrown) = None ->
  allSet (atFields inner) (resolveNamespace o f sp v path d m).(outData)
         (resolveNamespace o f sp v path d m).(outMetadata).
Proof.
  intros Hfs Hplain Hinner. unfold resolveNamespace, resolveNamespaceBody.
  rewrite Hfs, Hplain. cbn [negb andb].
  replace (match shorthand sp with Some _ => Ok v | None => Ok v end) with (Ok (A := value) v)
    by now destruct (shorthand sp).
  destruct (getProp m "fields") as [mf|] eqn:Em; [|discriminate].
  cbn [resolveInMaybe]. change (resolveIn resolveField o f fs v d mf)
    with (resolve o f fs v d mf).
  cbn [outData outMetadata thrown]. intros Hok node. unfold atFields.
  destruct (resolve_keepsNonObjects o f fs v d mf) as (_ & H2 & _).
  rewrite (getProp_writeBack_exact _ _ _ _ Em H2). now apply Hinner.
Qed.

Lemma commit_set k v d m :
  (commit FromSet k v d m).(thrown) = None ->
  allSet (atField k leafNode) (commit FromSet k v d m).(outData)
         (commit FromSet k v d m).(outMetadata).
Proof.
  unfold commit. destruct (setProp d k v) as [d'|] eqn:Ed'; [|discriminate].
  destruct (getProp m k) as [mk|] eqn:Em; [|discriminate].
  destruct mk as [| | | | |p props]; try discriminate.
  intros _ node. cbn [done outData outMetadata fromValue]. unfold atField, leafNode.
  rewrite (getProp_setProp_same _ _ _ _ Ed').
  rewrite (getProp_writeBack_exact _ _ _ _ Em) by discriminate.
  destruct (hasType _ _); [|discriminate]. intros [= <-].
  unfold getProp; cbn [nullish ownEntries]. now rewrite lookup_assign_same.
Qed.

Lemma resolveLeaf_set o sp k v d m :
  (resolveLeaf o FromSet sp k v d m).(thrown) = None ->
  allSet (atField k leafNode) (resolveLeaf o FromSet sp k v d m).(outData)
         (resolveLeaf o FromSet sp k v d m).(outMetadata).
Proof.
  unfold resolveLeaf.
  destruct (runFixup _ _ _ _); [|discriminate].
  destruct (runValidate _ _ _); [|discriminate].
  destruct (runMapType _ _ _); [|discriminate].
  apply commit_set.
Qed.

(** The entries of a record other than the one a call is at are not read
    differently after it. *)
Lemma ensureRecordEntry_other {A} sp key (inner : value -> value -> option A) k d m :
  k <> key ->
  (ensureRecordEntry sp k d m).(thrown) = None ->
  atEntry key inner (ensureRecordEntry sp k d m).(outData)
          (ensureRecordEntry sp k d m).(outMetadata)
  = atEntry key inner d m.
Proof.
  intros Hne. unfold ensureRecordEntry, ensureRecordEntryBody.
  destruct (getProp d k) as [edk|]; [|discriminate].
  destruct (negb (truthy edk)); [|reflexivity].
  destruct (initializeInMaybe _ _) as [[idata imeta]|]; [|discriminate].
  destruct (setProp d k idata) as [d'|] eqn:Ed'; [|discriminate].
  destruct (getProp m "value") as [mv|] eqn:Emv; [|discriminate].
  destruct (setProp mv k imeta) as [mv'|] eqn:Emv'; [|discriminate].
  intros _. cbn [done outData outMetadata]. unfold atEntry.
  destruct (isObject_setProp _ _ _ _ Emv') as [Hmv _].
  rewrite (getProp_writeBack_exact _ _ _ mv' Emv) by congruence.
  rewrite hasType_writeBack_value, Emv.
  rewrite (getProp_setProp_other _ _ key _ _ Ed' Hne).
  now rewrite (getProp_setProp_other _ _ key _ _ Emv' Hne).
Qed.

Lemma resolveRecordEntry_other {A} o f sp key (inner : value -> value -> option A) k v d m :
  k <> key ->
  (resolveRecordEntry o f sp k v d m).(thrown) = None ->
  atEntry key inner (resolveRecordEntry o f sp k v d m).(outData)
          (resolveRecordEntry o f sp k v d m).(outMetadata)
  = atEntry key inner d m.
Proof.
  intros Hne. unfold resolveRecordEntry, resolveRecordEntryBody.
  change (ensureRecordEntryBody initializeField sp k d m) with (ensureRecordEntry sp k d m).
  pose proof (ensureRecordEntry_other sp key inner k d m Hne) as Hensure.
  destruct (thrown (ensureRecordEntry sp k d m)) eqn:Et; [intros Hok; congruence|].
  rewrite <- (Hensure eq_refl).
  set (d1 := outData (ensureRecordEntry sp k d m)).
  set (m1 := outMetadata (ensureRecordEntry sp k d m)).
  destruct (getProp d1 k) as [edk|]; [|discriminate].
  destruct (getProp m1 "value") as [mv|] eqn:Emv; [|discriminate].
  destruct (getProp mv k) as [emk|]; [|discriminate].
  intros _. cbn [outData outMetadata]. unfold atEntry.
  rewrite (getProp_writeBack_exact _ _ _ (writeBack mv k _) Emv) by apply writeBack_nonObject.
  rewrite hasType_writeBack_value, Emv.
  now rewrite !getProp_writeBack_other by exact Hne.
Qed.

Lemma resolveRecordEntry_allSet o f sp efs key inner v d m :
  sp.(entryFields) = Some efs ->
  (forall d' m', (resolve o f efs v d' m').(thrown) = None ->
                 allSet inner (resolve o f efs v d' m').(outData)
                        (resolve o f efs v d' m').(outMetadata)) ->
  (resolveRecordEntry o f sp key v d m).(thrown) = None ->
  allSet (atEntry key inner) (resolveRecordEntry o f sp key v d m).(outData)
         (resolveRecordEntry o f sp key v d m).(outMetadata).
Proof.
  intros Hefs Hinner. unfold resolveRecordEntry, resolveRecordEntryBody.
  change (ensureRecordEntryBody initializeField sp key d m) with (ensureRecordEntry sp key d m).
  destruct (thrown (ensureRecordEntry sp key d m)) eqn:Et; [intros Hok; congruence|].
  set (d1 := outData (ensureRecordEntry sp key d m)).
  set (m1 := outMetadata (ensureRecordEntry sp key d m)).
  destruct (getProp d1 key) as [edk|] eqn:Edk; [|discriminate].
  destruct (getProp m1 "value") as [mv|] eqn:Emv; [|discriminate].
  destruct (getProp mv key) as [emk|] eqn:Eemk; [|discriminate].
  rewrite Hefs. cbn [resolveInMaybe].
  change (resolveIn resolveField o f efs v edk emk) with (resolve o f efs v edk emk).
  destruct (resolve_keepsNonObjects o f efs v edk emk) as (K1 & K2 & _).
  cbn [outData outMetadata thrown]. intros Hok node. unfold atEntry.
  rewrite (getProp_writeBack_exact _ _ _ (writeBack mv key _) Emv) by apply writeBack_nonObject.
  rewrite (getProp_writeBack_exact _ _ _ _ Edk K1), (getProp_writeBack_exact _ _ _ _ Eemk K2).
  destruct (_ && _); [|discriminate]. now apply Hinner.
Qed.

Lemma resolveRecord_allSet o f sp efs key inner v entry d m :
  sp.(entryFields) = Some efs ->
  isPlainObject v = true -> nodupb (keys (ownEntries v)) = true ->
  lookup (ownEntries v) key = Some entry ->
  (forall d' m', (resolve o f efs entry d' m').(thrown) = None ->
                 allSet inner (resolve o f efs entry d' m').(outData)
                        (resolve o f efs entry d' m').(outMetadata)) ->
  (resolveRecord o f sp v d m).(thrown) = None ->
  allSet (atEntry key inner) (resolveRecord o f sp v d m).(outData)
         (resolveRecord o f sp v d m).(outMetadata).
Proof.
  intros Hefs Hplain Hnd Hl Hinner. unfold resolveRecord, resolveRecordBody.
  rewrite Hplain. cbn [negb].
  apply (forEachEntry_settles (resolveRecordEntryBody resolveField initializeField o f sp)
           (allSet (atEntry key inner)) key entry); auto.
  - intros d' m'. now apply resolveRecordEntry_allSet with (efs := efs).
  - intros k' a' d' m' Hne Hok Hall node.
    change (resolveRecordEntryBody resolveField initializeField o f sp k' a' d' m')
      with (resolveRecordEntry o f sp k' a' d' m') in *.
    rewrite (resolveRecordEntry_other o f sp key inner k' a' d' m' Hne Hok). apply Hall.
Qed.

(** A change that returns has set every leaf its input names. *)
Lemma resolve_sets n :
  forall path : list string, List.length path <= n ->
  forall o spec input d m v,
    inputAt input path = Some v ->
    (resolve o FromSet spec input d m).(thrown) = None ->
    allSet (fun d m => leafAt spec d m path)
           (resolve o FromSet spec input d m).(outData)
           (resolve o FromSet spec input d m).(outMetadata).
Proof.
  induction n as [|n IH]; intros [|name rest] Hlen o spec input d m v;
    try (intros; apply allSet_none); [cbn in Hlen; lia|].
  cbn [List.length] in Hlen. cbn [inputAt].
  destruct (isPlainObject input && nodupb (keys (ownEntries input))) eqn:Hin; [|discriminate].
  apply andb_prop in Hin as [_ Hnd].
  destruct (lookup (ownEntries input) name) as [v1|] eqn:El; [|discriminate].
  intros Hat. rewrite resolve_forEach.
  apply (forEachEntry_settles (resolveEntry o FromSet spec)
           (allSet (fun d m => leafAt spec d m (name :: rest))) name v1); auto.
  2:{ intros k' a' d' m' Hne _ Hall node Hnode. apply Hall. rewrite <- Hnode. symmetry.
      destruct (resolveEntry_framed o FromSet spec k' a' d' m') as [Hd Hm].
      apply leafAt_ext; [now apply Hd | now apply Hm]. }
  intros d' m'. unfold resolveEntry, allSet. setoid_rewrite leafAt_cons.
  destruct (lookup spec name) as [sp|]; [|discriminate].
  rewrite resolveField_eq. unfold resolveFieldBody, notANamespaceGuard, unknownKindGuard.
  destruct (fields sp) as [fs|] eqn:Hfs; [|destruct (entryFields sp) as [efs|] eqn:Hefs].
  - cbn [has negb]. rewrite !andb_false_r.
    destruct rest as [|name' rest'].
    { intros _ node. unfold atField, atFields. cbn [leafAt].
      repeat destruct (getProp _ _); discriminate. }
    assert (Hplain : isPlainObject v1 = true).
    { cbn [inputAt] in Hat. now destruct (isPlainObject v1). }
    apply onChildren_allSet.
    + intros. apply resolveNamespace_keepsNonObjects.
    + intros d2 m2. apply resolveNamespace_allSet with (fs := fs); auto.
      intros. eapply IH; [lia | exact Hat | assumption].
  - cbn [has negb]. rewrite !andb_false_r.
    destruct rest as [|key rest']; [intros; discriminate|].
    cbn [List.length] in Hlen. cbn [inputAt] in Hat.
    destruct (isPlainObject v1 && nodupb (keys (ownEntries v1))) eqn:Hin1; [|discriminate].
    apply andb_prop in Hin1 as [Hplain Hnd1].
    destruct (lookup (ownEntries v1) key) as [entry|] eqn:El1; [|discriminate].
    apply onChildren_allSet.
    + intros. apply resolveRecord_keepsNonObjects.
    + intros d2 m2. apply resolveRecord_allSet with (efs := efs) (entry := entry); auto.
      intros. eapply IH; [lia | exact Hat | assumption].
  - cbn [has negb]. rewrite !andb_true_r.
    destruct rest as [|key rest']; [|intros; discriminate].
    destruct (isPlainObject v1); [discriminate|]. apply resolveLeaf_set.
Qed.

(** ** The manager, over a sequence of changes *)

Lemma changes_app m inputs more :
  changes m (inputs ++ more) = changes (changes m inputs) more.
Proof. apply fold_left_app. Qed.

Lemma changes_fields m inputs :
  managerFields (changes m inputs) = managerFields m
  /\ managerOptions (changes m inputs) = managerOptions m.
Proof.
  revert m. induction inputs as [|input r IH]; intros m; [now split|].
  change (changes m (input :: r)) with (changes (fst (change m input)) r).
  destruct (IH (fst (change m input))) as [-> ->]. now split.
Qed.

Lemma change_keepsLeaf m input path node :
  leafOf m path = Some node ->
  exists node', leafOf (fst (change m input)) path = Some node' /\ changedLeaf node node'.
Proof.
  intros Hnode.
  exact (resolve_keepsLeaf _ path (le_n _) (managerOptions m) (managerFields m) input
           (managerData m) (managerMetadata m) node Hnode).
Qed.

Lemma changes_keepsLeaf inputs : forall m path node,
  leafOf m path = Some node ->
  exists node', leafOf (changes m inputs) path = Some node' /\ changedLeaf node node'.
Proof.
  induction inputs as [|input r IH]; intros m path node Hnode; cbn.
  - exists node. split; [exact Hnode | apply changedLeaf_refl].
  - destruct (change_keepsLeaf m input path node Hnode) as (n1 & Hn1 & Hc1).
    destruct (IH _ path n1 Hn1) as (n2 & Hn2 & Hc2).
    exists n2. split; [exact Hn2 | eapply changedLeaf_trans; eassumption].
Qed.

Lemma create_initial spec options m0 path node :
  distinctKeysSpec spec = true -> create spec options = Ok m0 ->
  leafOf m0 path = Some node -> initialLeaf node.
Proof.
  intros Hdistinct. unfold create, initialize, initializeInMaybe.
  cbn [doInitializeInMaybe].
  change (doInitializeIn initializeField spec emptyObject emptyObject)
    with (doInitialize spec emptyObject emptyObject).
  destruct (thrown (doInitialize spec emptyObject emptyObject)) eqn:Et; [discriminate|].
  intros [= <-]. unfold leafOf. cbn [managerFields managerData managerMetadata].
  destruct (initialization_leaves (List.length path)) as [HB _].
  apply (HB path (le_n _) spec _ _ Hdistinct seedState_empty Et).
Qed.

Lemma create_fields spec options m0 :
  create spec options = Ok m0 -> managerFields m0 = spec /\ managerOptions m0 = options.
Proof.
  unfold create. destruct (initialize spec) as [[d m]|]; [|discriminate].
  intros [= <-]. now split.
Qed.

Lemma change_sets m input path v :
  inputAt input path = Some v ->
  snd (change m input) = None ->
  forall node, leafOf (fst (change m input)) path = Some node ->
               getProp node "from" = Ok (VStr "set").
Proof.
  intros Hat Hok.
  exact (resolve_sets _ path (le_n _) (managerOptions m) (managerFields m) input
           (managerData m) (managerMetadata m) v Hat Hok).
Qed.



Example leaf_after_create :
  leafOf (Examples.created Examples.xySpec noOptions) ["a"; "x"]
  = Some (initMetadataField (VNum 1)).
Proof. reflexivity. Qed.

Example leaf_after_change :
  leafOf (changes (Examples.created Examples.xySpec noOptions)
            [Examples.obj [("a", Examples.obj [("x", VNum 9)])]])
         ["a"; "x"]
  = Some (VObj true [("type", VStr "leaf"); ("from", VStr "set"); ("value", VNum 9);
                     ("initial", VNum 1)]).
Proof. reflexivity. Qed.

Example record_leaf_after_change :
  leafOf (changes (Examples.created Examples.leafAndRecordSpec noOptions)
            [Examples.obj [("r", Examples.obj [("k", Examples.obj [("x", VNum 4)])])]])
         ["r"; "k"; "x"]
  = Some (VObj true [("type", VStr "leaf"); ("from", VStr "set"); ("value", VNum 4);
                     ("initial", VNum 0)]).
Proof. reflexivity. Qed.


(** * Changes of leaves and of records *)

Lemma runFixup_error o sp k v e : runFixup o sp k v = Err e -> pipelineError k e.
Proof.
  unfold runFixup. destruct (fixup sp) as [f|]; [|discriminate].
  destruct (f v) as [[r|]|c]; try discriminate.
  - destruct (onFixup o) as [h|]; [|discriminate].
    destruct (h _); [discriminate|]. now intros [= <-].
  - now intros [= <-].
Qed.

Lemma runValidate_error sp k v e : runValidate sp k v = Err e -> pipelineError k e.
Proof.
  unfold runValidate. destruct (validate sp) as [f|]; [|discriminate].
  destruct (f v) as [[r|]|c]; try discriminate; now intros [= <-].
Qed.

Lemma runMapType_error sp k v e : runMapType sp k v = Err e -> pipelineError k e.
Proof.
  unfold runMapType, runTypeMapper. destruct (mapType sp) as [f|]; [|discriminate].
  destruct (f v); [discriminate|]. now intros [= <-].
Qed.

Lemma commit_error f k v d m e :
  (commit f k v d m).(thrown) = Some e ->
  e = TypeError /\ (commit f k v d m).(outMetadata) = m.
Proof.
  unfold commit. destruct (setProp d k v) as [d'|] eqn:Ed.
  - destruct (getProp m k) as [node|] eqn:Em.
    + destruct node; cbn; try discriminate; now intros [= <-].
    + cbn. intros [= <-]. split; [|reflexivity]. now apply getProp_error in Em.
  - cbn. intros [= <-]. split; [|reflexivity]. now apply setProp_error in Ed.
Qed.

(** A leaf whose value is refused is not touched: when the call at a leaf
    throws, the metadata are what they were, and so are the data unless the
    error is the [TypeError] of the assignments themselves; the error is
    then one of the pipeline of that leaf. *)
Theorem refused_value_changes_nothing :
  forall sp o f k v d m e,
    sp.(fields) = None -> sp.(entryFields) = None ->
    (resolveField sp o f k v d m).(thrown) = Some e ->
    (resolveField sp o f k v d m).(outMetadata) = m
    /\ (e = TypeError
        \/ (pipelineError k e /\ (resolveField sp o f k v d m).(outData) = d)).
Proof.
  intros sp o f k v d m e Hfs Hefs. rewrite resolveField_eq.
  unfold resolveFieldBody, notANamespaceGuard, unknownKindGuard.
  rewrite Hfs, Hefs. cbn [has negb]. rewrite !andb_true_r.
  destruct (isPlainObject v).
  { cbn. intros [= <-]. split; [reflexivity|]. right. now split. }
  unfold resolveLeaf.
  destruct (runFixup o sp k v) as [v1|e1] eqn:E1.
  2:{ cbn. intros [= <-]. split; [reflexivity|]. right. split; [|reflexivity].
      now apply runFixup_error in E1. }
  destruct (runValidate sp k v1) as [v2|e2] eqn:E2.
  2:{ cbn. intros [= <-]. split; [reflexivity|]. right. split; [|reflexivity].
      now apply runValidate_error in E2. }
  destruct (runMapType sp k v2) as [v3|e3] eqn:E3.
  2:{ cbn. intros [= <-]. split; [reflexivity|]. right. split; [|reflexivity].
      now apply runMapType_error in E3. }
  intros Hthrown. destruct (commit_error _ _ _ _ _ _ Hthrown) as [-> Hm]. auto.
Qed.

(** The validator of the tests refuses ["bar"]: the data stay as they were. *)
Lemma refused_value_changes_nothing_witness :
  let o := resolveField Examples.notBarLeaf noOptions FromSet "a" (VStr "bar")
                        (Examples.initialData Examples.notBarSpec)
                        (Examples.initialMetadata Examples.notBarSpec) in
  o.(thrown) = Some (ValidationFailed "a" (VStr "bar") ["Too long"])
  /\ o.(outData) = Examples.initialData Examples.notBarSpec
  /\ o.(outMetadata) = Examples.initialMetadata Examples.notBarSpec.
Proof.
  assert (Hthrown :
            (resolveField Examples.notBarLeaf noOptions FromSet "a" (VStr "bar")
                          (Examples.initialData Examples.notBarSpec)
                          (Examples.initialMetadata Examples.notBarSpec)).(thrown)
            = Some (ValidationFailed "a" (VStr "bar") ["Too long"])) by reflexivity.
  split; [exact Hthrown|].
  destruct (refused_value_changes_nothing Examples.notBarLeaf noOptions FromSet "a"
              (VStr "bar") (Examples.initialData Examples.notBarSpec)
              (Examples.initialMetadata Examples.notBarSpec)
              (ValidationFailed "a" (VStr "bar") ["Too long"])
              eq_refl eq_refl Hthrown) as [Hm [H|[_ Hd]]].
  - discriminate H.
  - split; [exact Hd | exact Hm].
Defined.

(** ** Changes, one after the other *)

(** Two changes in a row are one change of the two inputs put together: the
    entries of the first, then those of the second.  When the first change
    throws, the second input is not looked at. *)
Theorem changes_compose :
  forall m plain es1 es2,
    change m (VObj plain (es1 ++ es2)) =
    match snd (change m (VObj plain es1)) with
    | Some e => change m (VObj plain es1)
    | None => change (fst (change m (VObj plain es1))) (VObj plain es2)
    end.
Proof.
  intros. unfold change.
  cbn [fst snd managerFields managerOptions managerData managerMetadata].
  rewrite !resolve_forEach. cbn [ownEntries]. rewrite forEachEntry_app. cbn zeta.
  set (first := forEachEntry _ es1 _ _).
  destruct (thrown first) eqn:E; cbn [fst snd]; [now rewrite E|].
  reflexivity.
Qed.

(** ** The last value of a leaf *)

Lemma assign_assign {A} (l : list (string * A)) k a b :
  assign (assign l k a) k b = assign l k b.
Proof.
  induction l as [|[k0 a0] r IH]; cbn.
  - now rewrite String.eqb_refl.
  - destruct (String.eqb k0 k) eqn:E; cbn; rewrite E; [reflexivity | now rewrite IH].
Qed.

Lemma assign_twice {A} (l : list (string * A)) k k' a a' b :
  k <> k' ->
  assign (assign (assign (assign l k a) k' b) k a') k' b = assign (assign l k a') k' b.
Proof.
  intros Hne. assert (Hne' : k' <> k) by congruence.
  apply String.eqb_neq in Hne, Hne'.
  induction l as [|[k0 a0] r IH]; cbn.
  - rewrite ?String.eqb_refl, ?Hne, ?Hne'. cbn.
    rewrite ?String.eqb_refl, ?Hne, ?Hne'. cbn.
    now rewrite ?String.eqb_refl, ?Hne, ?Hne'.
  - destruct (String.eqb k0 k) eqn:Ek; cbn.
    + apply String.eqb_eq in Ek. subst k0. rewrite Hne. cbn.
      rewrite String.eqb_refl. cbn. rewrite Hne. now rewrite assign_assign.
    + destruct (String.eqb k0 k') eqn:Ek'; cbn.
      * rewrite Ek. cbn. rewrite Ek'. now rewrite assign_assign.
      * rewrite Ek. cbn. rewrite Ek'. now rewrite IH.
Qed.

Lemma replace_replace {A} (l : list (string * A)) k a b :
  replace (replace l k a) k b = replace l k b.
Proof.
  induction l as [|[k0 a0] r IH]; cbn; [reflexivity|].
  destruct (String.eqb k0 k) eqn:E; cbn; rewrite E; [reflexivity | now rewrite IH].
Qed.

Lemma commit_commit k v1 v2 d m :
  (commit FromSet k v1 d m).(thrown) = None ->
  commit FromSet k v2 (commit FromSet k v1 d m).(outData)
         (commit FromSet k v1 d m).(outMetadata)
  = commit FromSet k v2 d m.
Proof.
  unfold commit at 1 3 4.
  destruct d as [| | | | |plain props]; try discriminate. cbn [setProp].
  destruct (getProp m k) as [node|] eqn:Em; [|discriminate].
  destruct node as [| | | | |np nprops]; try discriminate.
  intros _. cbn [done outData outMetadata fromValue].
  unfold commit. cbn [setProp]. rewrite assign_assign.
  destruct (getProp_object _ _ _ _ Em) as (mp & mprops & -> & Hl).
  unfold getProp. cbn [writeBack nullish ownEntries]. rewrite lookup_replace_same, Hl.
  cbn [option_map]. cbn [done fromValue writeBack].
  rewrite replace_replace, assign_twice by discriminate. reflexivity.
Qed.

(** Of two values given to a leaf one after the other, both accepted, the
    data and the metadata keep the second only: they are what the second
    change alone makes them. *)
Theorem later_value_replaces_earlier :
  forall sp o k v1 v2 d m,
    sp.(fields) = None -> sp.(entryFields) = None ->
    (resolveField sp o FromSet k v1 d m).(thrown) = None ->
    (resolveField sp o FromSet k v2 d m).(thrown) = None ->
    resolveField sp o FromSet k v2
                 (resolveField sp o FromSet k v1 d m).(outData)
                 (resolveField sp o FromSet k v1 d m).(outMetadata)
    = resolveField sp o FromSet k v2 d m.
Proof.
  intros sp o k v1 v2 d m Hfs Hefs. rewrite !resolveField_eq.
  unfold resolveFieldBody, notANamespaceGuard, unknownKindGuard.
  rewrite Hfs, Hefs. cbn [has negb]. rewrite !andb_true_r.
  destruct (isPlainObject v1); [discriminate|].
  destruct (isPlainObject v2); [discriminate|]. unfold resolveLeaf.
  destruct (runFixup o sp k v1) as [a1|]; [|discriminate].
  destruct (runValidate sp k a1) as [b1|]; [|discriminate].
  destruct (runMapType sp k b1) as [c1|]; [|discriminate].
  destruct (runFixup o sp k v2) as [a2|]; [|discriminate].
  destruct (runValidate sp k a2) as [b2|]; [|discriminate].
  destruct (runMapType sp k b2) as [c2|]; [|discriminate].
  intros Hok _. now apply commit_commit.
Qed.

Lemma later_value_replaces_earlier_witness :
  let d := Examples.initialData Examples.notBarSpec in
  let m := Examples.initialMetadata Examples.notBarSpec in
  let first := resolveField Examples.notBarLeaf noOptions FromSet "a" (VStr "x") d m in
  resolveField Examples.notBarLeaf noOptions FromSet "a" (VStr "y")
               first.(outData) first.(outMetadata)
  = resolveField Examples.notBarLeaf noOptions FromSet "a" (VStr "y") d m.
Proof.
  exact (later_value_replaces_earlier Examples.notBarLeaf noOptions "a" (VStr "x") (VStr "y")
           (Examples.initialData Examples.notBarSpec)
           (Examples.initialMetadata Examples.notBarSpec)
           eq_refl eq_refl eq_refl eq_refl).
Defined.

(** ** Changes merge into records *)

Lemma forEachEntry_preserves {A} (f : string -> A -> value -> value -> outcome)
    (P : value -> value -> Prop) es :
  (forall k a d m, In (k, a) es -> P d m -> P (f k a d m).(outData) (f k a d m).(outMetadata)) ->
  forall d m, P d m ->
              P (forEachEntry f es d m).(outData) (forEachEntry f es d m).(outMetadata).
Proof.
  induction es as [|[k a] r IH]; intros H d m HP; cbn [forEachEntry]; [exact HP|].
  pose proof (H k a d m (or_introl eq_refl) HP) as Hstep.
  destruct (thrown (f k a d m)); [exact Hstep|].
  apply IH; [|exact Hstep]. intros. apply H; [now right | assumption].
Qed.

Lemma ensureRecordEntry_frame sp k key d m :
  k <> key ->
  getProp (ensureRecordEntry sp k d m).(outData) key = getProp d key
  /\ getPath (ensureRecordEntry sp k d m).(outMetadata) ["value"; key]
     = getPath m ["value"; key].
Proof.
  intros Hne. unfold ensureRecordEntry, ensureRecordEntryBody.
  destruct (getProp d k) as [edk|]; [|now split].
  destruct (negb (truthy edk)); [|now split].
  destruct (initializeInMaybe _ _) as [[idata imeta]|]; [|now split].
  destruct (setProp d k idata) as [d'|] eqn:Ed'; [|now split].
  pose proof (getProp_setProp_other _ _ key _ _ Ed' Hne) as Hd'.
  destruct (getProp m "value") as [mv|] eqn:Emv; [|now split].
  destruct (setProp mv k imeta) as [mv'|] eqn:Emv'; [|now split].
  split; [exact Hd'|]. cbn [done outMetadata].
  apply getPath_writeBack with (child := mv); [exact Emv|]. cbn [getPath].
  now rewrite (getProp_setProp_other _ _ key _ _ Emv' Hne).
Qed.

Lemma resolveRecordEntry_frame o f sp k v key d m :
  k <> key ->
  getProp (resolveRecordEntry o f sp k v d m).(outData) key = getProp d key
  /\ getPath (resolveRecordEntry o f sp k v d m).(outMetadata) ["value"; key]
     = getPath m ["value"; key].
Proof.
  intros Hne. unfold resolveRecordEntry, resolveRecordEntryBody.
  change (ensureRecordEntryBody initializeField sp k d m) with (ensureRecordEntry sp k d m).
  destruct (ensureRecordEntry_frame sp k key d m Hne) as [Hd Hm].
  destruct (thrown (ensureRecordEntry sp k d m)); [now split|].
  set (d1 := outData (ensureRecordEntry sp k d m)) in *.
  set (m1 := outMetadata (ensureRecordEntry sp k d m)) in *.
  destruct (getProp d1 k) as [edk|]; [|now split].
  destruct (getProp m1 "value") as [mv|] eqn:Emv; [|now split].
  destruct (getProp mv k) as [emk|]; [|now split].
  cbn [outData outMetadata]. split.
  - now rewrite getProp_writeBack_other.
  - rewrite <- Hm. apply getPath_writeBack with (child := mv); [exact Emv|]. cbn [getPath].
    now rewrite getProp_writeBack_other.
Qed.




(** * The keys of the data and of the metadata *)

(** ** The settings a manager holds *)

Lemma keys_assign {A} (l : list (string * A)) k a : keys (assign l k a) = addKey (keys l) k.
Proof.
  unfold addKey. induction l as [|[k0 a0] r IH]; cbn; [reflexivity|].
  rewrite (String.eqb_sym k k0). destruct (String.eqb k0 k); cbn; [reflexivity|].
  unfold keys in *. rewrite IH. now destruct (existsb _ _).
Qed.

Lemma keys_replace {A} (l : list (string * A)) k a : keys (replace l k a) = keys l.
Proof.
  induction l as [|[k0 a0] r IH]; cbn; [reflexivity|].
  destruct (String.eqb k0 k); cbn; [reflexivity|]. unfold keys in *. now rewrite IH.
Qed.

Lemma addKey_addKey ks k : addKey (addKey ks k) k = addKey ks k.
Proof.
  unfold addKey. destruct (existsb (String.eqb k) ks) eqn:E; [now rewrite E|].
  rewrite existsb_app. cbn. now rewrite String.eqb_refl, orb_true_r.
Qed.

Lemma addKey_present ks k : In k ks -> addKey ks k = ks.
Proof.
  intros Hin. unfold addKey.
  replace (existsb (String.eqb k) ks) with true; [reflexivity|].
  symmetry. apply existsb_exists. exists k. split; [exact Hin | apply String.eqb_refl].
Qed.

Lemma setProp_keys o k v o' :
  setProp o k v = Ok o' ->
  isPlainObject o' = isPlainObject o
  /\ keys (ownEntries o') = addKey (keys (ownEntries o)) k.
Proof.
  destruct o; try discriminate. cbn. intros [= <-]. split; [reflexivity|]. apply keys_assign.
Qed.

Lemma writeBack_keys o k c :
  isPlainObject (writeBack o k c) = isPlainObject o
  /\ keys (ownEntries (writeBack o k c)) = keys (ownEntries o).
Proof. destruct o; try (now split). cbn. split; [reflexivity | apply keys_replace]. Qed.

(** A field that initializes is a key of the data and of the metadata. *)
Lemma initializeField_keys sp k d m :
  (initializeField sp k d m).(thrown) = None ->
  let o := initializeField sp k d m in
  (isPlainObject o.(outData) = isPlainObject d
   /\ keys (ownEntries o.(outData)) = addKey (keys (ownEntries d)) k)
  /\ (isPlainObject o.(outMetadata) = isPlainObject m
      /\ keys (ownEntries o.(outMetadata)) = addKey (keys (ownEntries m)) k).
Proof.
  cbn zeta. rewrite initializeField_eq. unfold initializeFieldBody.
  destruct (has (fields sp)); [|destruct (has (entryFields sp))].
  - destruct (initializedNamespaceOf sp); [|discriminate].
    destruct (getProp d k); [|discriminate].
    destruct (setProp d k _) as [d1|] eqn:Ed; [|discriminate].
    destruct (getProp m k); [|discriminate].
    destruct (setProp m k _) as [m1|] eqn:Em; [|discriminate].
    destruct (getProp d1 k); [|discriminate].
    destruct (getProp m1 k); [|discriminate].
    destruct (getProp _ "fields"); [|discriminate].
    intros _. cbn [outData outMetadata].
    destruct (setProp_keys _ _ _ _ Ed) as [P1 K1], (setProp_keys _ _ _ _ Em) as [P2 K2].
    split; (split; [now rewrite (proj1 (writeBack_keys _ _ _))
                   | now rewrite (proj2 (writeBack_keys _ _ _))]).
  - destruct (initialRecordOf sp k d); [|discriminate].
    destruct (thrown (initializeRecordEntries _ _ _ _)); [discriminate|].
    destruct (setProp d k _) as [d1|] eqn:Ed; [|discriminate].
    destruct (getProp m k); [|discriminate].
    destruct (setProp m k _) as [m1|] eqn:Em; [|discriminate].
    intros _. cbn [done outData outMetadata].
    split; [exact (setProp_keys _ _ _ _ Ed) | exact (setProp_keys _ _ _ _ Em)].
  - destruct (runInitializer sp k d); [|discriminate].
    destruct (runMapType sp k _); [|discriminate]. unfold commitInitial.
    destruct (setProp d k _) as [d1|] eqn:Ed; [|discriminate].
    destruct (setProp m k _) as [m1|] eqn:Em; [|discriminate].
    intros _. cbn [done outData outMetadata].
    split; [exact (setProp_keys _ _ _ _ Ed) | exact (setProp_keys _ _ _ _ Em)].
Qed.

Lemma doInitialize_keys spec : forall d m,
  (doInitialize spec d m).(thrown) = None ->
  let o := doInitialize spec d m in
  (isPlainObject o.(outData) = isPlainObject d
   /\ keys (ownEntries o.(outData)) = fold_left addKey (keys spec) (keys (ownEntries d)))
  /\ (isPlainObject o.(outMetadata) = isPlainObject m
      /\ keys (ownEntries o.(outMetadata))
         = fold_left addKey (keys spec) (keys (ownEntries m))).
Proof.
  unfold doInitialize, doInitializeIn.
  induction spec as [|[k sp] r IH]; intros d m; cbn [forEachEntry]; [now repeat split|].
  cbn beta zeta.
  pose proof (initializeField_keys sp k d m) as Hstep. cbn zeta in Hstep.
  destruct (thrown (initializeField sp k d m)) eqn:Et; [intros Hok; congruence|].
  destruct (Hstep eq_refl) as [[P1 K1] [P2 K2]]. intros Hok.
  destruct (IH _ _ Hok) as [[P1' K1'] [P2' K2']]. cbn zeta in *. cbn [keys map fst fold_left].
  unfold keys in *. rewrite P1', P1, K1', K1, P2', P2, K2', K2. now repeat split.
Qed.

Lemma fold_addKey_fresh ks : forall seen,
  NoDup (seen ++ ks) -> fold_left addKey ks seen = (seen ++ ks)%list.
Proof.
  induction ks as [|k r IH]; intros seen Hnd; cbn; [now rewrite app_nil_r|].
  assert (Hfresh : existsb (String.eqb k) seen = false).
  { destruct (existsb (String.eqb k) seen) eqn:E; [|reflexivity].
    apply existsb_exists in E as (x & Hx & ->%String.eqb_eq).
    apply NoDup_remove_2 in Hnd. exfalso. apply Hnd. apply in_or_app. now left. }
  unfold addKey at 2. rewrite Hfresh.
  rewrite IH; rewrite <- app_assoc; [reflexivity | exact Hnd].
Qed.

(** A change does not add or remove a key: a setting is assigned where it
    is. *)
Lemma resolveField_keys sp o f k v d m :
  In k (keys (ownEntries d)) ->
  let out := resolveField sp o f k v d m in
  (isPlainObject out.(outData) = isPlainObject d
   /\ keys (ownEntries out.(outData)) = keys (ownEntries d))
  /\ (isPlainObject out.(outMetadata) = isPlainObject m
      /\ keys (ownEntries out.(outMetadata)) = keys (ownEntries m)).
Proof.
  intros Hin. cbn zeta. rewrite resolveField_eq. unfold resolveFieldBody.
  assert (Hchildren : forall run,
             (isPlainObject (onChildren k run d m).(outData) = isPlainObject d
              /\ keys (ownEntries (onChildren k run d m).(outData)) = keys (ownEntries d))
             /\ (isPlainObject (onChildren k run d m).(outMetadata) = isPlainObject m
                 /\ keys (ownEntries (onChildren k run d m).(outMetadata))
                    = keys (ownEntries m))).
  { intros run. unfold onChildren.
    destruct (getProp d k); [|now repeat split].
    destruct (getProp m k); [|now repeat split].
    cbn [outData outMetadata]. split; apply writeBack_keys. }
  destruct (notANamespaceGuard _ _); [now repeat split|].
  destruct (unknownKindGuard _ _); [now repeat split|].
  destruct (has (fields sp)); [apply Hchildren|].
  destruct (has (entryFields sp)); [apply Hchildren|].
  unfold resolveLeaf.
  destruct (runFixup _ _ _ _); [|now repeat split].
  destruct (runValidate _ _ _); [|now repeat split].
  destruct (runMapType _ _ _); [|now repeat split].
  unfold commit. destruct (setProp d k _) as [d1|] eqn:Ed; [|now repeat split].
  destruct (setProp_keys _ _ _ _ Ed) as [P1 K1]. rewrite (addKey_present _ _ Hin) in K1.
  destruct (getProp m k) as [node|]; [|now repeat split].
  destruct node; try (now repeat split).
  cbn [done outData outMetadata]. split; [now split | apply writeBack_keys].
Qed.

Lemma resolve_keys o f spec input d m :
  keys (ownEntries d) = keys spec ->
  let out := resolve o f spec input d m in
  (isPlainObject out.(outData) = isPlainObject d
   /\ keys (ownEntries out.(outData)) = keys spec)
  /\ (isPlainObject out.(outMetadata) = isPlainObject m
      /\ keys (ownEntries out.(outMetadata)) = keys (ownEntries m)).
Proof.
  intros Hd. cbn zeta. rewrite resolve_forEach.
  apply (forEachEntry_invariant (resolveEntry o f spec)
           (fun d' m' => (isPlainObject d' = isPlainObject d
                          /\ keys (ownEntries d') = keys spec)
                         /\ (isPlainObject m' = isPlainObject m
                             /\ keys (ownEntries m') = keys (ownEntries m)))
           (fun _ => True)); [|now repeat split].
  intros k v d' m' _ [[P1 K1] [P2 K2]]. split; [|trivial].
  unfold resolveEntry. destruct (lookup spec k) as [sp|] eqn:El; [|now repeat split].
  assert (Hin : In k (keys (ownEntries d'))).
  { rewrite K1. apply in_map_iff. exists (k, sp). split; [reflexivity | now apply lookup_In]. }
  destruct (resolveField_keys sp o f k v d' m' Hin) as [[Q1 L1] [Q2 L2]].
  repeat split; congruence.
Qed.

Lemma change_holdsTheSettings m input :
  holdsTheSettings m -> holdsTheSettings (fst (change m input)).
Proof.
  intros [[P1 K1] [P2 K2]]. unfold holdsTheSettings, change.
  cbn [fst managerData managerMetadata managerFields].
  destruct (resolve_keys (managerOptions m) FromSet (managerFields m) input
              (managerData m) (managerMetadata m) K1) as [[Q1 L1] [Q2 L2]].
  repeat split; congruence.
Qed.

Lemma changes_holdsTheSettings inputs : forall m,
  holdsTheSettings m -> holdsTheSettings (changes m inputs).
Proof.
  induction inputs as [|input r IH]; intros m H; [exact H|].
  apply (IH (fst (change m input))). now apply change_holdsTheSettings.
Qed.

Lemma create_holdsTheSettings spec options m0 :
  nodupb (keys spec) = true -> create spec options = Ok m0 -> holdsTheSettings m0.
Proof.
  intros Hnd. unfold create, initialize, initializeInMaybe. cbn [doInitializeInMaybe].
  change (doInitializeIn initializeField spec emptyObject emptyObject)
    with (doInitialize spec emptyObject emptyObject).
  pose proof (doInitialize_keys spec emptyObject emptyObject) as Hkeys. cbn zeta in Hkeys.
  destruct (thrown (doInitialize spec emptyObject emptyObject)); [discriminate|].
  intros [= <-]. destruct (Hkeys eq_refl) as [[P1 K1] [P2 K2]].
  cbn [emptyObject ownEntries keys map] in K1, K2.
  rewrite (fold_addKey_fresh (keys spec) []) in K1, K2 by now apply nodupb_NoDup.
  unfold holdsTheSettings. cbn [managerData managerMetadata managerFields].
  repeat split; assumption.
Qed.



(** * The original settings, under changes *)

Lemma metadataToData_object p props copy :
  metadataToData (VObj p props) copy = forOwnInto originalEntry props copy.
Proof. reflexivity. Qed.

Lemma forOwnInto_replace props k node' :
  (forall node0, lookup props k = Some node0 -> sameOriginal node0 node') ->
  forall copy, forOwnInto originalEntry (replace props k node') copy
               = forOwnInto originalEntry props copy.
Proof.
  induction props as [|[k0 a0] r IH]; intros Hsame copy; cbn; [reflexivity|].
  cbn in Hsame. destruct (String.eqb k0 k).
  - cbn. now rewrite (Hsame a0 eq_refl).
  - cbn. destruct (originalEntry k0 a0 copy); [now apply IH | reflexivity].
Qed.

Lemma metadataToData_writeBack m k node node' :
  getProp m k = Ok node -> sameOriginal node node' ->
  forall copy, metadataToData (writeBack m k node') copy = metadataToData m copy.
Proof.
  intros Hget Hsame copy. destruct m as [| | | | |p props]; try reflexivity.
  cbn [writeBack]. rewrite !metadataToData_object.
  apply (forOwnInto_replace props k node').
  intros node0 Hl. unfold getProp in Hget. cbn [nullish ownEntries] in Hget.
  rewrite Hl in Hget. now injection Hget as ->.
Qed.

Lemma sameOriginal_refl node : sameOriginal node node.
Proof. now intros name copy. Qed.

(** What [metadataToData] reads of a node: its [fields] and its [initial]. *)
Lemma sameOriginal_props p props props' :
  lookup props' "fields" = lookup props "fields" ->
  lookup props' "initial" = lookup props "initial" ->
  sameOriginal (VObj p props) (VObj p props').
Proof.
  intros Hf Hi name copy. unfold originalEntry.
  now rewrite !lookupWith_lookup, Hf, Hi.
Qed.

Lemma sameOriginal_writeBack_value node x : sameOriginal node (writeBack node "value" x).
Proof.
  destruct node as [| | | | |p props]; try apply sameOriginal_refl.
  apply sameOriginal_props; now rewrite lookup_replace_other by discriminate.
Qed.

Lemma sameOriginal_writeBack_fields node mf mf' :
  getProp node "fields" = Ok mf ->
  truthy mf' = truthy mf ->
  metadataToData mf' emptyObject = metadataToData mf emptyObject ->
  sameOriginal node (writeBack node "fields" mf').
Proof.
  intros Hget Ht Hm. destruct node as [| | | | |p props]; try apply sameOriginal_refl.
  intros name copy. unfold originalEntry. cbn [writeBack].
  rewrite !lookupWith_lookup, lookup_replace_same.
  rewrite lookup_replace_other by discriminate.
  unfold getProp in Hget. cbn [nullish ownEntries] in Hget.
  destruct (lookup props "fields") as [f|]; [|reflexivity].
  injection Hget as ->. cbn [option_map]. now rewrite Ht, Hm.
Qed.

Lemma sameOriginal_trans n1 n2 n3 :
  sameOriginal n1 n2 -> sameOriginal n2 n3 -> sameOriginal n1 n3.
Proof. intros H12 H23 name copy. now rewrite H23, H12. Qed.

Lemma resolveField_metadata_object sp o f k v d m :
  isObject (resolveField sp o f k v d m).(outMetadata) = isObject m.
Proof.
  rewrite resolveField_eq. unfold resolveFieldBody.
  assert (Hchildren : forall run, isObject (onChildren k run d m).(outMetadata) = isObject m).
  { intros run. unfold onChildren.
    destruct (getProp d k); [|reflexivity]. destruct (getProp m k); [|reflexivity].
    apply isObject_writeBack. }
  destruct (notANamespaceGuard _ _); [reflexivity|].
  destruct (unknownKindGuard _ _); [reflexivity|].
  destruct (has (fields sp)); [apply Hchildren|].
  destruct (has (entryFields sp)); [apply Hchildren|].
  unfold resolveLeaf.
  destruct (runFixup _ _ _ _); [|reflexivity].
  destruct (runValidate _ _ _); [|reflexivity].
  destruct (runMapType _ _ _); [|reflexivity].
  unfold commit. destruct (setProp d k _); [|reflexivity].
  destruct (getProp m k) as [node|]; [|reflexivity].
  destruct node; try reflexivity. apply isObject_writeBack.
Qed.

Lemma resolve_truthy_metadata o f spec input d m :
  truthy (resolve o f spec input d m).(outMetadata) = truthy m.
Proof.
  destruct (isObject m) eqn:Eo.
  - rewrite (truthy_object m Eo). apply truthy_object. rewrite <- Eo.
    rewrite resolve_forEach.
    apply (forEachEntry_preserves (resolveEntry o f spec)
             (fun _ m' => isObject m' = isObject m)); [|reflexivity].
    intros k a d' m' _ H. unfold resolveEntry. destruct (lookup spec k); [|exact H].
    now rewrite resolveField_metadata_object.
  - destruct (resolve_keepsNonObjects o f spec input d m) as (_ & H & _). now rewrite H.
Qed.

Lemma ensureRecordEntry_sameOriginal sp k d m :
  sameOriginal m (ensureRecordEntry sp k d m).(outMetadata).
Proof.
  unfold ensureRecordEntry, ensureRecordEntryBody.
  destruct (getProp d k) as [edk|]; [|apply sameOriginal_refl].
  destruct (negb (truthy edk)); [|apply sameOriginal_refl].
  destruct (initializeInMaybe _ _) as [[idata imeta]|]; [|apply sameOriginal_refl].
  destruct (setProp d k idata); [|apply sameOriginal_refl].
  destruct (getProp m "value") as [mv|]; [|apply sameOriginal_refl].
  destruct (setProp mv k imeta); [|apply sameOriginal_refl].
  apply sameOriginal_writeBack_value.
Qed.

Lemma resolveRecord_sameOriginal o f sp v d m :
  sameOriginal m (resolveRecord o f sp v d m).(outMetadata).
Proof.
  unfold resolveRecord, resolveRecordBody.
  destruct (negb _); [apply sameOriginal_refl|].
  apply (forEachEntry_preserves (resolveRecordEntryBody resolveField initializeField o f sp)
           (fun _ m' => sameOriginal m m')); [|apply sameOriginal_refl].
  intros k a d' m' _ H. apply (sameOriginal_trans _ _ _ H).
  unfold resolveRecordEntryBody.
  change (ensureRecordEntryBody initializeField sp k d' m') with (ensureRecordEntry sp k d' m').
  pose proof (ensureRecordEntry_sameOriginal sp k d' m') as Hensure.
  destruct (thrown (ensureRecordEntry sp k d' m')); [exact Hensure|].
  destruct (getProp _ k); [|exact Hensure].
  destruct (getProp _ "value"); [|exact Hensure].
  destruct (getProp _ k); [|exact Hensure].
  cbn [outMetadata]. apply (sameOriginal_trans _ _ _ Hensure).
  apply sameOriginal_writeBack_value.
Qed.

Lemma commit_sameOriginal k v d m copy :
  metadataToData (commit FromSet k v d m).(outMetadata) copy = metadataToData m copy.
Proof.
  unfold commit. destruct (setProp d k v); [|reflexivity].
  destruct (getProp m k) as [node|] eqn:Em; [|reflexivity].
  destruct node as [| | | | |p props]; try reflexivity. cbn [done outMetadata fromValue].
  apply (metadataToData_writeBack _ _ _ _ Em).
  apply sameOriginal_props; now rewrite !lookup_assign_other by discriminate.
Qed.

(** [metadataToData] reads the metadata after a change as it read them
    before. *)
Lemma resolveField_keepsOriginal sp :
  forall o k v d m copy,
    metadataToData (resolveField sp o FromSet k v d m).(outMetadata) copy
    = metadataToData m copy.
Proof.
  induction sp as [sp IHf _] using specifier_induction. intros o k v d m copy.
  rewrite resolveField_eq. unfold resolveFieldBody.
  destruct (notANamespaceGuard _ _); [reflexivity|].
  destruct (unknownKindGuard _ _); [reflexivity|].
  destruct (fields sp) as [fs|] eqn:Hfs; cbn [has].
  - unfold onChildren. destruct (getProp d k) as [dk|]; [|reflexivity].
    destruct (getProp m k) as [node|] eqn:Em; [|reflexivity]. cbn [outMetadata].
    apply (metadataToData_writeBack _ _ _ _ Em).
    unfold resolveNamespaceBody. rewrite Hfs.
    destruct (_ && _ && _); [apply sameOriginal_refl|].
    destruct (match shorthand sp with Some _ => _ | None => _ end) as [longhand|];
      [|apply sameOriginal_refl].
    destruct (getProp node "fields") as [mf|] eqn:Emf; [|apply sameOriginal_refl].
    cbn [resolveInMaybe outMetadata].
    change (resolveIn resolveField o FromSet fs longhand dk mf)
      with (resolve o FromSet fs longhand dk mf).
    apply (sameOriginal_writeBack_fields _ _ _ Emf); [apply resolve_truthy_metadata|].
    rewrite resolve_forEach.
    apply (forEachEntry_preserves (resolveEntry o FromSet fs)
             (fun _ m' => metadataToData m' emptyObject = metadataToData mf emptyObject));
      [|reflexivity].
    intros k' a d' m' _ H. unfold resolveEntry.
    destruct (lookup fs k') as [sp'|] eqn:El; [|exact H].
    rewrite <- H. specialize (IHf fs eq_refl). rewrite Forall_forall in IHf.
    apply (IHf (k', sp') (lookup_In _ _ _ El)).
  - destruct (has (entryFields sp)).
    + unfold onChildren. destruct (getProp d k) as [dk|]; [|reflexivity].
      destruct (getProp m k) as [node|] eqn:Em; [|reflexivity]. cbn [outMetadata].
      apply (metadataToData_writeBack _ _ _ _ Em). apply resolveRecord_sameOriginal.
    + unfold resolveLeaf.
      destruct (runFixup _ _ _ _); [|reflexivity].
      destruct (runValidate _ _ _); [|reflexivity].
      destruct (runMapType _ _ _); [|reflexivity].
      apply commit_sameOriginal.
Qed.

Lemma change_keepsOriginal m input : original (fst (change m input)) = original m.
Proof.
  unfold original, change. cbn [fst managerMetadata]. rewrite resolve_forEach.
  apply (forEachEntry_preserves (resolveEntry (managerOptions m) FromSet (managerFields m))
           (fun _ m' => metadataToData m' emptyObject
                        = metadataToData (managerMetadata m) emptyObject)); [|reflexivity].
  intros k a d' m' _ H. unfold resolveEntry.
  destruct (lookup (managerFields m) k) as [sp|]; [|exact H].
  rewrite <- H. apply resolveField_keepsOriginal.
Qed.

Lemma changes_keepsOriginal inputs : forall m, original (changes m inputs) = original m.
Proof.
  induction inputs as [|input r IH]; intros m; [reflexivity|].
  change (changes m (input :: r)) with (changes (fst (change m input)) r).
  now rewrite IH, change_keepsOriginal.
Qed.

(** [original()] answers the same whatever changes were made, whether they
    returned or threw: no change writes to the [initial] of a node or takes
    a node away.  (The embedding does not track an object that is both the
    [value] and the [initial] of a node, as the seed of a namespace
    initializer is; the statement is for specs without such initializers.) *)
Theorem changes_keep_the_original :
  forall spec options m0 inputs,
    seedlessSpec spec = true ->
    create spec options = Ok m0 ->
    original (changes m0 inputs) = original m0.
Proof.
  intros spec options m0 inputs _ _. revert m0.
  induction inputs as [|input r IH]; intros m0; [reflexivity|].
  change (changes m0 (input :: r)) with (changes (fst (change m0 input)) r).
  now rewrite IH, change_keepsOriginal.
Qed.

(** The record of the tests: [original()] after a change that made an entry
    is what it was before. *)
Lemma changes_keep_the_original_witness :
  let m0 := Examples.created Examples.leafAndRecordSpec noOptions in
  original (changes m0 [Examples.obj [("r", Examples.obj [("k", Examples.obj [("x", VNum 4)])])]])
  = Ok (Examples.obj [("a", VStr "foo"); ("r", Examples.obj [])]).
Proof.
  cbn zeta.
  rewrite (changes_keep_the_original Examples.leafAndRecordSpec noOptions
             (Examples.created Examples.leafAndRecordSpec noOptions)
             [Examples.obj [("r", Examples.obj [("k", Examples.obj [("x", VNum 4)])])]]
             eq_refl eq_refl).
  reflexivity.
Defined.

(** ** The original settings are the data [create] made *)

Lemma forOwnInto_app f l1 l2 copy :
  forOwnInto f (l1 ++ l2) copy =
  match forOwnInto f l1 copy with
  | Ok copy' => forOwnInto f l2 copy'
  | Err e => Err e
  end.
Proof.
  revert copy. induction l1 as [|[k a] r IH]; intros copy; cbn; [reflexivity|].
  destruct (f k a copy); [apply IH | reflexivity].
Qed.

Lemma assign_absent {A} (l : list (string * A)) k a :
  lookup l k = None -> assign l k a = (l ++ [(k, a)])%list.
Proof.
  induction l as [|[k0 a0] r IH]; cbn; [reflexivity|].
  destruct (String.eqb k0 k); [discriminate|]. intros H. now rewrite IH.
Qed.

Lemma replace_assign {A} (l : list (string * A)) k a b :
  replace (assign l k a) k b = assign l k b.
Proof.
  induction l as [|[k0 a0] r IH]; cbn.
  - now rewrite String.eqb_refl.
  - destruct (String.eqb k0 k) eqn:E; cbn; rewrite E; [reflexivity | now rewrite IH].
Qed.

Lemma lookup_absent {A} (l : list (string * A)) k : ~ In k (keys l) -> lookup l k = None.
Proof.
  induction l as [|[k0 a0] r IH]; cbn; [reflexivity|]. intros H.
  destruct (String.eqb_spec k0 k) as [->|_]; [exfalso; apply H; now left|].
  apply IH. intros Hin. apply H. now right.
Qed.

(** The metadata with one node more, read by [metadataToData]. *)
Lemma metadataToData_assign p props name node d :
  lookup props name = None ->
  metadataToData (VObj p props) emptyObject = Ok d ->
  metadataToData (VObj p (assign props name node)) emptyObject = originalEntry name node d.
Proof.
  intros Hl Hd. rewrite metadataToData_object in *.
  rewrite (assign_absent _ _ _ Hl), forOwnInto_app, Hd. cbn.
  now destruct (originalEntry name node d).
Qed.

Lemma leavesAndNamespaces_fields sp fs :
  leavesAndNamespaces sp = true -> sp.(fields) = Some fs ->
  sp.(initial) = None /\ nodupb (keys fs) = true
  /\ forallb (fun kv => leavesAndNamespaces (snd kv)) fs = true.
Proof.
  destruct sp as [init f e s fx vd mt]; cbn. intros H ->.
  apply andb_prop in H as [H H3]. apply andb_prop in H as [H1 H2].
  destruct init; [discriminate|]. auto.
Qed.

Lemma leavesAndNamespaces_leaf sp :
  leavesAndNamespaces sp = true -> sp.(fields) = None -> sp.(entryFields) = None.
Proof. destruct sp as [init f e s fx vd mt]; cbn. intros H ->. now destruct e. Qed.

Lemma initializeField_original sp :
  leavesAndNamespaces sp = true ->
  (forall fs, sp.(fields) = Some fs -> originalIsData fs) ->
  originalIsDataAt sp.
Proof.
  intros Hsp Hfields name p mp d Hl Hd Horig.
  assert (Hm : getProp (VObj p mp) name = Ok VUndefined).
  { unfold getProp. cbn [nullish ownEntries]. now rewrite Hl. }
  rewrite initializeField_eq. unfold initializeFieldBody.
  destruct (fields sp) as [fs|] eqn:Hfs; cbn [has].
  - destruct (leavesAndNamespaces_fields sp fs Hsp Hfs) as (Hinit & _ & _).
    unfold initializedNamespaceOf. rewrite Hinit, Hd. cbn [nullishOr nullish].
    destruct d as [| | | | |dpl dp]; try discriminate. cbn [setProp].
    rewrite Hm. cbn [nullishOr nullish setProp].
    rewrite !getProp_setProp_same with (o := VObj dpl dp) (v := emptyObject)
      by reflexivity.
    rewrite !getProp_setProp_same with (o := VObj p mp) (v := seedMetadata emptyObject)
      by reflexivity.
    change (getProp (seedMetadata emptyObject) "fields") with (Ok (A := value) emptyObject).
    cbn [doInitializeInMaybe].
    change (doInitializeIn initializeField fs emptyObject emptyObject)
      with (doInitialize fs emptyObject emptyObject).
    cbn [outData outMetadata thrown]. intros Hok.
    specialize (Hfields fs eq_refl Hok).
    destruct (doInitialize_keys fs emptyObject emptyObject Hok) as [_ [Hplain _]].
    cbn zeta in Hplain. cbn [writeBack]. rewrite !replace_assign.
    rewrite (metadataToData_assign _ _ _ _ _ Hl Horig).
    cbn [seedMetadata writeBack replace String.eqb Ascii.eqb Bool.eqb].
    unfold originalEntry. cbn [lookupWith String.eqb Ascii.eqb Bool.eqb].
    rewrite Hfields.
    replace (truthy (outMetadata (doInitialize fs emptyObject emptyObject))) with true.
    + reflexivity.
    + symmetry. apply truthy_object.
      destruct (outMetadata (doInitialize fs emptyObject emptyObject)); try discriminate Hplain.
      reflexivity.
  - rewrite (leavesAndNamespaces_leaf sp Hsp Hfs). cbn [has].
    destruct (runInitializer sp name d) as [v0|]; [|discriminate].
    destruct (runMapType sp name v0) as [v|]; [|discriminate]. unfold commitInitial.
    destruct (setProp d name v) as [d1|] eqn:Ed1; [|discriminate].
    cbn [setProp done outData outMetadata]. intros _.
    rewrite (metadataToData_assign _ _ _ _ _ Hl Horig). exact Ed1.
Qed.

Lemma doInitialize_original (fs : Spec) :
  NoDup (keys fs) ->
  Forall (fun kv => originalIsDataAt (snd kv)) fs ->
  originalIsData fs.
Proof.
  revert fs.
  refine (rev_ind (fun fs : Spec => NoDup (keys fs) ->
                     Forall (fun kv => originalIsDataAt (snd kv)) fs ->
                     originalIsData fs) _ _).
  { intros _ _ H. reflexivity. }
  intros [name sp] pre IH Hnd Hall. unfold originalIsData. intros Hok.
  destruct (thrown_doInitialize_at pre name sp [] emptyObject emptyObject Hok)
    as (Hbefore & Hhere & Heq).
  rewrite Heq. unfold doInitialize at 1 3, doInitializeIn. cbn [forEachEntry done outData outMetadata].
  unfold keys in Hnd. rewrite map_app in Hnd. cbn [map fst] in Hnd.
  assert (Hfresh : ~ In name (keys pre)).
  { intros Hin. apply NoDup_remove_2 in Hnd. apply Hnd. rewrite app_nil_r. exact Hin. }
  apply NoDup_remove_1 in Hnd. rewrite app_nil_r in Hnd.
  apply Forall_app in Hall as [Hpre Hsp]. inversion Hsp as [|? ? Hat _]; subst. cbn [snd] in Hat.
  specialize (IH Hnd Hpre Hbefore).
  destruct (doInitialize_keys pre emptyObject emptyObject Hbefore) as [_ [Hplain Hkeys]].
  cbn zeta in Hplain, Hkeys. cbn [emptyObject ownEntries keys map] in Hkeys.
  rewrite (fold_addKey_fresh (keys pre) []) in Hkeys by exact Hnd. cbn [app] in Hkeys.
  destruct (doInitialize_frame pre emptyObject emptyObject name Hfresh) as [Hd _].
  destruct (outMetadata (doInitialize pre emptyObject emptyObject)) as [| | | | |p mp] eqn:Em;
    try discriminate Hplain.
  cbn [ownEntries] in Hkeys.
  apply Hat; try assumption.
  apply lookup_absent. unfold keys in *. now rewrite Hkeys.
Qed.

Lemma leavesAndNamespaces_original sp : leavesAndNamespaces sp = true -> originalIsDataAt sp.
Proof.
  induction sp as [sp IHf _] using specifier_induction. intros Hsp.
  apply initializeField_original; [exact Hsp|]. intros fs Hfs.
  destruct (leavesAndNamespaces_fields sp fs Hsp Hfs) as (_ & Hnd & Hall).
  apply doInitialize_original; [now apply nodupb_NoDup|].
  specialize (IHf fs Hfs). rewrite Forall_forall in *. rewrite forallb_forall in Hall.
  intros kv Hin. apply (IHf kv Hin). now apply Hall.
Qed.




(** * The spec as written, and its validation in development *)

Section SpecifierSourceInduction.
Variable P : specifierSource -> Prop.
Hypothesis step :
    forall sp,
      (forall fs, sp.(sourceFields) = Some fs -> Forall (fun kv => P (snd kv)) fs) ->
      (forall efs, sp.(sourceEntryFields) = Some efs -> Forall (fun kv => P (snd kv)) efs) ->
      P sp.

Lemma specifierSource_induction (sp : specifierSource) : P sp.
Proof.
    revert sp. fix rec 1. intros sp.
    apply step; destruct sp as [i f e s fx vd mt]; simpl; intros l Hl.
    - destruct f as [fs|]; [|discriminate]. injection Hl as <-.
      induction fs as [|[k s0] r IH]; constructor; [apply rec | exact IH].
    - destruct e as [efs|]; [|discriminate]. injection Hl as <-.
      induction efs as [|[k s0] r IH]; constructor; [apply rec | exact IH].
Qed.
End SpecifierSourceInduction.

Lemma firstThrown_none {A E} (f : string -> A -> option E) l :
  firstThrown f l = None <-> forall k a, In (k, a) l -> f k a = None.
Proof.
  induction l as [|[k0 a0] r IH]; cbn.
  - split; [intros _ k a [] | reflexivity].
  - destruct (f k0 a0) eqn:E0.
    + split; [discriminate|]. intros H. rewrite <- E0. apply H. now left.
    + rewrite IH. split.
      * intros H k a [[= <- <-]|Hin]; [exact E0 | now apply H].
      * intros H k a Hin. apply H. now right.
Qed.

Lemma firstThrown_some {A E} (f : string -> A -> option E) l e :
  firstThrown f l = Some e -> exists k a, In (k, a) l /\ f k a = Some e.
Proof.
  induction l as [|[k0 a0] r IH]; cbn; [discriminate|].
  destruct (f k0 a0) eqn:E0.
  - intros [= <-]. exists k0, a0. split; [now left | exact E0].
  - intros H. destruct (IH H) as (k & a & Hin & Hf). exists k, a. split; [now right | exact Hf].
Qed.

Lemma validateSpecifier_eq name sp :
  validateSpecifier name sp =
  match sp.(sourceFields) with
  | Some fs => validateSpec fs
  | None =>
      match sp.(sourceEntryFields) with
      | Some efs => validateSpec efs
      | None =>
          match invalidMapType sp.(sourceMapType) with
          | Some got => Some (InvalidTypeMapper name got)
          | None => None
          end
      end
  end.
Proof. destruct sp as [i f e s fx vd mt]. reflexivity. Qed.

Lemma checkedLeaf_under spec k sp name leaf :
  In (k, sp) spec -> checkedLeaf [(k, sp)] name leaf -> checkedLeaf spec name leaf.
Proof.
  intros Hin H. inversion H; subst;
    match goal with Hhere : In _ [_] |- _ => destruct Hhere as [Hhere|[]]; inversion Hhere; subst end.
  - now apply CheckedHere.
  - eapply CheckedInNamespace; eassumption.
  - eapply CheckedInRecord; eassumption.
Qed.

Lemma validateSpecifier_accepts sp :
  forall name,
    (forall n leaf, checkedLeaf [(name, sp)] n leaf ->
                    invalidMapType leaf.(sourceMapType) = None) ->
    validateSpecifier name sp = None.
Proof.
  induction sp as [sp IHf IHe] using specifierSource_induction. intros name Hall.
  rewrite validateSpecifier_eq.
  destruct (sourceFields sp) as [fs|] eqn:Hfs; [|destruct (sourceEntryFields sp) as [efs|] eqn:Hefs].
  - apply firstThrown_none. intros k a Hin.
    specialize (IHf fs eq_refl). rewrite Forall_forall in IHf.
    apply (IHf (k, a) Hin). intros n leaf Hc. apply (Hall n leaf).
    apply CheckedInNamespace with (k := name) (namespace := sp) (fs := fs);
      [now left | exact Hfs |]. now apply checkedLeaf_under with (k := k) (sp := a).
  - apply firstThrown_none. intros k a Hin.
    specialize (IHe efs eq_refl). rewrite Forall_forall in IHe.
    apply (IHe (k, a) Hin). intros n leaf Hc. apply (Hall n leaf).
    apply CheckedInRecord with (k := name) (record := sp) (efs := efs);
      [now left | exact Hfs | exact Hefs |].
    now apply checkedLeaf_under with (k := k) (sp := a).
  - rewrite (Hall name sp); [reflexivity|]. apply CheckedHere; [now left | exact Hfs | exact Hefs].
Qed.

Lemma validateSpecifier_rejects sp :
  forall name n got,
    validateSpecifier name sp = Some (InvalidTypeMapper n got) ->
    exists leaf, checkedLeaf [(name, sp)] n leaf
                 /\ invalidMapType leaf.(sourceMapType) = Some got.
Proof.
  induction sp as [sp IHf IHe] using specifierSource_induction. intros name n got.
  rewrite validateSpecifier_eq.
  destruct (sourceFields sp) as [fs|] eqn:Hfs; [|destruct (sourceEntryFields sp) as [efs|] eqn:Hefs].
  - intros H. apply firstThrown_some in H as (k & a & Hin & Hf).
    specialize (IHf fs eq_refl). rewrite Forall_forall in IHf.
    destruct (IHf (k, a) Hin k n got Hf) as (leaf & Hc & Hbad).
    exists leaf. split; [|exact Hbad].
    apply CheckedInNamespace with (k := name) (namespace := sp) (fs := fs);
      [now left | exact Hfs |]. now apply checkedLeaf_under with (k := k) (sp := a).
  - intros H. apply firstThrown_some in H as (k & a & Hin & Hf).
    specialize (IHe efs eq_refl). rewrite Forall_forall in IHe.
    destruct (IHe (k, a) Hin k n got Hf) as (leaf & Hc & Hbad).
    exists leaf. split; [|exact Hbad].
    apply CheckedInRecord with (k := name) (record := sp) (efs := efs);
      [now left | exact Hfs | exact Hefs |].
    now apply checkedLeaf_under with (k := k) (sp := a).
  - destruct (invalidMapType (sourceMapType sp)) as [v|] eqn:Hbad; [|discriminate].
    intros [= <- <-]. exists sp. split; [|exact Hbad].
    apply CheckedHere; [now left | exact Hfs | exact Hefs].
Qed.

Lemma validateSpec_sound spec :
  validateSpec spec = None ->
  forall name leaf, checkedLeaf spec name leaf -> invalidMapType leaf.(sourceMapType) = None.
Proof.
  intros Hok name leaf Hc. induction Hc as [spec name leaf Hin Hf He
                                            |spec k ns fs name leaf Hin Hf Hc IH
                                            |spec k r efs name leaf Hin Hf He Hc IH].
  - pose proof (proj1 (firstThrown_none _ _) Hok name leaf Hin) as H.
    rewrite validateSpecifier_eq, Hf, He in H.
    now destruct (invalidMapType (sourceMapType leaf)).
  - apply IH. pose proof (proj1 (firstThrown_none _ _) Hok k ns Hin) as H.
    now rewrite validateSpecifier_eq, Hf in H.
  - apply IH. pose proof (proj1 (firstThrown_none _ _) Hok k r Hin) as H.
    now rewrite validateSpecifier_eq, Hf, He in H.
Qed.

(** In development ([NODE_ENV] other than ['production']) [create] first
    validates the spec, and throws when one of its leaves, at any depth, has
    a [mapType] that is neither [undefined] nor a function; the error names
    such a leaf and the value found.  The [mapType] of a namespace or of a
    record is not looked at, nor is any in production. *)
Theorem development_rejects_invalid_type_mappers :
  forall nodeEnv spec options,
    (forall e, createIn nodeEnv spec options = inl e
               <-> nodeEnv <> Some "production" /\ validateSpec spec = Some e)
    /\ (validateSpec spec = None
        <-> forall name leaf, checkedLeaf spec name leaf ->
                              invalidMapType leaf.(sourceMapType) = None)
    /\ (forall name got,
          validateSpec spec = Some (InvalidTypeMapper name got) ->
          exists leaf, checkedLeaf spec name leaf
                       /\ invalidMapType leaf.(sourceMapType) = Some got).
Proof.
  intros nodeEnv spec options. split; [|split].
  - intros e. unfold createIn, isDevelopment, isProduction.
    destruct nodeEnv as [s|]; cbn [negb].
    + destruct (String.eqb_spec s "production") as [->|Hne]; cbn [negb].
      * split; [discriminate | intros [H _]; now contradiction H].
      * destruct (validateSpec spec) as [e'|]; split; try discriminate.
        -- intros [= <-]. split; [congruence | reflexivity].
        -- now intros [_ [= <-]].
        -- now intros [_ H].
    + destruct (validateSpec spec) as [e'|]; split; try discriminate.
      * intros [= <-]. split; [discriminate | reflexivity].
      * now intros [_ [= <-]].
      * now intros [_ H].
  - split; [apply validateSpec_sound|]. intros Hall. apply firstThrown_none. intros k sp Hin.
    apply validateSpecifier_accepts. intros n leaf Hc. apply (Hall n leaf).
    now apply checkedLeaf_under with (k := k) (sp := sp).
  - intros name got H. apply firstThrown_some in H as (k & sp & Hin & Hf).
    destruct (validateSpecifier_rejects sp k name got Hf) as (leaf & Hc & Hbad).
    exists leaf. split; [|exact Hbad]. now apply checkedLeaf_under with (k := k) (sp := sp).
Qed.

(** A leaf whose [mapType] is [null], in a namespace: rejected in
    development; in production the manager is made, without a type mapper. *)
Example null_type_mapper :
  let leaf := {| sourceInitial := Examples.c (VNum 1); sourceFields := None;
                 sourceEntryFields := None; sourceShorthand := None; sourceFixup := None;
                 sourceValidate := None; sourceMapType := Some (MapTypeOther VNull) |} in
  let spec := [("a", {| sourceInitial := None; sourceFields := Some [("x", leaf)];
                        sourceEntryFields := None; sourceShorthand := None;
                        sourceFixup := None; sourceValidate := None;
                        sourceMapType := Some (MapTypeOther (VNum 3)) |})] in
  createIn None spec noOptions = inl (InvalidTypeMapper "x" VNull)
  /\ match createIn (Some "production") spec noOptions with
     | inr r => Examples.dataOf r = Ok (Examples.obj [("a", Examples.obj [("x", VNum 1)])])
     | inl _ => False
     end.
Proof. split; reflexivity. Qed.


(** * The data are the values of the metadata *)

Lemma mirrored_none dread d m : mirrored (fun _ _ => None) dread d m.
Proof. intros node H. discriminate H. Qed.

Lemma keepsMirror_throw read dread e d m : keepsMirror read dread d m (throw e d m).
Proof. intros H. exact H. Qed.

Lemma keepsMirror_ext read read' dread dread' d m o :
  (forall d m, read d m = read' d m) -> (forall d, dread d = dread' d) ->
  keepsMirror read' dread' d m o -> keepsMirror read dread d m o.
Proof.
  intros Hr Hd H Hm node Hnode. rewrite Hr in Hnode. rewrite Hd. apply H; [|exact Hnode].
  intros n Hn. rewrite <- Hd. apply Hm. now rewrite Hr.
Qed.

Lemma forEachEntry_keepsMirror {A} (f : string -> A -> value -> value -> outcome)
    read dread es :
  (forall k a d m, In (k, a) es -> keepsMirror read dread d m (f k a d m)) ->
  forall d m, keepsMirror read dread d m (forEachEntry f es d m).
Proof.
  intros H d m. unfold keepsMirror.
  apply (forEachEntry_preserves f (mirrored read dread)). intros k a d' m' Hin. now apply H.
Qed.

Lemma onChildren_keepsMirror k run inner dread d m :
  (forall d' m', keepsNonObjects d' m' (run d' m')) ->
  (forall d' m', keepsMirror inner dread d' m' (run d' m')) ->
  keepsMirror (atField k inner) (under k dread) d m (onChildren k run d m).
Proof.
  intros Hkeeps Hrun. unfold onChildren.
  destruct (getProp d k) as [dk|] eqn:Ed; [|apply keepsMirror_throw].
  destruct (getProp m k) as [mk|] eqn:Em; [|apply keepsMirror_throw].
  intros Hall node. cbn [outData outMetadata].
  destruct (Hkeeps dk mk) as (H1 & H2 & _). unfold atField, under.
  rewrite (getProp_writeBack_exact _ _ _ _ Ed H1), (getProp_writeBack_exact _ _ _ _ Em H2).
  apply (Hrun dk mk). intros n Hn.
  specialize (Hall n). unfold atField, under in Hall. rewrite Ed, Em in Hall. now apply Hall.
Qed.

Lemma resolveNamespace_keepsMirror o f sp fs v path inner dread d m :
  sp.(fields) = Some fs ->
  (forall input d' m', keepsMirror inner dread d' m' (resolve o f fs input d' m')) ->
  keepsMirror (atFields inner) dread d m (resolveNamespace o f sp v path d m).
Proof.
  intros Hfs Hinner. unfold resolveNamespace, resolveNamespaceBody. rewrite Hfs.
  destruct (_ && _ && _); [apply keepsMirror_throw|].
  destruct (match shorthand sp with Some _ => _ | None => _ end) as [longhand|];
    [|apply keepsMirror_throw].
  destruct (getProp m "fields") as [mf|] eqn:Em; [|apply keepsMirror_throw].
  cbn [resolveInMaybe]. change (resolveIn resolveField o f fs longhand d mf)
    with (resolve o f fs longhand d mf).
  intros Hall node. cbn [outData outMetadata]. unfold atFields.
  destruct (resolve_keepsNonObjects o f fs longhand d mf) as (_ & H2 & _).
  rewrite (getProp_writeBack_exact _ _ _ _ Em H2).
  apply (Hinner longhand d mf). intros n Hn. apply Hall. unfold atFields. now rewrite Em.
Qed.

Lemma commit_keepsMirror f k v d m :
  keepsMirror (atField k leafNode) (under k (@Ok value)) d m (commit f k v d m).
Proof.
  unfold commit. destruct (setProp d k v) as [d'|] eqn:Ed'; [|apply keepsMirror_throw].
  destruct (getProp m k) as [mk|] eqn:Em.
  2:{ intros _ node. cbn [throw outData outMetadata]. unfold atField. rewrite Em.
      now destruct (getProp d' k). }
  destruct mk as [| | | | |p props];
    try (intros _ node; cbn [throw outData outMetadata]; unfold atField, leafNode;
         rewrite Em; destruct (getProp d' k); discriminate).
  intros _ node. cbn [done outData outMetadata]. unfold atField, leafNode, under.
  rewrite (getProp_setProp_same _ _ _ _ Ed').
  rewrite (getProp_writeBack_exact _ _ _ _ Em) by discriminate.
  destruct (hasType _ _); [|discriminate]. intros [= <-].
  unfold getProp. cbn [nullish ownEntries].
  destruct f; rewrite ?lookup_assign_other by discriminate; now rewrite lookup_assign_same.
Qed.

Lemma resolveLeaf_keepsMirror o f sp k v d m :
  keepsMirror (atField k leafNode) (under k (@Ok value)) d m (resolveLeaf o f sp k v d m).
Proof.
  unfold resolveLeaf.
  destruct (runFixup _ _ _ _); [|apply keepsMirror_throw].
  destruct (runValidate _ _ _); [|apply keepsMirror_throw].
  destruct (runMapType _ _ _); [|apply keepsMirror_throw].
  apply commit_keepsMirror.
Qed.

Lemma hasType_nonObject t m : isObject m = false -> hasType t m = false.
Proof. destruct m; try reflexivity. discriminate. Qed.

(** Metadata that are not an object hold no leaf. *)
Lemma leafAt_nonObject path : forall spec d m,
  isObject m = false -> leafAt spec d m path = None.
Proof.
  induction path as [|name rest IH]; intros spec d m Hm; [reflexivity|].
  rewrite leafAt_cons. destruct (lookup spec name) as [sp|]; [|reflexivity].
  assert (Hat : forall inner : value -> value -> option value,
             (forall dn mn, isObject mn = false -> inner dn mn = None) ->
             atField name inner d m = None).
  { intros inner Hinner. unfold atField.
    destruct (getProp d name) as [dn|]; [|reflexivity].
    destruct (getProp m name) as [mn|] eqn:Em; [|reflexivity].
    apply Hinner. exact (getProp_nonObject _ _ _ Hm Em). }
  destruct (fields sp) as [fs|]; [|destruct (entryFields sp) as [efs|]].
  - apply Hat. intros dn mn Hmn. unfold atFields.
    destruct (getProp mn "fields") as [mf|] eqn:Emf; [|reflexivity].
    apply IH. exact (getProp_nonObject _ _ _ Hmn Emf).
  - destruct rest as [|key rest']; [reflexivity|]. apply Hat. intros dn mn Hmn.
    unfold atEntry. rewrite (hasType_nonObject _ _ Hmn).
    destruct (getProp dn key); [|reflexivity].
    destruct (getProp mn "value") as [mv|]; [|reflexivity].
    destruct (getProp mv key); reflexivity.
  - destruct rest; [|reflexivity]. apply Hat. intros dn mn Hmn.
    unfold leafNode. now rewrite (hasType_nonObject _ _ Hmn).
Qed.

Lemma ensureRecordEntry_keepsMirror sp efs key inner dread k d m :
  sp.(entryFields) = Some efs ->
  (forall d' x, isObject x = false -> inner d' x = None) ->
  (forall initialData initialMetadata,
      initialize efs = Ok (initialData, initialMetadata) ->
      mirrored inner dread initialData initialMetadata) ->
  keepsMirror (atEntry key inner) (under key dread) d m (ensureRecordEntry sp k d m).
Proof.
  intros Hefs Hnone Hfresh. unfold ensureRecordEntry, ensureRecordEntryBody. rewrite Hefs.
  change (initializeInMaybe initializeField (Some efs)) with (initialize efs).
  destruct (getProp d k) as [edk|] eqn:Edk; [|apply keepsMirror_throw].
  destruct (negb (truthy edk)) eqn:Et; [|intros Hall; exact Hall].
  destruct (initialize efs) as [[idata imeta]|] eqn:Einit; [|apply keepsMirror_throw].
  destruct (setProp d k idata) as [d'|] eqn:Ed'; [|apply keepsMirror_throw].
  assert (Hother : k <> key ->
            forall m', getProp m' "value" = getProp m "value" ->
                       hasType "record" m' = hasType "record" m ->
                       mirrored (atEntry key inner) (under key dread) d m ->
                       mirrored (atEntry key inner) (under key dread) d' m').
  { intros Hne m' Hv Hty Hall node. unfold atEntry, under.
    rewrite (getProp_setProp_other _ _ key _ _ Ed' Hne), Hv, Hty.
    intros Hnode. specialize (Hall node). unfold atEntry, under in Hall. now apply Hall. }
  destruct (getProp m "value") as [mv|] eqn:Emv.
  2:{ intros _ node. cbn [throw outData outMetadata]. unfold atEntry. rewrite Emv.
      now destruct (getProp d' key). }
  destruct (setProp mv k imeta) as [mv'|] eqn:Emv'.
  - intros Hall node. cbn [done outData outMetadata]. unfold atEntry, under.
    destruct (isObject_setProp _ _ _ _ Emv') as [Hmv _].
    rewrite (getProp_writeBack_exact _ _ _ mv' Emv) by congruence.
    rewrite hasType_writeBack_value.
    destruct (String.eqb_spec k key) as [->|Hne].
    + rewrite (getProp_setProp_same _ _ _ _ Ed'), (getProp_setProp_same _ _ _ _ Emv').
      destruct (_ && _); [|discriminate]. now apply Hfresh.
    + rewrite (getProp_setProp_other _ _ key _ _ Ed' Hne).
      rewrite (getProp_setProp_other _ _ key _ _ Emv' Hne).
      intros Hnode. specialize (Hall node). unfold atEntry, under in Hall. rewrite Emv in Hall.
      now apply Hall.
  - destruct (String.eqb_spec k key) as [->|Hne].
    + intros _ node. cbn [throw outData outMetadata].
      unfold atEntry. rewrite (getProp_setProp_same _ _ _ _ Ed'), Emv.
      destruct (getProp mv key) as [x|] eqn:Ex; [|discriminate].
      assert (Hmv : isObject mv = false).
      { destruct mv; try reflexivity. discriminate Emv'. }
      rewrite (Hnone idata x (getProp_nonObject _ _ _ Hmv Ex)). now destruct (_ && _).
    + intros Hall. cbn [throw outData outMetadata].
      apply Hother; [exact Hne | exact Emv | reflexivity | exact Hall].
Qed.

Lemma resolveRecordEntry_keepsMirror o f sp efs key inner dread k v d m :
  sp.(entryFields) = Some efs ->
  (forall d' x, isObject x = false -> inner d' x = None) ->
  (forall initialData initialMetadata,
      initialize efs = Ok (initialData, initialMetadata) ->
      mirrored inner dread initialData initialMetadata) ->
  (forall input d' m', keepsMirror inner dread d' m' (resolve o f efs input d' m')) ->
  keepsMirror (atEntry key inner) (under key dread) d m (resolveRecordEntry o f sp k v d m).
Proof.
  intros Hefs Hnone Hfresh Hinner.
  unfold resolveRecordEntry, resolveRecordEntryBody.
  change (ensureRecordEntryBody initializeField sp k d m) with (ensureRecordEntry sp k d m).
  pose proof (ensureRecordEntry_keepsMirror sp efs key inner dread k d m Hefs Hnone Hfresh)
    as Hensure.
  destruct (thrown (ensureRecordEntry sp k d m)); [exact Hensure|].
  set (d1 := outData (ensureRecordEntry sp k d m)) in *.
  set (m1 := outMetadata (ensureRecordEntry sp k d m)) in *.
  destruct (getProp d1 k) as [edk|] eqn:Edk; [|exact Hensure].
  destruct (getProp m1 "value") as [mv|] eqn:Emv; [|exact Hensure].
  destruct (getProp mv k) as [emk|] eqn:Eemk; [|exact Hensure].
  rewrite Hefs. cbn [resolveInMaybe].
  change (resolveIn resolveField o f efs v edk emk) with (resolve o f efs v edk emk).
  destruct (resolve_keepsNonObjects o f efs v edk emk) as (K1 & K2 & K3).
  intros Hall. specialize (Hensure Hall). cbn [outData outMetadata].
  assert (Hvalue : getProp (writeBack m1 "value"
                              (writeBack mv k (outMetadata (resolve o f efs v edk emk))))
                           "value"
                   = Ok (writeBack mv k (outMetadata (resolve o f efs v edk emk)))).
  { apply (getProp_writeBack_exact _ _ _ _ Emv). apply writeBack_nonObject. }
  intros node. unfold atEntry, under. rewrite Hvalue, hasType_writeBack_value.
  destruct (String.eqb_spec k key) as [->|Hne].
  - rewrite (getProp_writeBack_exact _ _ _ _ Edk K1), (getProp_writeBack_exact _ _ _ _ Eemk K2).
    destruct (hasType "record" m1) eqn:Ety; [|discriminate]. cbn [andb].
    destruct (truthy (outData (resolve o f efs v edk emk))) eqn:Et'; [|discriminate].
    assert (Et : truthy edk = true).
    { destruct (isObject edk) eqn:Eo; [now apply truthy_object|]. now rewrite <- (K1 eq_refl). }
    apply (Hinner v edk emk). intros n Hn. specialize (Hensure n).
    unfold atEntry, under in Hensure. fold d1 m1 in Hensure.
    rewrite Edk, Emv, Eemk, Ety, Et in Hensure.
    now apply Hensure.
  - rewrite !getProp_writeBack_other by exact Hne. intros Hnode. specialize (Hensure node).
    unfold atEntry, under in Hensure. fold d1 m1 in Hensure. rewrite Emv in Hensure.
    now apply Hensure.
Qed.

Lemma resolveRecord_keepsMirror o f sp efs key inner dread v d m :
  sp.(entryFields) = Some efs ->
  (forall d' x, isObject x = false -> inner d' x = None) ->
  (forall initialData initialMetadata,
      initialize efs = Ok (initialData, initialMetadata) ->
      mirrored inner dread initialData initialMetadata) ->
  (forall input d' m', keepsMirror inner dread d' m' (resolve o f efs input d' m')) ->
  keepsMirror (atEntry key inner) (under key dread) d m (resolveRecord o f sp v d m).
Proof.
  intros Hefs Hnone Hfresh Hinner. unfold resolveRecord, resolveRecordBody.
  destruct (negb _); [apply keepsMirror_throw|].
  apply forEachEntry_keepsMirror. intros k a d' m' _.
  now apply resolveRecordEntry_keepsMirror with (efs := efs).
Qed.

Lemma mirrored_ext read read' dread dread' d m :
  (forall d m, read d m = read' d m) -> (forall d, dread d = dread' d) ->
  mirrored read' dread' d m -> mirrored read dread d m.
Proof.
  intros Hr Hd H node Hnode. rewrite Hr in Hnode. rewrite Hd. now apply H.
Qed.

Lemma mirrored_atField_ext k inner dread d m d' m' :
  getProp d' k = getProp d k -> getProp m' k = getProp m k ->
  mirrored (atField k inner) (under k dread) d m ->
  mirrored (atField k inner) (under k dread) d' m'.
Proof.
  intros Hd Hm H node. unfold atField, under. rewrite Hd, Hm. intros Hnode.
  specialize (H node). unfold atField, under in H. now apply H.
Qed.

(** One level of the spec tree, given the levels below. *)
Section MirrorStep.
Variable n : nat.
Hypothesis initialized :
  forall path : list string, List.length path <= n ->
  forall spec d m, distinctKeysSpec spec = true -> seedState m ->
    (doInitialize spec d m).(thrown) = None ->
    mirrored (fun d m => leafAt spec d m path) (fun d => getPath d path)
             (doInitialize spec d m).(outData) (doInitialize spec d m).(outMetadata).
Hypothesis resolved :
  forall path : list string, List.length path <= n ->
  forall o f spec input d m, distinctKeysSpec spec = true ->
    keepsMirror (fun d m => leafAt spec d m path) (fun d => getPath d path) d m
                (resolve o f spec input d m).

Lemma initialize_mirror efs rest initialData initialMetadata :
  List.length rest <= n -> distinctKeysSpec efs = true ->
  initialize efs = Ok (initialData, initialMetadata) ->
  mirrored (fun d m => leafAt efs d m rest) (fun d => getPath d rest)
           initialData initialMetadata.
Proof.
  intros Hlen Hdistinct Einit.
  unfold initialize, initializeInMaybe in Einit. cbn [doInitializeInMaybe] in Einit.
  change (doInitializeIn initializeField efs emptyObject emptyObject)
    with (doInitialize efs emptyObject emptyObject) in Einit.
  destruct (thrown (doInitialize efs emptyObject emptyObject)) eqn:Et; [discriminate|].
  injection Einit as <- <-.
  apply (initialized rest Hlen efs _ _ Hdistinct seedState_empty Et).
Qed.

Lemma initializeField_leaf_mirror sp name d m :
  sp.(fields) = None -> sp.(entryFields) = None ->
  (initializeField sp name d m).(thrown) = None ->
  mirrored (atField name leafNode) (under name (@Ok value))
           (initializeField sp name d m).(outData)
           (initializeField sp name d m).(outMetadata).
Proof.
  intros Hfs Hefs. rewrite initializeField_eq. unfold initializeFieldBody.
  rewrite Hfs, Hefs. cbn [has].
  destruct (runInitializer sp name d); [|discriminate].
  destruct (runMapType sp name _) as [v|]; [|discriminate].
  unfold commitInitial.
  destruct (setProp d name v) as [d1|] eqn:Ed; [|discriminate].
  destruct (setProp m name _) as [m1|] eqn:Em; [|discriminate].
  intros _ node. cbn [done outData outMetadata]. unfold atField, leafNode, under.
  rewrite (getProp_setProp_same _ _ _ _ Ed), (getProp_setProp_same _ _ _ _ Em).
  cbn. now intros [= <-].
Qed.

Lemma initializeField_namespace_mirror sp fs name rest d m :
  List.length rest <= n ->
  sp.(fields) = Some fs -> distinctKeysSpec fs = true ->
  (getProp m name = Ok VUndefined \/ exists v, getProp m name = Ok (seedNode v)) ->
  (initializeField sp name d m).(thrown) = None ->
  mirrored (atField name (atFields (fun d mf => leafAt fs d mf rest)))
           (under name (fun d => getPath d rest))
           (initializeField sp name d m).(outData)
           (initializeField sp name d m).(outMetadata).
Proof.
  intros Hlen Hfs Hdistinct Hseed. rewrite initializeField_eq. unfold initializeFieldBody.
  rewrite Hfs. cbn [has doInitializeInMaybe].
  destruct (initializedNamespaceOf sp) as [ns|]; [|discriminate].
  destruct (getProp d name) as [ed|]; [|discriminate].
  destruct (setProp d name _) as [d1|] eqn:Ed1; [|discriminate].
  destruct (getProp m name) as [em|] eqn:Em; [|discriminate].
  destruct (setProp m name _) as [m1|] eqn:Em1; [|discriminate].
  rewrite (getProp_setProp_same _ _ _ _ Ed1), (getProp_setProp_same _ _ _ _ Em1).
  set (nd := nullishOr ed ns). set (nm := nullishOr em (seedMetadata ns)).
  destruct (getProp nm "fields") as [mf|] eqn:Emf; [|discriminate].
  change (doInitializeIn initializeField fs nd mf) with (doInitialize fs nd mf).
  cbn [outData outMetadata thrown]. intros Hok node.
  destruct (doInitialize_keepsNonObjects fs nd mf) as (K1 & K2 & _).
  unfold atField, atFields, under.
  rewrite (getProp_writeBack_exact _ _ _ _ (getProp_setProp_same _ _ _ _ Ed1) K1).
  rewrite (getProp_writeBack_exact _ _ _ (writeBack nm "fields" _)
             (getProp_setProp_same _ _ _ _ Em1)) by apply writeBack_nonObject.
  rewrite (getProp_writeBack_exact _ _ _ _ Emf K2).
  destruct Hseed as [Hundef|[v Hv]].
  - apply (initialized rest Hlen fs nd mf Hdistinct); [|exact Hok].
    assert (em = VUndefined) by congruence. subst em. cbn in Emf.
    injection Emf as <-. apply seedState_mapValues.
  - assert (em = seedNode v) by congruence. subst em. cbn in Emf.
    injection Emf as <-. rewrite (K2 eq_refl).
    now rewrite leafAt_no_metadata.
Qed.

Lemma initializeRecordEntries_mirror sp efs key rest initialRecord :
  List.length rest <= n ->
  sp.(entryFields) = Some efs -> distinctKeysSpec efs = true ->
  let o := initializeRecordEntries resolveField initializeField sp initialRecord in
  o.(thrown) = None ->
  mirrored (atField key (fun ed em => leafAt efs ed em rest))
           (under key (fun d => getPath d rest)) o.(outData) o.(outMetadata).
Proof.
  intros Hlen Hefs Hdistinct o Hok. subst o.
  revert Hok. unfold initializeRecordEntries. rewrite Hefs. cbn [resolveInMaybe].
  change (initializeInMaybe initializeField (Some efs)) with (initialize efs).
  intros Hok.
  refine (forEachEntry_keeps _
            (mirrored (atField key (fun ed em => leafAt efs ed em rest))
                      (under key (fun d => getPath d rest)))
            _ _ emptyObject emptyObject Hok _).
  - intros k v d m _.
    destruct (initialize efs) as [[idata imeta]|] eqn:Einit; [|discriminate].
    change (resolveIn resolveField noOptions FromInitial efs v idata imeta)
      with (resolve noOptions FromInitial efs v idata imeta).
    pose proof (resolved rest Hlen noOptions FromInitial efs v idata imeta Hdistinct
                  (initialize_mirror efs rest idata imeta Hlen Hdistinct Einit)) as Hres.
    destruct (thrown (resolve noOptions FromInitial efs v idata imeta)); [discriminate|].
    destruct (setProp d k _) as [d1|] eqn:Ed1; [|discriminate].
    destruct (setProp m k _) as [m1|] eqn:Em1; [|discriminate].
    intros _ Hall node. cbn [done outData outMetadata]. unfold atField, under.
    destruct (String.eqb_spec k key) as [->|Hne].
    + rewrite (getProp_setProp_same _ _ _ _ Ed1), (getProp_setProp_same _ _ _ _ Em1).
      apply Hres.
    + rewrite (getProp_setProp_other _ _ key _ _ Ed1 Hne).
      rewrite (getProp_setProp_other _ _ key _ _ Em1 Hne).
      specialize (Hall node). unfold atField, under in Hall. exact Hall.
  - intros node. unfold atField. cbn. now rewrite leafAt_no_metadata.
Qed.

Lemma initializeField_record_mirror sp efs name key rest d m :
  List.length rest <= n ->
  sp.(fields) = None -> sp.(entryFields) = Some efs -> distinctKeysSpec efs = true ->
  (getProp m name = Ok VUndefined \/ exists v, getProp m name = Ok (seedNode v)) ->
  (initializeField sp name d m).(thrown) = None ->
  mirrored (atField name (atEntry key (fun ed em => leafAt efs ed em rest)))
           (under name (under key (fun d => getPath d rest)))
           (initializeField sp name d m).(outData)
           (initializeField sp name d m).(outMetadata).
Proof.
  intros Hlen Hfs Hefs Hdistinct Hseed. rewrite initializeField_eq. unfold initializeFieldBody.
  rewrite Hfs, Hefs. cbn [has].
  destruct (initialRecordOf sp name d) as [initialRecord|]; [|discriminate].
  pose proof (initializeRecordEntries_mirror sp efs key rest initialRecord Hlen Hefs Hdistinct)
    as Hentries. cbn zeta in Hentries.
  destruct (thrown (initializeRecordEntries _ _ _ _)); [discriminate|].
  specialize (Hentries eq_refl).
  destruct (setProp d name _) as [d1|] eqn:Ed1; [|discriminate].
  destruct (getProp m name) as [em|] eqn:Em; [|discriminate].
  destruct (setProp m name _) as [m1|] eqn:Em1; [|discriminate].
  intros _ node. cbn [done outData outMetadata]. unfold atField at 1, under at 1.
  rewrite (getProp_setProp_same _ _ _ _ Ed1), (getProp_setProp_same _ _ _ _ Em1).
  destruct Hseed as [Hundef|[v Hv]].
  - assert (em = VUndefined) by congruence. subst em. cbn [nullishOr nullish].
    unfold atEntry. rewrite getProp_initMetadataRecord_value.
    intros Hnode. apply Hentries. unfold atField. revert Hnode.
    destruct (getProp _ key); [|discriminate].
    destruct (getProp _ key); [|discriminate].
    destruct (_ && _); [|discriminate]. auto.
  - assert (em = seedNode v) by congruence. subst em. cbn [nullishOr nullish seedNode].
    unfold atEntry.
    destruct (getProp _ key); [|discriminate].
    destruct (getProp _ "value"); [|discriminate].
    destruct (getProp _ key); [|discriminate]. discriminate.
Qed.

End MirrorStep.

(** After [doInitialize] the data are the values of the leaves, and every
    call of [resolve] keeps them so, whether it returns or throws. *)
Lemma data_mirror_metadata n :
  (forall path : list string, List.length path <= n ->
   forall spec d m, distinctKeysSpec spec = true -> seedState m ->
     (doInitialize spec d m).(thrown) = None ->
     mirrored (fun d m => leafAt spec d m path) (fun d => getPath d path)
              (doInitialize spec d m).(outData) (doInitialize spec d m).(outMetadata))
  /\ (forall path : list string, List.length path <= n ->
      forall o f spec input d m, distinctKeysSpec spec = true ->
        keepsMirror (fun d m => leafAt spec d m path) (fun d => getPath d path) d m
                    (resolve o f spec input d m)).
Proof.
  induction n as [|n [IHB IHR]].
  { split; intros [|name rest] Hlen; try (cbn in Hlen; lia); intros.
    - apply mirrored_none.
    - intros _. apply mirrored_none. }
  split; intros [|name rest] Hlen; cbn [List.length] in Hlen.
  - intros. apply mirrored_none.
  - intros spec d m Hdistinct Hseed Hok.
    eapply mirrored_ext; [intros; apply leafAt_cons | reflexivity |].
    destruct (lookup spec name) as [sp|] eqn:El; [|apply mirrored_none].
    destruct (distinctKeysSpec_split _ _ _ Hdistinct El) as (pre & post & -> & Hpre & Hpost).
    assert (Hsp : distinctKeys sp = true).
    { apply (distinctKeysSpec_In _ name _ Hdistinct). apply in_or_app. right. now left. }
    destruct (thrown_doInitialize_at pre name sp post d m Hok) as (Hbefore & Hhere & ->).
    set (before := doInitialize pre d m) in *.
    set (here := initializeField sp name (outData before) (outMetadata before)) in *.
    destruct (doInitialize_frame post (outData here) (outMetadata here) name Hpost) as [Fd Fm].
    assert (Hat : getProp (outMetadata before) name = Ok VUndefined
                  \/ exists v, getProp (outMetadata before) name = Ok (seedNode v)).
    { destruct (doInitialize_frame pre d m name Hpre) as [_ Gm]. fold before in Gm.
      rewrite Gm. apply Hseed. }
    destruct (fields sp) as [fs|] eqn:Hfs; [|destruct (entryFields sp) as [efs|] eqn:Hefs].
    + apply (mirrored_atField_ext _ _ _ _ _ _ _ Fd Fm).
      apply (initializeField_namespace_mirror n IHB sp fs name rest); auto; [lia|].
      now apply distinctKeys_fields with (sp := sp).
    + destruct rest as [|key rest']; [apply mirrored_none|]. cbn [List.length] in Hlen.
      apply (mirrored_atField_ext _ _ _ _ _ _ _ Fd Fm).
      apply (initializeField_record_mirror n IHB IHR sp efs name key rest'); auto; [lia|].
      now apply distinctKeys_entryFields with (sp := sp).
    + destruct rest as [|key rest']; [|apply mirrored_none].
      apply (mirrored_atField_ext _ _ _ _ _ _ _ Fd Fm).
      now apply initializeField_leaf_mirror.
  - intros. intros _. apply mirrored_none.
  - intros o f spec input d m Hdistinct.
    rewrite resolve_forEach. apply forEachEntry_keepsMirror. intros k v d' m' _.
    destruct (String.eqb_spec k name) as [->|Hne].
    2:{ intros Hall node Hnode.
        destruct (resolveEntry_framed o f spec k v d' m') as [Hd Hm].
        rewrite (leafAt_ext spec d' m' _ _ name rest (Hd name Hne) (Hm name Hne)) in Hnode.
        rewrite <- (Hall node Hnode). cbn [getPath]. now rewrite (Hd name Hne). }
    unfold resolveEntry.
    eapply keepsMirror_ext; [intros; apply leafAt_cons | reflexivity |].
    destruct (lookup spec name) as [sp|] eqn:El; [|apply keepsMirror_throw].
    assert (Hsp : distinctKeys sp = true).
    { apply (distinctKeysSpec_In _ name _ Hdistinct). now apply lookup_In. }
    rewrite resolveField_eq. unfold resolveFieldBody, notANamespaceGuard, unknownKindGuard.
    destruct (fields sp) as [fs|] eqn:Hfs; [|destruct (entryFields sp) as [efs|] eqn:Hefs].
    + cbn [has negb]. rewrite !andb_false_r.
      apply (onChildren_keepsMirror name _ _ (fun d => getPath d rest)).
      * intros. apply resolveNamespace_keepsNonObjects.
      * intros. apply resolveNamespace_keepsMirror with (fs := fs); [exact Hfs|].
        intros. apply IHR; [lia|]. now apply distinctKeys_fields with (sp := sp).
    + cbn [has negb]. rewrite !andb_false_r.
      destruct rest as [|key rest']; [intros _; apply mirrored_none|].
      cbn [List.length] in Hlen.
      pose proof (distinctKeys_entryFields _ _ Hsp Hefs) as Hdefs.
      apply (onChildren_keepsMirror name _ _ (under key (fun d => getPath d rest'))).
      * intros. apply resolveRecord_keepsNonObjects.
      * intros. apply resolveRecord_keepsMirror with (efs := efs); [exact Hefs| | |].
        -- intros. now apply leafAt_nonObject.
        -- intros idata imeta Einit.
           apply (initialize_mirror n IHB efs rest' idata imeta); [lia | exact Hdefs | exact Einit].
        -- intros. apply IHR; [lia | exact Hdefs].
    + cbn [has negb]. rewrite !andb_true_r.
      destruct rest as [|key rest']; [|intros _; apply mirrored_none].
      destruct (isPlainObject v); [apply keepsMirror_throw | apply resolveLeaf_keepsMirror].
Qed.

Lemma change_dataAreValues m input :
  distinctKeysSpec m.(managerFields) = true ->
  dataAreValues m -> dataAreValues (fst (change m input)).
Proof.
  intros Hdistinct H path. destruct (data_mirror_metadata (List.length path)) as [_ HR].
  apply (HR path (le_n _) (managerOptions m) FromSet (managerFields m) input
            (managerData m) (managerMetadata m) Hdistinct).
  intros node. apply H.
Qed.

Lemma changes_dataAreValues inputs : forall m,
  distinctKeysSpec m.(managerFields) = true ->
  dataAreValues m -> dataAreValues (changes m inputs).
Proof.
  induction inputs as [|input r IH]; intros m Hdistinct H; [exact H|].
  apply (IH (fst (change m input))); [exact Hdistinct|]. now apply change_dataAreValues.
Qed.




(** * Initializers that fail, and the seeds of a record *)

(** ** Initializers that fail *)

Lemma create_at (pre : Spec) name sp post options e :
  (doInitialize pre emptyObject emptyObject).(thrown) = None ->
  (forall d m, (initializeField sp name d m).(thrown) = Some e) ->
  create (pre ++ (name, sp) :: post)%list options = Err e.
Proof.
  intros Hpre Hhere. unfold create, initialize, initializeInMaybe. cbn [doInitializeInMaybe].
  change (doInitializeIn initializeField (pre ++ (name, sp) :: post)%list emptyObject emptyObject)
    with (doInitialize (pre ++ (name, sp) :: post)%list emptyObject emptyObject).
  rewrite doInitialize_at. cbn zeta. rewrite Hpre, Hhere. now rewrite Hhere.
Qed.

(** [create] throws the error of the first setting that fails to initialize;
    the settings before it were initialized, those after it are not looked
    at.  The exception of a leaf's or a record's initializer comes wrapped,
    naming the setting; that of a namespace's initializer comes as it was
    thrown.  An [initial] that is not a function (and not [undefined]) is
    reported for a leaf and for a record (unless it is falsy: a record then
    starts empty), and is a [TypeError] for a namespace (unless it is [null]
    or [undefined]). *)
Theorem create_throws_the_first_initializer_failure :
  forall (pre : Spec) name sp post options,
    (doInitialize pre emptyObject emptyObject).(thrown) = None ->
    let created := create (pre ++ (name, sp) :: post)%list options in
    (forall cause,
        sp.(initial) = Some (InitialFunction (Threw cause)) ->
        created = Err (if has sp.(fields) then Uncaught cause
                       else InitializerError name cause))
    /\ (forall v,
          sp.(initial) = Some (InitialStatic v) ->
          (sp.(fields) = None -> sp.(entryFields) = None -> v <> VUndefined ->
           created = Err (InvalidInitializerKind name v))
          /\ (sp.(fields) = None -> has sp.(entryFields) = true -> truthy v = true ->
              created = Err (InvalidInitializerKind name v))
          /\ (has sp.(fields) = true -> nullish v = false -> created = Err TypeError)).
Proof.
  intros pre name sp post options Hpre created. subst created. split.
  - intros cause Hinit. apply create_at; [exact Hpre|]. intros d m.
    rewrite initializeField_eq. unfold initializeFieldBody.
    destruct (has (fields sp)).
    + unfold initializedNamespaceOf. now rewrite Hinit.
    + destruct (has (entryFields sp)).
      * unfold initialRecordOf, runInitializer. now rewrite Hinit.
      * unfold runInitializer. now rewrite Hinit.
  - intros v Hinit. repeat split.
    + intros Hfs Hefs _. apply create_at; [exact Hpre|]. intros d m.
      rewrite initializeField_eq. unfold initializeFieldBody, runInitializer.
      now rewrite Hfs, Hefs, Hinit.
    + intros Hfs Hefs Hv. apply create_at; [exact Hpre|]. intros d m.
      rewrite initializeField_eq. unfold initializeFieldBody, initialRecordOf, runInitializer.
      now rewrite Hfs, Hefs, Hinit, Hv.
    + intros Hfs Hv. apply create_at; [exact Hpre|]. intros d m.
      rewrite initializeField_eq. unfold initializeFieldBody, initializedNamespaceOf.
      now rewrite Hfs, Hinit, Hv.
Qed.

(** After a leaf that initializes, a leaf whose initializer throws and one
    more leaf: the error is the second leaf's. *)
Lemma create_throws_the_first_initializer_failure_witness :
  create [("a", Examples.leaf (Examples.c (VNum 1)));
          ("b", Examples.leaf (Some (InitialFunction (Threw "boom"))));
          ("c", Examples.leaf (Some (InitialStatic (VNum 2))))] noOptions
  = Err (InitializerError "b" "boom").
Proof.
  destruct (create_throws_the_first_initializer_failure
              [("a", Examples.leaf (Examples.c (VNum 1)))] "b"
              (Examples.leaf (Some (InitialFunction (Threw "boom"))))
              [("c", Examples.leaf (Some (InitialStatic (VNum 2))))] noOptions eq_refl)
    as [H _].
  exact (H "boom" eq_refl).
Defined.

(** ** The seeds of a record *)

(** The seeds that resolve are added to the record being built. *)
Lemma initializeRecordEntries_before sp efs pre initialData initialMetadata :
  sp.(entryFields) = Some efs ->
  initialize efs = Ok (initialData, initialMetadata) ->
  (forall k entry, In (k, entry) pre ->
     (resolve noOptions FromInitial efs entry initialData initialMetadata).(thrown) = None) ->
  forall accData accMetadata,
    isObject accData = true -> isObject accMetadata = true ->
    let o := forEachEntry
               (fun k v accData accMetadata =>
                  try (initialData, initialMetadata) <-
                     initializeInMaybe initializeField sp.(entryFields)
                     from accData, accMetadata;
                  let r := resolveInMaybe resolveField noOptions FromInitial
                                          sp.(entryFields) v initialData initialMetadata in
                  match r.(thrown) with
                  | Some e => throw e accData accMetadata
                  | None =>
                      try accData' <- setProp accData k r.(outData)
                         from accData, accMetadata;
                      try accMetadata' <- setProp accMetadata k r.(outMetadata)
                         from accData', accMetadata;
                      done accData' accMetadata'
                  end)
               pre accData accMetadata in
    o.(thrown) = None /\ isObject o.(outData) = true /\ isObject o.(outMetadata) = true.
Proof.
  intros Hefs Hinit. rewrite Hefs.
  change (initializeInMaybe initializeField (Some efs)) with (initialize efs).
  rewrite Hinit. cbn [resolveInMaybe]. change (resolveIn resolveField) with resolve.
  induction pre as [|[k entry] rest IH]; intros Hpre accData accMetadata Hd Hm; cbv zeta.
  - now repeat split.
  - cbn [forEachEntry]. cbv zeta.
    rewrite (Hpre k entry (or_introl eq_refl)).
    destruct accData as [| | | | |dplain dprops]; try discriminate Hd.
    destruct accMetadata as [| | | | |mplain mprops]; try discriminate Hm.
    cbn [setProp done thrown outData outMetadata].
    apply IH; [intros k' entry' Hin; apply (Hpre k' entry'); now right
              | reflexivity | reflexivity].
Qed.

Lemma resolve_refused options metadataFrom efs eplain epre x s epost leaf check fixed messages
    data metadata :
  (resolve options metadataFrom efs (VObj eplain epre) data metadata).(thrown) = None ->
  lookup efs x = Some leaf ->
  leaf.(fields) = None -> leaf.(entryFields) = None ->
  isPlainObject s = false ->
  runFixup options leaf x s = Ok fixed ->
  leaf.(validate) = Some check -> check fixed = Returned (Some messages) ->
  (resolve options metadataFrom efs (VObj eplain (epre ++ (x, s) :: epost)) data metadata).(thrown)
  = Some (ValidationFailed x fixed messages).
Proof.
  intros Hbefore Hleaf Hlf Hle Hs Hfix Hval Hcheck.
  rewrite resolve_at. cbv zeta. rewrite Hbefore.
  unfold resolveEntry. rewrite Hleaf, resolveField_eq.
  unfold resolveFieldBody, notANamespaceGuard, unknownKindGuard.
  rewrite Hlf, Hle, Hs. cbn [has negb andb].
  unfold resolveLeaf, runValidate. now rewrite Hfix, Hval, Hcheck.
Qed.

(** The entries a record's initializer returns are resolved like inputs, each
    on what [initialize(entryFields)] makes, in the order of the seed: the
    first error of a resolution is thrown by the initialization, the data
    and the metadata left as they were.  So it is for the validation error
    of an entry field, whichever the entry and the field: the fields of the
    entry before it resolved, and its validator refuses the value its fixup
    left.  (The initial value of a leaf is not validated.) *)
Theorem record_seeds_are_validated :
  forall sp efs name d m plain pre k entry post initialData initialMetadata,
    sp.(fields) = None -> sp.(entryFields) = Some efs ->
    sp.(initial)
      = Some (InitialFunction (Returned (VObj plain (pre ++ (k, entry) :: post)))) ->
    initialize efs = Ok (initialData, initialMetadata) ->
    (forall k' entry', In (k', entry') pre ->
       (resolve noOptions FromInitial efs entry' initialData initialMetadata).(thrown) = None) ->
    (forall e,
       (resolve noOptions FromInitial efs entry initialData initialMetadata).(thrown) = Some e ->
       initializeField sp name d m = throw e d m)
    /\ (forall eplain epre x s epost leaf check fixed messages,
          entry = VObj eplain (epre ++ (x, s) :: epost) ->
          (resolve noOptions FromInitial efs (VObj eplain epre)
                   initialData initialMetadata).(thrown) = None ->
          lookup efs x = Some leaf ->
          leaf.(fields) = None -> leaf.(entryFields) = None ->
          isPlainObject s = false ->
          runFixup noOptions leaf x s = Ok fixed ->
          leaf.(validate) = Some check -> check fixed = Returned (Some messages) ->
          initializeField sp name d m = throw (ValidationFailed x fixed messages) d m).
Proof.
  intros sp efs name d m plain pre k entry post idata imeta Hfs Hefs Hinit Hentry Hpre.
  assert (Hany : forall e,
             (resolve noOptions FromInitial efs entry idata imeta).(thrown) = Some e ->
             initializeField sp name d m = throw e d m).
  { intros e He. rewrite initializeField_eq.
    unfold initializeFieldBody, initialRecordOf, runInitializer.
    rewrite Hfs, Hinit. cbn [has]. rewrite Hefs at 1. cbn [has].
    unfold initializeRecordEntries. cbn [ownEntries]. rewrite forEachEntry_app. cbv zeta.
    destruct (initializeRecordEntries_before sp efs pre idata imeta Hefs Hentry Hpre
                emptyObject emptyObject eq_refl eq_refl) as (Hbefore & _ & _).
    cbv zeta in Hbefore. rewrite Hbefore.
    cbn [forEachEntry]. cbv zeta. rewrite Hefs.
    change (initializeInMaybe initializeField (Some efs)) with (initialize efs).
    rewrite Hentry. cbn [resolveInMaybe]. change (resolveIn resolveField) with resolve.
    rewrite He. reflexivity. }
  split; [exact Hany|].
  intros eplain epre x s epost leaf check fixed messages -> Hbefore Hleaf Hlf Hle Hs Hfix
         Hval Hcheck.
  apply Hany.
  now apply (resolve_refused noOptions FromInitial efs eplain epre x s epost leaf check).
Qed.

(** A record of entries [{ w, x }], [x] validated as in the tests, seeded
    with [{ j: { x: 'ok' }, k: { w: 1, x: 'bar' } }]: the field [x] of the
    entry [k] is refused. *)
Lemma record_seeds_are_validated_witness :
  create [("r", Examples.record [("w", Examples.leaf (Examples.c (VNum 0)));
                                 ("x", Examples.notBarLeaf)]
                  (Examples.c (Examples.obj
                                 [("j", Examples.obj [("x", VStr "ok")]);
                                  ("k", Examples.obj [("w", VNum 1); ("x", VStr "bar")])])))]
         noOptions
  = Err (ValidationFailed "x" (VStr "bar") ["Too long"]).
Proof.
  assert (Hpre : forall k' entry',
             In (k', entry') [("j", Examples.obj [("x", VStr "ok")])] ->
             (resolve noOptions FromInitial
                      [("w", Examples.leaf (Examples.c (VNum 0))); ("x", Examples.notBarLeaf)]
                      entry'
                      (Examples.obj [("w", VNum 0); ("x", VStr "foo")])
                      (Examples.obj [("w", initMetadataField (VNum 0));
                                     ("x", initMetadataField (VStr "foo"))])).(thrown) = None).
  { intros k' entry' [[= <- <-]|[]]. reflexivity. }
  unfold create, initialize, initializeInMaybe. cbn [doInitializeInMaybe].
  unfold doInitializeIn. cbn [forEachEntry].
  rewrite (proj2 (record_seeds_are_validated
             (Examples.record [("w", Examples.leaf (Examples.c (VNum 0)));
                               ("x", Examples.notBarLeaf)]
                (Examples.c (Examples.obj
                               [("j", Examples.obj [("x", VStr "ok")]);
                                ("k", Examples.obj [("w", VNum 1); ("x", VStr "bar")])])))
             [("w", Examples.leaf (Examples.c (VNum 0))); ("x", Examples.notBarLeaf)]
             "r" emptyObject emptyObject true
             [("j", Examples.obj [("x", VStr "ok")])] "k"
             (Examples.obj [("w", VNum 1); ("x", VStr "bar")]) []
             (Examples.obj [("w", VNum 0); ("x", VStr "foo")])
             (Examples.obj [("w", initMetadataField (VNum 0));
                            ("x", initMetadataField (VStr "foo"))])
             eq_refl eq_refl eq_refl eq_refl Hpre)
             true [("w", VNum 1)] "x" (VStr "bar") [] Examples.notBarLeaf
             Examples.validateNotBar (VStr "bar") ["Too long"]
             eq_refl eq_refl eq_refl eq_refl eq_refl eq_refl eq_refl eq_refl eq_refl).
  reflexivity.
Defined.

(** * The onFixup handler, and the entries a change names *)

(** ** The [onFixup] handler *)

Lemma runFixup_handler o o' sp k v :
  (forall info, handlerThrows o info = handlerThrows o' info) ->
  runFixup o sp k v = runFixup o' sp k v.
Proof.
  intros Hsame. unfold runFixup. destruct (fixup sp) as [fx|]; [|reflexivity].
  destruct (fx v) as [[r|]|c]; try reflexivity.
  specialize (Hsame {| before := v; after := fixedValue r; name := k;
                       messages := fixupMessages r |}).
  unfold handlerThrows in Hsame.
  destruct (onFixup o) as [h|], (onFixup o') as [h'|];
    repeat match goal with
           | H : context [match ?x with Returned _ => _ | Threw _ => _ end] |- _ =>
               destruct x eqn:?
           end; congruence.
Qed.

Lemma onChildren_ext k run run' d m :
  (forall d' m', run d' m' = run' d' m') -> onChildren k run d m = onChildren k run' d m.
Proof.
  intros H. unfold onChildren. destruct (getProp d k); [|reflexivity].
  destruct (getProp m k); [|reflexivity]. now rewrite H.
Qed.

Lemma resolveField_handler o o' :
  (forall info, handlerThrows o info = handlerThrows o' info) ->
  forall sp f k v d m, resolveField sp o f k v d m = resolveField sp o' f k v d m.
Proof.
  intros Hsame sp. induction sp as [sp IHf IHe] using specifier_induction.
  intros f k v d m. rewrite !resolveField_eq. unfold resolveFieldBody.
  destruct (notANamespaceGuard _ _); [reflexivity|].
  destruct (unknownKindGuard _ _); [reflexivity|].
  assert (Hresolve : forall fs, Forall (fun kv => forall f k v d m,
                                   resolveField (snd kv) o f k v d m
                                   = resolveField (snd kv) o' f k v d m) fs ->
                     forall f input d m,
                       resolveIn resolveField o f fs input d m
                       = resolveIn resolveField o' f fs input d m).
  { intros fs Hall f0 input d0 m0. unfold resolveIn. apply forEachEntry_ext.
    intros k0 a d1 m1 _. rewrite !lookupWith_lookup.
    destruct (lookup fs k0) as [sp0|] eqn:El; [|reflexivity]. cbn [option_map].
    rewrite Forall_forall in Hall. now rewrite (Hall (k0, sp0) (lookup_In _ _ _ El)). }
  destruct (fields sp) as [fs|] eqn:Hfs; cbn [has].
  - apply onChildren_ext. intros dk mk.
    unfold resolveNamespaceBody. rewrite Hfs. cbn [resolveInMaybe].
    destruct (_ && _ && _); [reflexivity|].
    destruct (match shorthand sp with Some _ => _ | None => _ end); [|reflexivity].
    destruct (getProp mk "fields"); [|reflexivity].
    now rewrite (Hresolve fs (IHf fs eq_refl)).
  - destruct (entryFields sp) as [efs|] eqn:Hefs; cbn [has].
    + apply onChildren_ext. intros dk mk. unfold resolveRecordBody.
      destruct (negb _); [reflexivity|]. apply forEachEntry_ext. intros key a d1 m1 _.
      unfold resolveRecordEntryBody. rewrite Hefs. cbn [resolveInMaybe].
      destruct (thrown _); [reflexivity|].
      destruct (getProp _ key); [|reflexivity].
      destruct (getProp _ "value"); [|reflexivity].
      destruct (getProp _ key); [|reflexivity].
      now rewrite (Hresolve efs (IHe efs eq_refl)).
    + unfold resolveLeaf. now rewrite (runFixup_handler o o' sp k v Hsame).
Qed.

(** The [onFixup] option counts only through the exceptions of the handler:
    what the handler returns is not used, so two options whose handlers
    throw on the same fixups (two handlers that never throw, or a handler
    that never throws and none) make every change the same. *)
Theorem onFixup_counts_only_when_it_throws :
  forall o o',
    (forall info, handlerThrows o info = handlerThrows o' info) ->
    forall f spec input d m, resolve o f spec input d m = resolve o' f spec input d m.
Proof.
  intros o o' Hsame f spec input d m. rewrite !resolve_forEach. apply forEachEntry_ext.
  intros k v d' m' _. unfold resolveEntry.
  destruct (lookup spec k); [|reflexivity]. now apply resolveField_handler.
Qed.

(** A handler that returns, and no handler: the change of the fixup test is
    the same. *)
Lemma onFixup_counts_only_when_it_throws_witness :
  resolve {| onFixup := Some (fun _ => Returned tt) |} FromSet Examples.pathSpec
          (Examples.obj [("path", VStr "foo")])
          (Examples.initialData Examples.pathSpec) (Examples.initialMetadata Examples.pathSpec)
  = resolve noOptions FromSet Examples.pathSpec
            (Examples.obj [("path", VStr "foo")])
            (Examples.initialData Examples.pathSpec)
            (Examples.initialMetadata Examples.pathSpec).
Proof.
  apply (onFixup_counts_only_when_it_throws
           {| onFixup := Some (fun _ => Returned tt) |} noOptions).
  intros info. reflexivity.
Defined.

(** ** The entries a change names *)

Lemma forEachEntry_reaches {A} (f : string -> A -> value -> value -> outcome)
    (P : value -> value -> Prop) k a es :
  In (k, a) es ->
  (forall d m, (f k a d m).(thrown) = None ->
               P (f k a d m).(outData) (f k a d m).(outMetadata)) ->
  (forall k' a' d m, (f k' a' d m).(thrown) = None -> P d m ->
                     P (f k' a' d m).(outData) (f k' a' d m).(outMetadata)) ->
  forall d m, (forEachEntry f es d m).(thrown) = None ->
              P (forEachEntry f es d m).(outData) (forEachEntry f es d m).(outMetadata).
Proof.
  intros Hin Hhere Hkeep. induction es as [|[k0 a0] r IH]; [destruct Hin|].
  intros d m. cbn [forEachEntry].
  destruct (thrown (f k0 a0 d m)) eqn:Et; [intros Hok; congruence|]. intros Hok.
  destruct Hin as [[= -> ->]|Hin].
  - apply forEachEntry_keeps; auto.
  - now apply IH.
Qed.

Lemma initialize_object efs initialData initialMetadata :
  initialize efs = Ok (initialData, initialMetadata) -> isObject initialData = true.
Proof.
  unfold initialize, initializeInMaybe. cbn [doInitializeInMaybe].
  change (doInitializeIn initializeField efs emptyObject emptyObject)
    with (doInitialize efs emptyObject emptyObject).
  pose proof (doInitialize_keys efs emptyObject emptyObject) as Hkeys. cbn zeta in Hkeys.
  destruct (thrown (doInitialize efs emptyObject emptyObject)); [discriminate|].
  intros [= <- _]. destruct (Hkeys eq_refl) as [[Hplain _] _].
  destruct (outData (doInitialize efs emptyObject emptyObject)); try discriminate Hplain.
  reflexivity.
Qed.

Lemma resolveRecordEntry_entry o f sp efs key k v d m :
  sp.(entryFields) = Some efs ->
  (resolveRecordEntry o f sp k v d m).(thrown) = None ->
  (k = key \/ exists entry, getProp d key = Ok entry /\ truthy entry = true) ->
  exists entry, getProp (resolveRecordEntry o f sp k v d m).(outData) key = Ok entry
                /\ truthy entry = true.
Proof.
  intros Hefs. unfold resolveRecordEntry, resolveRecordEntryBody.
  assert (Hensure : (ensureRecordEntryBody initializeField sp k d m).(thrown) = None ->
            (k = key \/ exists entry, getProp d key = Ok entry /\ truthy entry = true) ->
            exists entry,
              getProp (ensureRecordEntryBody initializeField sp k d m).(outData) key = Ok entry
              /\ truthy entry = true).
  { unfold ensureRecordEntryBody. rewrite Hefs.
    change (initializeInMaybe initializeField (Some efs)) with (initialize efs).
    destruct (getProp d k) as [edk|] eqn:Edk; [|discriminate].
    destruct (negb (truthy edk)) eqn:Et.
    - destruct (initialize efs) as [[idata imeta]|] eqn:Einit; [|discriminate].
      destruct (setProp d k idata) as [d'|] eqn:Ed'; [|discriminate].
      destruct (getProp m "value") as [mv|]; [|discriminate].
      destruct (setProp mv k imeta); [|discriminate].
      intros _ Hkey. cbn [done outData]. destruct (String.eqb_spec k key) as [->|Hne].
      + exists idata. split; [exact (getProp_setProp_same _ _ _ _ Ed')|].
        apply truthy_object. exact (initialize_object _ _ _ Einit).
      + destruct Hkey as [->|Hkey]; [contradiction|].
        now rewrite (getProp_setProp_other _ _ key _ _ Ed' Hne).
    - intros _ [->|Hkey]; [|exact Hkey]. cbn [done outData].
      exists edk. split; [exact Edk|]. now apply negb_false_iff in Et. }
  destruct (thrown (ensureRecordEntryBody initializeField sp k d m)) eqn:Ethrown;
    [intros Hok; congruence|].
  specialize (Hensure eq_refl).
  set (d1 := outData (ensureRecordEntryBody initializeField sp k d m)) in *.
  set (m1 := outMetadata (ensureRecordEntryBody initializeField sp k d m)) in *.
  destruct (getProp d1 k) as [edk|] eqn:Edk; [|discriminate].
  destruct (getProp m1 "value") as [mv|]; [|discriminate].
  destruct (getProp mv k) as [emk|]; [|discriminate].
  rewrite Hefs. cbn [resolveInMaybe].
  change (resolveIn resolveField o f efs v edk emk) with (resolve o f efs v edk emk).
  destruct (resolve_keepsNonObjects o f efs v edk emk) as (K1 & _ & K3).
  cbn [outData thrown]. intros _ Hkey. destruct (Hensure Hkey) as (entry & Hentry & Ht).
  destruct (String.eqb_spec k key) as [->|Hne].
  - rewrite (getProp_writeBack_exact _ _ _ _ Edk K1). eexists. split; [reflexivity|].
    assert (entry = edk) by congruence. subst entry.
    destruct (isObject edk) eqn:Eo; [now apply truthy_object, K3 | now rewrite K1].
  - rewrite getProp_writeBack_other by exact Hne. eauto.
Qed.

Lemma resolveRecordEntry_makes o f sp efs key ev d m :
  sp.(entryFields) = Some efs ->
  (resolveRecordEntry o f sp key ev d m).(thrown) = None ->
  exists held entryData entryMetadata,
    getProp d key = Ok held
    /\ (if truthy held
        then entryData = held /\ getPath m ["value"; key] = Ok entryMetadata
        else initialize efs = Ok (entryData, entryMetadata))
    /\ (resolve o f efs ev entryData entryMetadata).(thrown) = None
    /\ getProp (resolveRecordEntry o f sp key ev d m).(outData) key
       = Ok (resolve o f efs ev entryData entryMetadata).(outData)
    /\ getPath (resolveRecordEntry o f sp key ev d m).(outMetadata) ["value"; key]
       = Ok (resolve o f efs ev entryData entryMetadata).(outMetadata).
Proof.
  intros Hefs. unfold resolveRecordEntry, resolveRecordEntryBody, ensureRecordEntryBody.
  rewrite Hefs. change (initializeInMaybe initializeField (Some efs)) with (initialize efs).
  cbv zeta. cbn [resolveInMaybe]. change (resolveIn resolveField) with resolve.
  destruct (getProp d key) as [held|] eqn:Eheld; [|intros H; discriminate H].
  destruct (truthy held) eqn:Et; cbn [negb].
  - cbn [done thrown outData outMetadata]. rewrite Eheld.
    destruct (getProp m "value") as [mv|] eqn:Emv; [|intros H; discriminate H].
    destruct (getProp mv key) as [em|] eqn:Eem; [|intros H; discriminate H].
    cbn [thrown outData outMetadata]. intros Hok.
    destruct (resolve_keepsNonObjects o f efs ev held em) as (K1 & K2 & _).
    exists held, held, em. split; [reflexivity|]. rewrite Et.
    split; [split; [reflexivity|]; cbn [getPath]; now rewrite Emv, Eem|].
    split; [exact Hok|]. split.
    + exact (getProp_writeBack_exact _ _ _ _ Eheld K1).
    + rewrite (getPath_two _ "value" key _
                 (getProp_writeBack_exact _ _ _ _ Emv
                    (fun H => writeBack_nonObject mv key _ H))).
      exact (getProp_writeBack_exact _ _ _ _ Eem K2).
  - destruct (initialize efs) as [[idata imeta]|]; [|intros H; discriminate H].
    destruct (setProp d key idata) as [d'|] eqn:Ed'; [|intros H; discriminate H].
    destruct (getProp m "value") as [mv|] eqn:Emv; [|intros H; discriminate H].
    destruct (setProp mv key imeta) as [mv'|] eqn:Emv'; [|intros H; discriminate H].
    cbn [done thrown outData outMetadata].
    rewrite (getProp_setProp_same _ _ _ _ Ed').
    assert (Hmv : isObject mv = true) by (destruct mv; try discriminate Emv'; reflexivity).
    assert (Hvalue : getProp (writeBack m "value" mv') "value" = Ok mv').
    { apply (getProp_writeBack_exact _ _ _ _ Emv). intros H. rewrite H in Hmv. discriminate. }
    rewrite Hvalue, (getProp_setProp_same _ _ _ _ Emv').
    cbn [thrown outData outMetadata]. intros Hok.
    destruct (resolve_keepsNonObjects o f efs ev idata imeta) as (K1 & K2 & _).
    exists held, idata, imeta. split; [reflexivity|]. rewrite Et. split; [reflexivity|].
    split; [exact Hok|]. split.
    + exact (getProp_writeBack_exact _ _ _ _ (getProp_setProp_same _ _ _ _ Ed') K1).
    + rewrite (getPath_two _ "value" key _
                 (getProp_writeBack_exact _ _ _ _ Hvalue
                    (fun H => writeBack_nonObject mv' key _ H))).
      exact (getProp_writeBack_exact _ _ _ _ (getProp_setProp_same _ _ _ _ Emv') K2).
Qed.

(** The entries of a record that the input does not name are what they
    were, in the data and in the metadata, after any part of the pass. *)
Lemma resolveRecordEntries_frame o f sp es key d m :
  ~ In key (keys es) ->
  getProp (forEachEntry (resolveRecordEntry o f sp) es d m).(outData) key = getProp d key
  /\ getPath (forEachEntry (resolveRecordEntry o f sp) es d m).(outMetadata) ["value"; key]
     = getPath m ["value"; key].
Proof.
  revert d m. induction es as [|[k a] r IH]; intros d m Hk; [now split|].
  cbn [forEachEntry]. cbv zeta.
  assert (Hne : k <> key) by (intros ->; apply Hk; now left).
  destruct (resolveRecordEntry_frame o f sp k a key d m Hne) as [Hd Hm].
  destruct (thrown (resolveRecordEntry o f sp k a d m)); [now split|].
  destruct (IH (outData (resolveRecordEntry o f sp k a d m))
               (outMetadata (resolveRecordEntry o f sp k a d m))) as [Hd' Hm'].
  { intros Hin. apply Hk. now right. }
  split; congruence.
Qed.

Lemma getPath_cons o k c rest :
  getProp o k = Ok c -> getPath o (k :: rest) = getPath c rest.
Proof. intros H. cbn [getPath]. now rewrite H. Qed.

Lemma getPath_one o k : getPath o [k] = getProp o k.
Proof. cbn [getPath]. now destruct (getProp o k). Qed.



(** * Backing types *)

Lemma remapType_again backingTypes t :
  remapType backingTypes (remapType backingTypes t) = remapType backingTypes t.
Proof.
  unfold remapType at 2 3. destruct (hasRootTyping (typeKind t)) eqn:Hk.
  2:{ unfold remapType. now rewrite Hk. }
  destruct (typeRootTyping t) as [[s|n p]|] eqn:Hr.
  - destruct (Nat.eqb (String.length s) 0) eqn:Hs.
    { unfold remapType. now rewrite Hk, Hr, Hs. }
    destruct (backingTypeOf backingTypes s) as [path|] eqn:Hl.
    + destruct (negb (knownFile (Some path))) eqn:Hp.
      * unfold remapType. now rewrite Hk, Hr, Hs, Hl, Hp.
      * unfold remapType. cbn [typeKind typeRootTyping typeName]. now rewrite Hk.
    + unfold remapType. now rewrite Hk, Hr, Hs, Hl.
  - unfold remapType. now rewrite Hk, Hr.
  - unfold remapType. now rewrite Hk, Hr.
Qed.

Lemma remapType_name backingTypes t : typeName (remapType backingTypes t) = typeName t.
Proof.
  unfold remapType.
  destruct (hasRootTyping _); [|reflexivity].
  destruct (typeRootTyping t) as [[s|n p]|]; try reflexivity.
  destruct (Nat.eqb _ 0); [reflexivity|].
  destruct (backingTypeOf backingTypes s) as [path|]; [|reflexivity].
  now destruct (negb _).
Qed.

Lemma remapType_kind backingTypes t : typeKind (remapType backingTypes t) = typeKind t.
Proof.
  unfold remapType.
  destruct (hasRootTyping _); [|reflexivity].
  destruct (typeRootTyping t) as [[s|n p]|]; try reflexivity.
  destruct (Nat.eqb _ 0); [reflexivity|].
  destruct (backingTypeOf backingTypes s) as [path|]; [|reflexivity].
  now destruct (negb _).
Qed.

(** Remapping keeps the types in place, with their names and kinds.  A type
    of one of the five kinds with a root typing, whose root typing is a name
    that is not empty and for which [backingTypes[name]] is truthy, is given
    the import [{ name, path }], and no other type is changed.  What
    [backingTypes[name]] finds is the path the object holds for the name, or
    the member that objects inherit when the name is one of those (so
    ['constructor'] is replaced although no backing type has that name).
    Remapping a second time with the same backing types changes nothing. *)
Theorem remap_puts_imports_for_known_backing_types :
  forall types backingTypes,
    let remapped := remapNexusTypesWithBackingTypes types backingTypes in
    remapNexusTypesWithBackingTypes remapped backingTypes = remapped
    /\ map typeName remapped = map typeName types
    /\ map typeKind remapped = map typeKind types
    /\ (forall i t,
          nth_error types i = Some t ->
          (forall s path,
             hasRootTyping t.(typeKind) = true ->
             t.(typeRootTyping) = Some (RootTypingName s) ->
             s <> "" ->
             backingTypeOf backingTypes s = Some path ->
             knownFile (Some path) = true ->
             nth_error remapped i
             = Some {| typeKind := t.(typeKind); typeName := t.(typeName);
                       typeRootTyping := Some (RootTypingImport s path) |})
          /\ (forall t',
                nth_error remapped i = Some t' -> t' <> t ->
                exists s path,
                  t.(typeRootTyping) = Some (RootTypingName s)
                  /\ hasRootTyping t.(typeKind) = true
                  /\ s <> ""
                  /\ backingTypeOf backingTypes s = Some path
                  /\ knownFile (Some path) = true
                  /\ (path = InheritedMember s
                      \/ exists file, path = FilePath file /\ file <> ""
                                      /\ lookup backingTypes s = Some file)
                  /\ t'.(typeRootTyping) = Some (RootTypingImport s path))).
Proof.
  intros types backingTypes remapped. subst remapped.
  unfold remapNexusTypesWithBackingTypes. split; [|split; [|split]].
  - rewrite map_map. apply map_ext. intros t. apply remapType_again.
  - rewrite map_map. apply map_ext. intros t. apply remapType_name.
  - rewrite map_map. apply map_ext. intros t. apply remapType_kind.
  - intros i t Ht. rewrite nth_error_map, Ht. cbn [option_map]. split.
    + intros s path Hk Hr Hs Hl Hp. unfold remapType. rewrite Hk, Hr, Hl, Hp.
      destruct (Nat.eqb_spec (String.length s) 0) as [Hlen|_]; [|reflexivity].
      destruct s; [now contradiction Hs | discriminate Hlen].
    + intros t' [= <-]. unfold remapType.
      destruct (hasRootTyping (typeKind t)) eqn:Hk; [|intros H; now contradiction H].
      destruct (typeRootTyping t) as [[s|n p]|] eqn:Hr; try (intros H; now contradiction H).
      destruct (Nat.eqb (String.length s) 0) eqn:Hs; [intros H; now contradiction H|].
      destruct (backingTypeOf backingTypes s) as [path|] eqn:Hl;
        [|intros H; now contradiction H].
      destruct (knownFile (Some path)) eqn:Hp; cbn [negb]; [|intros H; now contradiction H].
      intros _. exists s, path.
      split; [reflexivity|]. split; [reflexivity|].
      split; [intros ->; discriminate Hs|]. split; [exact Hl|]. split; [exact Hp|].
      split; [|reflexivity].
      revert Hl Hp. unfold backingTypeOf.
      destruct (lookup backingTypes s) as [file|].
      * intros [= <-]. cbn [knownFile]. intros Hp. right. exists file.
        split; [reflexivity|]. split; [|reflexivity].
        intros ->. discriminate Hp.
      * destruct (inherited s); [|discriminate]. intros [= <-] _. now left.
Qed.

(** An object type backed by [User], known, one backed by [Post], unknown,
    and one whose root typing is a name that objects inherit. *)
Example remap_user :
  remapNexusTypesWithBackingTypes
    [{| typeKind := ObjectTypeDef; typeName := "User";
        typeRootTyping := Some (RootTypingName "User") |};
     {| typeKind := ObjectTypeDef; typeName := "Post";
        typeRootTyping := Some (RootTypingName "Post") |};
     {| typeKind := ObjectTypeDef; typeName := "Ctor";
        typeRootTyping := Some (RootTypingName "constructor") |}]
    [("User", "/app/types.ts")]
  = [{| typeKind := ObjectTypeDef; typeName := "User";
        typeRootTyping := Some (RootTypingImport "User" (FilePath "/app/types.ts")) |};
     {| typeKind := ObjectTypeDef; typeName := "Post";
        typeRootTyping := Some (RootTypingName "Post") |};
     {| typeKind := ObjectTypeDef; typeName := "Ctor";
        typeRootTyping := Some (RootTypingImport "constructor"
                                                 (InheritedMember "constructor")) |}].
Proof. reflexivity. Qed.

(** * Every leaf has its node *)

(** Nothing initializes in metadata that are [undefined]. *)
Lemma initializeField_undefined_metadata sp k d :
  (initializeField sp k d VUndefined).(thrown) <> None.
Proof.
  rewrite initializeField_eq. unfold initializeFieldBody.
  destruct (has (fields sp)); [|destruct (has (entryFields sp))].
  - destruct (initializedNamespaceOf sp); [|discriminate].
    destruct (getProp d k); [|discriminate].
    destruct (setProp d k _); [|discriminate]. discriminate.
  - destruct (initialRecordOf sp k d); [|discriminate].
    destruct (thrown (initializeRecordEntries _ _ _ _)); [discriminate|].
    destruct (setProp d k _); [|discriminate]. discriminate.
  - destruct (runInitializer sp k d); [|discriminate].
    destruct (runMapType sp k _); [|discriminate]. unfold commitInitial.
    destruct (setProp d k _); [|discriminate]. discriminate.
Qed.

Lemma doInitialize_undefined_metadata fs d :
  (doInitialize fs d VUndefined).(thrown) = None -> fs = [].
Proof.
  destruct fs as [|[k sp] r]; [reflexivity|].
  unfold doInitialize, doInitializeIn. cbn [forEachEntry]. cbn beta zeta.
  pose proof (initializeField_undefined_metadata sp k d) as H.
  destruct (thrown (initializeField sp k d VUndefined)) eqn:Et; [|contradiction].
  intros Hok. congruence.
Qed.

Lemma leafAt_lookup spec sp name rest d m :
  lookup spec name = Some sp ->
  leafAt spec d m (name :: rest) = leafAt [(name, sp)] d m (name :: rest).
Proof.
  intros El. rewrite !leafAt_cons, El. cbn [lookup]. now rewrite String.eqb_refl.
Qed.

Lemma initializeField_makes_the_leaf sp name rest d m :
  (forall spec d m,
      distinctKeysSpec spec = true -> seedState m ->
      (doInitialize spec d m).(thrown) = None ->
      specLeaf spec rest = true ->
      exists node,
        leafAt spec (doInitialize spec d m).(outData) (doInitialize spec d m).(outMetadata) rest
        = Some node) ->
  distinctKeys sp = true ->
  (getProp m name = Ok VUndefined \/ exists v, getProp m name = Ok (seedNode v)) ->
  (initializeField sp name d m).(thrown) = None ->
  specLeaf [(name, sp)] (name :: rest) = true ->
  exists node,
    leafAt [(name, sp)] (initializeField sp name d m).(outData)
           (initializeField sp name d m).(outMetadata) (name :: rest)
    = Some node.
Proof.
  intros IH Hsp Hat. cbn [specLeaf lookup]. rewrite leafAt_cons. cbn [lookup].
  rewrite String.eqb_refl. rewrite initializeField_eq. unfold initializeFieldBody.
  destruct (fields sp) as [fs|] eqn:Hfs; [|destruct (entryFields sp) as [efs|] eqn:Hefs];
    cbn [has]; [| discriminate |].
  - cbn [doInitializeInMaybe].
    destruct (initializedNamespaceOf sp) as [ns|]; [|discriminate].
    destruct (getProp d name) as [ed|]; [|discriminate].
    destruct (setProp d name _) as [d1|] eqn:Ed1; [|discriminate].
    destruct (getProp m name) as [em|] eqn:Em; [|discriminate].
    destruct (setProp m name _) as [m1|] eqn:Em1; [|discriminate].
    rewrite (getProp_setProp_same _ _ _ _ Ed1), (getProp_setProp_same _ _ _ _ Em1).
    set (nd := nullishOr ed ns). set (nm := nullishOr em (seedMetadata ns)).
    destruct (getProp nm "fields") as [mf|] eqn:Emf; [|discriminate].
    change (doInitializeIn initializeField fs nd mf) with (doInitialize fs nd mf).
    cbn [outData outMetadata thrown]. intros Hin Hleaf.
    destruct (doInitialize_keepsNonObjects fs nd mf) as (K1 & K2 & _).
    unfold atField, atFields.
    rewrite (getProp_writeBack_exact _ _ _ _ (getProp_setProp_same _ _ _ _ Ed1) K1).
    rewrite (getProp_writeBack_exact _ _ _ (writeBack nm "fields" _)
               (getProp_setProp_same _ _ _ _ Em1)) by apply writeBack_nonObject.
    rewrite (getProp_writeBack_exact _ _ _ _ Emf K2).
    pose proof (distinctKeys_fields _ _ Hsp Hfs) as Hdfs.
    destruct Hat as [Hundef|[v Hv]].
    + apply IH; auto.
      assert (em = VUndefined) by congruence. subst em. cbn in Emf.
      injection Emf as <-. apply seedState_mapValues.
    + exfalso. assert (em = seedNode v) by congruence. subst em. cbn in Emf.
      injection Emf as <-. rewrite (doInitialize_undefined_metadata fs nd Hin) in Hleaf.
      destruct rest; discriminate Hleaf.
  - destruct (runInitializer sp name _); [|discriminate].
    destruct (runMapType sp name _) as [v|]; [|discriminate]. unfold commitInitial.
    destruct (setProp d name v) as [d1|] eqn:Ed1; [|discriminate].
    destruct (setProp m name _) as [m1|] eqn:Em1; [|discriminate].
    intros _ Hleaf. destruct rest as [|? ?]; [|discriminate Hleaf].
    cbn [done outData outMetadata]. unfold atField, leafNode.
    rewrite (getProp_setProp_same _ _ _ _ Ed1), (getProp_setProp_same _ _ _ _ Em1).
    eexists. reflexivity.
Qed.

Lemma doInitialize_makes_the_leaves path :
  forall spec d m,
    distinctKeysSpec spec = true -> seedState m ->
    (doInitialize spec d m).(thrown) = None ->
    specLeaf spec path = true ->
    exists node,
      leafAt spec (doInitialize spec d m).(outData) (doInitialize spec d m).(outMetadata) path
      = Some node.
Proof.
  induction path as [|name rest IH]; intros spec d m Hdistinct Hseed Hok Hleaf;
    [discriminate|].
  assert (Hl : exists sp, lookup spec name = Some sp).
  { cbn [specLeaf] in Hleaf. destruct (lookup spec name) as [sp|]; [eauto | discriminate]. }
  destruct Hl as [sp El].
  assert (Hleaf' : specLeaf [(name, sp)] (name :: rest) = true).
  { cbn [specLeaf lookup]. rewrite String.eqb_refl.
    cbn [specLeaf] in Hleaf. now rewrite El in Hleaf. }
  rewrite (leafAt_lookup _ _ _ _ _ _ El).
  destruct (distinctKeysSpec_split _ _ _ Hdistinct El) as (pre & post & -> & Hpre & Hpost).
  assert (Hsp : distinctKeys sp = true).
  { apply (distinctKeysSpec_In _ name _ Hdistinct). apply in_or_app. right. now left. }
  destruct (thrown_doInitialize_at pre name sp post d m Hok) as (Hbefore & Hhere & ->).
  set (before := doInitialize pre d m) in *.
  set (here := initializeField sp name (outData before) (outMetadata before)) in *.
  destruct (doInitialize_frame post (outData here) (outMetadata here) name Hpost) as [Fd Fm].
  assert (Hat : getProp (outMetadata before) name = Ok VUndefined
                \/ exists v, getProp (outMetadata before) name = Ok (seedNode v)).
  { destruct (doInitialize_frame pre d m name Hpre) as [_ Gm]. fold before in Gm.
    rewrite Gm. apply Hseed. }
  rewrite (leafAt_ext _ _ _ _ _ name rest Fd Fm).
  now apply initializeField_makes_the_leaf.
Qed.

Lemma leafAt_type n : forall path : list string, List.length path <= n ->
  forall spec d m node, leafAt spec d m path = Some node -> hasType "leaf" node = true.
Proof.
  induction n as [|n IH]; intros [|name rest] Hlen spec d m node; try discriminate;
    [cbn in Hlen; lia|].
  cbn [List.length] in Hlen.
  rewrite leafAt_cons. destruct (lookup spec name) as [sp|]; [|discriminate].
  unfold atField. destruct (getProp d name) as [dn|].
  2:{ destruct (fields sp); [discriminate|]. destruct (entryFields sp); destruct rest; discriminate. }
  destruct (getProp m name) as [mn|].
  2:{ destruct (fields sp); [discriminate|]. destruct (entryFields sp); destruct rest; discriminate. }
  destruct (fields sp) as [fs|]; [|destruct (entryFields sp) as [efs|]].
  - unfold atFields. destruct (getProp mn "fields"); [|discriminate]. apply IH. lia.
  - destruct rest as [|key rest']; [discriminate|]. unfold atEntry.
    destruct (getProp dn key); [|discriminate].
    destruct (getProp mn "value") as [mv|]; [|discriminate].
    destruct (getProp mv key); [|discriminate].
    destruct (_ && _); [|discriminate]. apply IH. cbn [List.length] in Hlen. lia.
  - destruct rest; [|discriminate]. unfold leafNode.
    destruct (hasType "leaf" mn) eqn:Ety; [|discriminate]. now intros [= <-].
Qed.




(** * The same change, again *)

Lemma indexKey_inj i j : indexKey i = indexKey j -> i = j.
Proof.
  unfold indexKey. intros H.
  apply (f_equal NilEmpty.uint_of_string) in H.
  rewrite !NilEmpty.usu in H. injection H as H.
  now apply Unsigned.to_uint_inj.
Qed.

Lemma keys_charEntries_from i s k : In k (keys (charEntries i s)) -> exists j, i <= j /\ k = indexKey j.
Proof.
  revert i. induction s as [|c r IH]; intros i; simpl; [contradiction|].
  intros [<-|H].
  - exists i. split; [lia | reflexivity].
  - destruct (IH _ H) as (j & Hj & ->). exists j. split; [lia | reflexivity].
Qed.

Lemma NoDup_charEntries i s : NoDup (keys (charEntries i s)).
Proof.
  revert i. induction s as [|c r IH]; intros i; simpl; constructor.
  - intros H. destruct (keys_charEntries_from _ _ _ H) as (j & Hj & E).
    apply indexKey_inj in E. lia.
  - apply IH.
Qed.

Lemma distinctProps_keys v : distinctProps v = true -> NoDup (keys (ownEntries v)).
Proof.
  destruct v; simpl; intros H; try constructor.
  - apply NoDup_charEntries.
  - apply andb_true_iff in H. apply nodupb_NoDup, H.
Qed.

Lemma distinctProps_entry v k a :
  distinctProps v = true -> In (k, a) (ownEntries v) -> distinctProps a = true.
Proof.
  destruct v; simpl; intros H Hin; try contradiction.
  - revert Hin. generalize 0. induction s as [|c r IH]; simpl; [contradiction|].
    intros n [[= _ <-]|Hin]; [reflexivity | eauto].
  - apply andb_true_iff in H. destruct H as [_ H].
    rewrite forallb_forall in H. apply (H _ Hin).
Qed.

Lemma allOf_In {A} (P : A -> Prop) l a : allOf P l -> In a l -> P a.
Proof.
  induction l as [|b r IH]; simpl; [contradiction|].
  intros [Hb Hr] [<-|Hin]; auto.
Qed.

Lemma expandsToDistinct_fields sp fs k s :
  expandsToDistinct sp -> sp.(fields) = Some fs -> In (k, s) fs -> expandsToDistinct s.
Proof.
  destruct sp as [i f e sh fx vd mt]; simpl. intros (_ & Hf & _) ->.
  intros Hin. apply (allOf_In _ _ _ Hf Hin).
Qed.

Lemma expandsToDistinct_entryFields sp efs k s :
  expandsToDistinct sp -> sp.(entryFields) = Some efs -> In (k, s) efs -> expandsToDistinct s.
Proof.
  destruct sp as [i f e sh fx vd mt]; simpl. intros (_ & _ & He) ->.
  intros Hin. apply (allOf_In _ _ _ He Hin).
Qed.

Lemma expandsToDistinct_shorthand sp expand v longhand :
  expandsToDistinct sp -> sp.(shorthand) = Some expand ->
  distinctProps v = true -> expand v = Returned longhand ->
  distinctProps longhand = true.
Proof.
  destruct sp as [i f e sh fx vd mt]; simpl. intros (Hs & _) ->. apply Hs.
Qed.

Lemma agreeAt_refl k x : agreeAt k x x.
Proof. now repeat split. Qed.

Lemma agreeAt_trans k x y z : agreeAt k x y -> agreeAt k y z -> agreeAt k x z.
Proof.
  intros (H1 & H2 & H3) (H1' & H2' & H3'). repeat split; congruence.
Qed.

Lemma agreeAt_writeBack k k' o c : k <> k' -> agreeAt k' o (writeBack o k c).
Proof.
  intros Hne. repeat split.
  - apply isObject_writeBack.
  - destruct o; try reflexivity. simpl. now apply lookup_replace_other.
  - now apply getProp_writeBack_other.
Qed.

Lemma agreeAt_setProp k k' o v o' : setProp o k v = Ok o' -> k <> k' -> agreeAt k' o o'.
Proof.
  intros H Hne. repeat split.
  - destruct o; try discriminate. now injection H as <-.
  - destruct o; try discriminate. injection H as <-. simpl. now apply lookup_assign_other.
  - now apply (getProp_setProp_other _ _ _ _ _ H).
Qed.

Lemma onChildren_agree k k' run d m :
  k <> k' -> agreeAt k' d (onChildren k run d m).(outData).
Proof.
  intros Hne. unfold onChildren.
  destruct (getProp d k); [|apply agreeAt_refl].
  destruct (getProp m k); [|apply agreeAt_refl].
  now apply agreeAt_writeBack.
Qed.

Lemma commit_agree f k k' v d m :
  k <> k' -> agreeAt k' d (commit f k v d m).(outData).
Proof.
  intros Hne. unfold commit.
  destruct (setProp d k v) as [d'|] eqn:Ed; [|apply agreeAt_refl].
  pose proof (agreeAt_setProp _ _ _ _ _ Ed Hne) as Hd.
  destruct (getProp m k) as [node|]; [|exact Hd].
  destruct node; exact Hd.
Qed.

Lemma resolveField_agree sp o f k k' v d m :
  k <> k' -> agreeAt k' d (resolveField sp o f k v d m).(outData).
Proof.
  intros Hne. rewrite resolveField_eq. unfold resolveFieldBody.
  destruct (notANamespaceGuard _ _); [apply agreeAt_refl|].
  destruct (unknownKindGuard _ _); [apply agreeAt_refl|].
  destruct (has (fields sp)); [now apply onChildren_agree|].
  destruct (has (entryFields sp)); [now apply onChildren_agree|].
  unfold resolveLeaf.
  destruct (runFixup _ _ _ _); [|apply agreeAt_refl].
  destruct (runValidate _ _ _); [|apply agreeAt_refl].
  destruct (runMapType _ _ _); [|apply agreeAt_refl].
  now apply commit_agree.
Qed.

Lemma resolveEntry_agree o f fs k k' v d m :
  k <> k' ->
  agreeAt k' d (resolveEntry o f fs k v d m).(outData)
  /\ getProp (resolveEntry o f fs k v d m).(outMetadata) k' = getProp m k'.
Proof.
  intros Hne. split.
  - unfold resolveEntry. destruct (lookup fs k); [now apply resolveField_agree | apply agreeAt_refl].
  - now apply (resolveEntry_framed o f fs k v d m).
Qed.

(** A pass over distinct entries, each call of which leaves the other
    entries' places as they are and does nothing when run again on what it
    made, does nothing when run again. *)
Lemma forEachEntry_again {A} (f : string -> A -> value -> value -> outcome)
    (R : string -> value -> value -> value -> value -> Prop) es :
  (forall k d m, R k d m d m) ->
  (forall k d1 m1 d2 m2 d3 m3, R k d1 m1 d2 m2 -> R k d2 m2 d3 m3 -> R k d1 m1 d3 m3) ->
  (forall k a k' d m, In (k, a) es -> k <> k' ->
     R k' d m (f k a d m).(outData) (f k a d m).(outMetadata)) ->
  (forall k a d m d2 m2, In (k, a) es ->
     (f k a d m).(thrown) = None ->
     R k (f k a d m).(outData) (f k a d m).(outMetadata) d2 m2 ->
     f k a d2 m2 = done d2 m2) ->
  NoDup (keys es) ->
  forall d m,
    (forEachEntry f es d m).(thrown) = None ->
    forEachEntry f es (forEachEntry f es d m).(outData) (forEachEntry f es d m).(outMetadata)
    = done (forEachEntry f es d m).(outData) (forEachEntry f es d m).(outMetadata).
Proof.
  intros Hrefl Htrans. induction es as [|[k a] r IH]; intros Hframe Hnoop Hnd d m; [reflexivity|].
  cbn [forEachEntry]. cbv zeta.
  destruct (thrown (f k a d m)) eqn:Et; [intros Hok; congruence|].
  intros Hok.
  set (o1 := f k a d m) in *.
  set (F := forEachEntry f r (outData o1) (outMetadata o1)) in *.
  inversion Hnd as [|? ? Hk Hnd']; subst.
  assert (HR : R k (outData o1) (outMetadata o1) (outData F) (outMetadata F)).
  { subst F. apply (forEachEntry_preserves f (fun d' m' => R k (outData o1) (outMetadata o1) d' m')).
    - intros k0 a0 d0 m0 Hin H0. apply (Htrans _ _ _ _ _ _ _ H0).
      apply Hframe; [now right|]. intros ->. apply Hk.
      apply (in_map fst) in Hin. exact Hin.
    - apply Hrefl. }
  rewrite (Hnoop k a d m (outData F) (outMetadata F) (or_introl eq_refl) Et HR).
  cbn [thrown done outData outMetadata].
  apply IH; auto.
  - intros; apply Hframe; [now right | assumption].
  - intros k0 a0 d0 m0 d2 m2 Hin. apply Hnoop. now right.
Qed.

Lemma assign_lookup_id {A} (l : list (string * A)) k a :
  lookup l k = Some a -> assign l k a = l.
Proof.
  induction l as [|[k' a'] r IH]; simpl; [discriminate|].
  destruct (String.eqb_spec k' k) as [->|Hne].
  - now intros [= ->].
  - intros H. now rewrite IH.
Qed.

Lemma committedNode_again f c node :
  committedNode f c (committedNode f c node) = committedNode f c node.
Proof.
  destruct node; try reflexivity. unfold committedNode.
  destruct f; f_equal.
  - set (P := assign (assign props "value" c) "from" (fromValue FromSet)).
    assert (Hv : lookup P "value" = Some c).
    { subst P. rewrite lookup_assign_other by discriminate. apply lookup_assign_same. }
    rewrite (assign_lookup_id _ _ _ Hv).
    apply assign_lookup_id. subst P. apply lookup_assign_same.
  - set (P := assign (assign (assign props "value" c) "from" (fromValue FromInitial)) "initial" c).
    assert (Hv : lookup P "value" = Some c).
    { subst P. rewrite !lookup_assign_other by discriminate. apply lookup_assign_same. }
    rewrite (assign_lookup_id _ _ _ Hv).
    assert (Hf : lookup P "from" = Some (fromValue FromInitial)).
    { subst P. rewrite lookup_assign_other by discriminate. apply lookup_assign_same. }
    rewrite (assign_lookup_id _ _ _ Hf).
    apply assign_lookup_id. subst P. apply lookup_assign_same.
Qed.

Lemma commit_committedNode f k c d m :
  (commit f k c d m).(thrown) = None ->
  exists plain props node,
    d = VObj plain props /\ getProp m k = Ok node /\ isObject node = true
    /\ (commit f k c d m).(outData) = VObj plain (assign props k c)
    /\ (commit f k c d m).(outMetadata) = writeBack m k (committedNode f c node).
Proof.
  unfold commit. destruct d; try discriminate. cbn [setProp].
  destruct (getProp m k) as [node|]; [|discriminate].
  destruct node; try discriminate. intros _.
  exists plain, props, (VObj plain0 props0).
  split; [reflexivity|]. split; [reflexivity|]. split; [reflexivity|].
  split; [reflexivity|].
  cbn [done outMetadata committedNode]. now destruct f.
Qed.

Lemma commit_again f k c d m d2 m2 :
  (commit f k c d m).(thrown) = None ->
  agreeAt k (commit f k c d m).(outData) d2 ->
  getProp m2 k = getProp (commit f k c d m).(outMetadata) k ->
  commit f k c d2 m2 = done d2 m2.
Proof.
  intros Hok.
  destruct (commit_committedNode _ _ _ _ _ Hok) as (plain & props & node & -> & Hm & Hobj & -> & ->).
  intros (Ho & Hl & _) Hm2.
  rewrite (getProp_writeBack_exact _ _ _ _ Hm) in Hm2
    by (intros H; rewrite H in Hobj; discriminate).
  destruct d2 as [| | | | |plain2 props2]; try discriminate.
  cbn [ownEntries] in Hl. rewrite lookup_assign_same in Hl.
  unfold commit. cbn [setProp]. rewrite (assign_lookup_id _ _ _ Hl), Hm2.
  destruct node as [| | | | |np nprops]; try discriminate.
  pose proof (committedNode_again f c (VObj np nprops)) as Hagain.
  cbn [committedNode] in Hagain |- *.
  destruct f; cbn [done fromValue] in *; f_equal.
  - injection Hagain as Hagain. rewrite Hagain. now apply writeBack_getProp.
  - injection Hagain as Hagain. rewrite Hagain. now apply writeBack_getProp.
Qed.

Lemma resolveLeaf_again o f sp k v d m d2 m2 :
  (resolveLeaf o f sp k v d m).(thrown) = None ->
  agreeAt k (resolveLeaf o f sp k v d m).(outData) d2 ->
  getProp m2 k = getProp (resolveLeaf o f sp k v d m).(outMetadata) k ->
  resolveLeaf o f sp k v d2 m2 = done d2 m2.
Proof.
  unfold resolveLeaf.
  destruct (runFixup _ _ _ _); [|discriminate].
  destruct (runValidate _ _ _); [|discriminate].
  destruct (runMapType _ _ _); [|discriminate].
  apply commit_again.
Qed.

Lemma onChildren_again k run d m d2 m2 :
  (forall d m, keepsNonObjects d m (run d m)) ->
  (forall d m, (run d m).(thrown) = None ->
               run (run d m).(outData) (run d m).(outMetadata)
               = done (run d m).(outData) (run d m).(outMetadata)) ->
  (onChildren k run d m).(thrown) = None ->
  getProp d2 k = getProp (onChildren k run d m).(outData) k ->
  getProp m2 k = getProp (onChildren k run d m).(outMetadata) k ->
  onChildren k run d2 m2 = done d2 m2.
Proof.
  intros Hkeeps Hrun. unfold onChildren.
  destruct (getProp d k) as [dk|] eqn:Ed; [|discriminate].
  destruct (getProp m k) as [mk|] eqn:Em; [|discriminate].
  cbn [thrown outData outMetadata]. intros Hok Hd2 Hm2.
  destruct (Hkeeps dk mk) as (Hkd & Hkm & _).
  rewrite (getProp_writeBack_exact _ _ _ _ Ed Hkd) in Hd2.
  rewrite (getProp_writeBack_exact _ _ _ _ Em Hkm) in Hm2.
  rewrite Hd2, Hm2, (Hrun _ _ Hok). cbn [done outData outMetadata thrown].
  unfold done. f_equal; now apply writeBack_getProp.
Qed.

Section Again.
Variable sp : specifier.
Hypothesis Hexpands : expandsToDistinct sp.
Hypothesis Hfields :
    forall fs, sp.(fields) = Some fs ->
    forall o f input d m,
      distinctProps input = true ->
      (resolve o f fs input d m).(thrown) = None ->
      resolve o f fs input (resolve o f fs input d m).(outData)
              (resolve o f fs input d m).(outMetadata)
      = done (resolve o f fs input d m).(outData) (resolve o f fs input d m).(outMetadata).
Hypothesis HentryFields :
    forall efs, sp.(entryFields) = Some efs ->
    forall o f input d m,
      distinctProps input = true ->
      (resolve o f efs input d m).(thrown) = None ->
      resolve o f efs input (resolve o f efs input d m).(outData)
              (resolve o f efs input d m).(outMetadata)
      = done (resolve o f efs input d m).(outData) (resolve o f efs input d m).(outMetadata).

Lemma resolveNamespace_again o f v path d m :
    has sp.(fields) = true ->
    distinctProps v = true ->
    (resolveNamespace o f sp v path d m).(thrown) = None ->
    resolveNamespace o f sp v path (resolveNamespace o f sp v path d m).(outData)
                     (resolveNamespace o f sp v path d m).(outMetadata)
    = done (resolveNamespace o f sp v path d m).(outData)
           (resolveNamespace o f sp v path d m).(outMetadata).
Proof.
    intros Hhas Hv. unfold resolveNamespace, resolveNamespaceBody.
    destruct (negb (isPlainObject v) && has (fields sp) && negb (has (shorthand sp)));
      [discriminate|].
    set (longhand := match shorthand sp with
                     | Some expand =>
                         if negb (isPlainObject v)
                         then match expand v with
                              | Returned v0 => Ok v0
                              | Threw e => Err (ShorthandError path v e)
                              end
                         else Ok v
                     | None => Ok v
                     end).
    assert (Hl : forall l, longhand = Ok l -> distinctProps l = true).
    { subst longhand. intros l.
      destruct (shorthand sp) as [expand|] eqn:Es; [|now intros [= <-]].
      destruct (negb (isPlainObject v)); [|now intros [= <-]].
      destruct (expand v) as [l'|] eqn:Ee; [|discriminate].
      intros [= <-]. apply (expandsToDistinct_shorthand _ _ _ _ Hexpands Es Hv Ee). }
    destruct longhand as [l|]; [|discriminate].
    destruct (getProp m "fields") as [mf|] eqn:Em; [|discriminate].
    destruct (fields sp) as [fs|] eqn:Ef; [|discriminate].
    cbn [resolveInMaybe thrown outData outMetadata].
    change (resolveIn resolveField) with resolve.
    intros Hok.
    destruct (resolve_keepsNonObjects o f fs l d mf) as (_ & Hkm & _).
    rewrite (getProp_writeBack_exact _ _ _ _ Em Hkm).
    rewrite (Hfields fs eq_refl o f l d mf (Hl l eq_refl) Hok).
    cbn [done outData outMetadata thrown]. unfold done. f_equal.
    apply writeBack_getProp. apply (getProp_writeBack_exact _ _ _ _ Em Hkm).
Qed.

Lemma resolveRecordEntry_again o f efs key ev d m d2 m2 :
    sp.(entryFields) = Some efs ->
    distinctProps ev = true ->
    (resolveRecordEntry o f sp key ev d m).(thrown) = None ->
    getProp d2 key = getProp (resolveRecordEntry o f sp key ev d m).(outData) key ->
    getPath m2 ["value"; key]
    = getPath (resolveRecordEntry o f sp key ev d m).(outMetadata) ["value"; key] ->
    resolveRecordEntry o f sp key ev d2 m2 = done d2 m2.
Proof.
    intros Hefs Hev Hok.
    destruct (resolveRecordEntry_entry o f sp efs key key ev d m Hefs Hok (or_introl eq_refl))
      as (entry & Hentry & Htruthy).
    revert Hok Hentry.
    unfold resolveRecordEntry, resolveRecordEntryBody.
    change (ensureRecordEntryBody initializeField) with ensureRecordEntry.
    cbv zeta. set (e := ensureRecordEntry sp key d m).
    destruct (thrown e) eqn:Ee; [intros H; cbv iota in H; congruence|].
    destruct (getProp (outData e) key) as [ed|] eqn:Eed; [|discriminate].
    destruct (getProp (outMetadata e) "value") as [mv|] eqn:Emv; [|discriminate].
    destruct (getProp mv key) as [em|] eqn:Eem; [|discriminate].
    rewrite Hefs. cbn [resolveInMaybe thrown outData outMetadata].
    change (resolveIn resolveField) with resolve.
    intros Hok.
    destruct (resolve_keepsNonObjects o f efs ev ed em) as (Hkd & Hkm & _).
    rewrite (getProp_writeBack_exact _ _ _ _ Eed Hkd). intros [= <-].
    intros Hd2.
    rewrite (getPath_two _ "value" key _
               (getProp_writeBack_exact _ _ _ _ Emv
                  (fun H => writeBack_nonObject mv key _ H))).
    rewrite (getProp_writeBack_exact _ _ _ _ Eem Hkm).
    cbn [getPath].
    destruct (getProp m2 "value") as [mv2|] eqn:Emv2; [|discriminate].
    destruct (getProp mv2 key) as [em2|] eqn:Eem2; [|discriminate].
    intros [= ->].
    unfold ensureRecordEntry, ensureRecordEntryBody.
    rewrite Hd2, Htruthy. cbn [negb done thrown outData outMetadata].
    rewrite Hd2, Emv2, Eem2.
    rewrite (HentryFields efs Hefs o f ev ed em Hev Hok).
    cbn [done outData outMetadata thrown]. unfold done.
    f_equal; [now apply writeBack_getProp|].
    rewrite (writeBack_getProp mv2 key _ Eem2). now apply writeBack_getProp.
Qed.

Lemma resolveRecord_again o f v d m :
    has sp.(entryFields) = true ->
    distinctProps v = true ->
    (resolveRecord o f sp v d m).(thrown) = None ->
    resolveRecord o f sp v (resolveRecord o f sp v d m).(outData)
                  (resolveRecord o f sp v d m).(outMetadata)
    = done (resolveRecord o f sp v d m).(outData) (resolveRecord o f sp v d m).(outMetadata).
Proof.
    intros Hhas Hv. unfold resolveRecord, resolveRecordBody.
    destruct (negb (isPlainObject v)); [discriminate|].
    change (resolveRecordEntryBody resolveField initializeField) with resolveRecordEntry.
    assert (Hefs : exists efs, entryFields sp = Some efs).
    { destruct (entryFields sp) as [efs|]; [now exists efs | discriminate]. }
    destruct Hefs as [efs Hefs].
    apply (forEachEntry_again (resolveRecordEntry o f sp)
             (fun key d m d' m' =>
                getProp d' key = getProp d key
                /\ getPath m' ["value"; key] = getPath m ["value"; key])).
    - now split.
    - intros key d1 m1 d2 m2 d3 m3 [H1 H2] [H3 H4]. split; congruence.
    - intros k a k' d0 m0 _ Hne. now apply resolveRecordEntry_frame.
    - intros k a d0 m0 d2 m2 Hin Hok [Hd2 Hm2].
      apply (resolveRecordEntry_again o f efs k a d0 m0 d2 m2 Hefs); auto.
      apply (distinctProps_entry v k a Hv Hin).
    - now apply distinctProps_keys.
Qed.

Lemma resolveField_again_step o f k v d m d2 m2 :
    distinctProps v = true ->
    (resolveField sp o f k v d m).(thrown) = None ->
    agreeAt k (resolveField sp o f k v d m).(outData) d2 ->
    getProp m2 k = getProp (resolveField sp o f k v d m).(outMetadata) k ->
    resolveField sp o f k v d2 m2 = done d2 m2.
Proof.
    intros Hv. rewrite !resolveField_eq. unfold resolveFieldBody.
    destruct (notANamespaceGuard _ _); [discriminate|].
    destruct (unknownKindGuard _ _); [discriminate|].
    destruct (has (fields sp)) eqn:Hf.
    { intros Hok (_ & _ & Hd2) Hm2.
      apply (onChildren_again k _ d m d2 m2); auto.
      - intros; apply resolveNamespace_keepsNonObjects.
      - intros d0 m0. now apply resolveNamespace_again. }
    destruct (has (entryFields sp)) eqn:He.
    { intros Hok (_ & _ & Hd2) Hm2.
      apply (onChildren_again k _ d m d2 m2); auto.
      - intros; apply resolveRecord_keepsNonObjects.
      - intros d0 m0. now apply resolveRecord_again. }
    apply resolveLeaf_again.
Qed.
End Again.

Lemma resolve_again_from (fs : Spec) :
  Forall (fun kv => expandsToDistinct (snd kv) ->
                    forall o f k v d m d2 m2,
                      distinctProps v = true ->
                      (resolveField (snd kv) o f k v d m).(thrown) = None ->
                      agreeAt k (resolveField (snd kv) o f k v d m).(outData) d2 ->
                      getProp m2 k = getProp (resolveField (snd kv) o f k v d m).(outMetadata) k ->
                      resolveField (snd kv) o f k v d2 m2 = done d2 m2) fs ->
  expandsToDistinctSpec fs ->
  forall o f input d m,
    distinctProps input = true ->
    (resolve o f fs input d m).(thrown) = None ->
    resolve o f fs input (resolve o f fs input d m).(outData)
            (resolve o f fs input d m).(outMetadata)
    = done (resolve o f fs input d m).(outData) (resolve o f fs input d m).(outMetadata).
Proof.
  intros Hall Hexp o f input d m Hinput. rewrite !resolve_forEach.
  rewrite Forall_forall in Hall.
  apply (forEachEntry_again (resolveEntry o f fs)
           (fun k d m d' m' => agreeAt k d d' /\ getProp m' k = getProp m k)).
  - intros; split; [apply agreeAt_refl | reflexivity].
  - intros k d1 m1 d2 m2 d3 m3 [H1 H2] [H3 H4].
    split; [apply (agreeAt_trans _ _ _ _ H1 H3) | congruence].
  - intros k a k' d0 m0 _ Hne. now apply resolveEntry_agree.
  - intros k a d0 m0 d2 m2 Hin. unfold resolveEntry.
    destruct (lookup fs k) as [sp|] eqn:El; [|discriminate].
    apply lookup_In in El. intros Hok [Hd2 Hm2].
    apply (Hall (k, sp) El (allOf_In _ _ _ Hexp El) o f k a d0 m0 d2 m2); auto.
    apply (distinctProps_entry input k a Hinput Hin).
  - now apply distinctProps_keys.
Qed.

(** A field that was resolved is not changed by the same input again. *)
Lemma resolveField_again sp :
  expandsToDistinct sp ->
  forall o f k v d m d2 m2,
    distinctProps v = true ->
    (resolveField sp o f k v d m).(thrown) = None ->
    agreeAt k (resolveField sp o f k v d m).(outData) d2 ->
    getProp m2 k = getProp (resolveField sp o f k v d m).(outMetadata) k ->
    resolveField sp o f k v d2 m2 = done d2 m2.
Proof.
  induction sp as [sp IHf IHe] using specifier_induction.
  intros Hexp o f k v d m d2 m2. apply resolveField_again_step; auto.
  - intros fs Hfs. apply resolve_again_from; [now apply IHf|].
    destruct sp as [i fl e sh fx vd mt]; simpl in *. subst fl. apply Hexp.
  - intros efs Hefs. apply resolve_again_from; [now apply IHe|].
    destruct sp as [i fl e sh fx vd mt]; simpl in *. subst e. apply Hexp.
Qed.

Lemma resolve_again spec o f input d m :
  expandsToDistinctSpec spec ->
  distinctProps input = true ->
  (resolve o f spec input d m).(thrown) = None ->
  resolve o f spec input (resolve o f spec input d m).(outData)
          (resolve o f spec input d m).(outMetadata)
  = done (resolve o f spec input d m).(outData) (resolve o f spec input d m).(outMetadata).
Proof.
  intros Hexp. apply resolve_again_from; [|exact Hexp].
  apply Forall_forall. intros [k sp] _. cbn [snd]. apply resolveField_again.
Qed.

(** A change that returned changes nothing when it is made again:
    [change] returns again, and the data and the metadata are what the first
    call left, whatever the manager held before.  The leaves are given the
    values they have (the fixup, the validator and the type mapper of a leaf
    see the input only), the record entries exist already and are not
    initialized again.  An input holds each key once, at every depth; a
    shorthand is taken to return such an object too. *)
Theorem the_same_change_again_changes_nothing m input :
  expandsToDistinctSpec m.(managerFields) ->
  distinctProps input = true ->
  snd (change m input) = None ->
  change (fst (change m input)) input = (fst (change m input), None).
Proof.
  intros Hexp Hinput. unfold change. cbn [fst snd managerFields managerOptions managerData managerMetadata].
  intros Hok. now rewrite (resolve_again _ _ _ _ _ _ Hexp Hinput Hok).
Qed.

Lemma the_same_change_again_changes_nothing_witness :
  let m := Examples.created [("a", Examples.shorthandNamespace); ("r", Examples.xRecord None);
                             ("p", Examples.pathLeaf)] noOptions in
  let input := Examples.obj [("r", Examples.obj [("k", Examples.obj [("x", VNum 4)])]);
                             ("a", VStr "hi"); ("p", VStr "foo")] in
  change (fst (change m input)) input = (fst (change m input), None).
Proof.
  intros m input. apply the_same_change_again_changes_nothing.
  - cbn. repeat split.
    intros v longhand Hv. destruct v; intros [= <-]; try reflexivity.
    change (true && (distinctProps (VObj plain props) && true) = true).
    now rewrite Hv.
  - reflexivity.
  - reflexivity.
Defined.


(** * Initial values are committed through the type mapper only *)

Lemma specLeafAt_specLeaf spec path leaf :
  specLeafAt spec path = Some leaf -> specLeaf spec path = true.
Proof.
  revert spec. induction path as [|name rest IH]; intros spec; [discriminate|].
  cbn [specLeafAt specLeaf]. destruct (lookup spec name) as [sp|]; [|discriminate].
  destruct (fields sp) as [fs|]; [apply IH|].
  destruct (entryFields sp); [discriminate|]. now destruct rest.
Qed.

Lemma initializeField_commits_the_initial sp name rest d m leaf v :
  (forall spec d m,
      distinctKeysSpec spec = true -> seedState m ->
      (doInitialize spec d m).(thrown) = None ->
      specLeafAt spec rest = Some leaf ->
      exists mapped,
        typeMapped leaf v mapped
        /\ leafAt spec (doInitialize spec d m).(outData) (doInitialize spec d m).(outMetadata) rest
           = Some (initMetadataField mapped)
        /\ getPath (doInitialize spec d m).(outData) rest = Ok mapped) ->
  distinctKeys sp = true ->
  (getProp m name = Ok VUndefined \/ exists v, getProp m name = Ok (seedNode v)) ->
  (initializeField sp name d m).(thrown) = None ->
  specLeafAt [(name, sp)] (name :: rest) = Some leaf ->
  leaf.(initial) = Some (InitialFunction (Returned v)) ->
  exists mapped,
    typeMapped leaf v mapped
    /\ leafAt [(name, sp)] (initializeField sp name d m).(outData)
              (initializeField sp name d m).(outMetadata) (name :: rest)
       = Some (initMetadataField mapped)
    /\ getPath (initializeField sp name d m).(outData) (name :: rest) = Ok mapped.
Proof.
  intros IH Hsp Hat. cbn [specLeafAt lookup]. rewrite leafAt_cons. cbn [lookup getPath].
  rewrite String.eqb_refl. rewrite initializeField_eq. unfold initializeFieldBody.
  destruct (fields sp) as [fs|] eqn:Hfs; [|destruct (entryFields sp) as [efs|] eqn:Hefs];
    cbn [has]; [| discriminate |].
  - cbn [doInitializeInMaybe].
    destruct (initializedNamespaceOf sp) as [ns|]; [|discriminate].
    destruct (getProp d name) as [ed|]; [|discriminate].
    destruct (setProp d name _) as [d1|] eqn:Ed1; [|discriminate].
    destruct (getProp m name) as [em|] eqn:Em; [|discriminate].
    destruct (setProp m name _) as [m1|] eqn:Em1; [|discriminate].
    rewrite (getProp_setProp_same _ _ _ _ Ed1), (getProp_setProp_same _ _ _ _ Em1).
    set (nd := nullishOr ed ns). set (nm := nullishOr em (seedMetadata ns)).
    destruct (getProp nm "fields") as [mf|] eqn:Emf; [|discriminate].
    change (doInitializeIn initializeField fs nd mf) with (doInitialize fs nd mf).
    cbn [outData outMetadata thrown]. intros Hin Hleaf Hinitial.
    destruct (doInitialize_keepsNonObjects fs nd mf) as (K1 & K2 & _).
    unfold atField, atFields.
    rewrite (getProp_writeBack_exact _ _ _ _ (getProp_setProp_same _ _ _ _ Ed1) K1).
    rewrite (getProp_writeBack_exact _ _ _ (writeBack nm "fields" _)
               (getProp_setProp_same _ _ _ _ Em1)) by apply writeBack_nonObject.
    rewrite (getProp_writeBack_exact _ _ _ _ Emf K2).
    pose proof (distinctKeys_fields _ _ Hsp Hfs) as Hdfs.
    destruct Hat as [Hundef|[v0 Hv]].
    + apply IH; auto.
      assert (em = VUndefined) by congruence. subst em. cbn in Emf.
      injection Emf as <-. apply seedState_mapValues.
    + exfalso. assert (em = seedNode v0) by congruence. subst em. cbn in Emf.
      injection Emf as <-. rewrite (doInitialize_undefined_metadata fs nd Hin) in Hleaf.
      destruct rest; discriminate Hleaf.
  - intros Hok Hleaf Hinitial. destruct rest as [|? ?]; [|discriminate Hleaf].
    injection Hleaf as <-. revert Hok.
    unfold runInitializer, runMapType, runTypeMapper, typeMapped. rewrite Hinitial.
    assert (Hcommit : forall mapped,
               thrown (commitInitial name mapped d m) = None ->
               atField name leafNode (outData (commitInitial name mapped d m))
                       (outMetadata (commitInitial name mapped d m))
               = Some (initMetadataField mapped)
               /\ match getProp (outData (commitInitial name mapped d m)) name with
                  | Ok child => getPath child []
                  | Err e => Err e
                  end = Ok mapped).
    { intros mapped. unfold commitInitial.
      destruct (setProp d name mapped) as [d1|] eqn:Ed1; [|discriminate].
      destruct (setProp m name _) as [m1|] eqn:Em1; [|discriminate].
      intros _. cbn [done outData outMetadata]. unfold atField, leafNode.
      rewrite (getProp_setProp_same _ _ _ _ Ed1), (getProp_setProp_same _ _ _ _ Em1).
      split; reflexivity. }
    destruct (mapType sp) as [typeMapper|].
    + destruct (typeMapper v) as [mapped|] eqn:Emap; [|discriminate].
      intros Hok. exists mapped. split; [reflexivity|]. now apply Hcommit.
    + intros Hok. exists v. split; [reflexivity|]. now apply Hcommit.
Qed.

Lemma specLeafAt_lookup spec sp name rest :
  lookup spec name = Some sp ->
  specLeafAt spec (name :: rest) = specLeafAt [(name, sp)] (name :: rest).
Proof.
  intros El. cbn [specLeafAt lookup]. now rewrite El, String.eqb_refl.
Qed.

Lemma doInitialize_commits_the_initial path leaf v :
  forall spec d m,
    distinctKeysSpec spec = true -> seedState m ->
    (doInitialize spec d m).(thrown) = None ->
    specLeafAt spec path = Some leaf ->
    leaf.(initial) = Some (InitialFunction (Returned v)) ->
    exists mapped,
      typeMapped leaf v mapped
      /\ leafAt spec (doInitialize spec d m).(outData) (doInitialize spec d m).(outMetadata) path
         = Some (initMetadataField mapped)
      /\ getPath (doInitialize spec d m).(outData) path = Ok mapped.
Proof.
  induction path as [|name rest IH]; intros spec d m Hdistinct Hseed Hok Hleaf Hinitial;
    [discriminate|].
  assert (Hl : exists sp, lookup spec name = Some sp).
  { cbn [specLeafAt] in Hleaf. destruct (lookup spec name) as [sp|]; [eauto | discriminate]. }
  destruct Hl as [sp El].
  rewrite (specLeafAt_lookup _ _ _ _ El) in Hleaf.
  rewrite (leafAt_lookup _ _ _ _ _ _ El).
  destruct (distinctKeysSpec_split _ _ _ Hdistinct El) as (pre & post & -> & Hpre & Hpost).
  assert (Hsp : distinctKeys sp = true).
  { apply (distinctKeysSpec_In _ name _ Hdistinct). apply in_or_app. right. now left. }
  destruct (thrown_doInitialize_at pre name sp post d m Hok) as (Hbefore & Hhere & ->).
  set (before := doInitialize pre d m) in *.
  set (here := initializeField sp name (outData before) (outMetadata before)) in *.
  destruct (doInitialize_frame post (outData here) (outMetadata here) name Hpost) as [Fd Fm].
  assert (Hat : getProp (outMetadata before) name = Ok VUndefined
                \/ exists v, getProp (outMetadata before) name = Ok (seedNode v)).
  { destruct (doInitialize_frame pre d m name Hpre) as [_ Gm]. fold before in Gm.
    rewrite Gm. apply Hseed. }
  rewrite (leafAt_ext _ _ _ _ _ name rest Fd Fm).
  cbn [getPath]. rewrite Fd.
  apply (initializeField_commits_the_initial sp name rest _ _ leaf v); auto.
Qed.

Lemma create_commits_the_initial spec options m0 path leaf v :
  distinctKeysSpec spec = true ->
  create spec options = Ok m0 ->
  specLeafAt spec path = Some leaf ->
  leaf.(initial) = Some (InitialFunction (Returned v)) ->
  exists mapped,
    typeMapped leaf v mapped
    /\ leafOf m0 path = Some (initMetadataField mapped)
    /\ getPath m0.(managerData) path = Ok mapped.
Proof.
  intros Hdistinct Hcreate Hleaf Hinitial. revert Hcreate.
  unfold create, initialize, initializeInMaybe. cbn [doInitializeInMaybe].
  change (doInitializeIn initializeField spec emptyObject emptyObject)
    with (doInitialize spec emptyObject emptyObject).
  destruct (thrown (doInitialize spec emptyObject emptyObject)) eqn:Et; [discriminate|].
  intros [= <-]. unfold leafOf. cbn [managerFields managerData managerMetadata].
  apply doInitialize_commits_the_initial; auto. apply seedState_empty.
Qed.

Lemma initializeField_commits leaf name v mapped data metadata :
  leaf.(fields) = None -> leaf.(entryFields) = None ->
  leaf.(initial) = Some (InitialFunction (Returned v)) ->
  typeMapped leaf v mapped ->
  isObject data = true -> isObject metadata = true ->
  (initializeField leaf name data metadata).(thrown) = None
  /\ getProp (initializeField leaf name data metadata).(outData) name = Ok mapped
  /\ getProp (initializeField leaf name data metadata).(outMetadata) name
     = Ok (initMetadataField mapped).
Proof.
  intros Hf He Hi Hmap Hd Hm. rewrite initializeField_eq. unfold initializeFieldBody.
  rewrite Hf, He. cbn [has]. unfold runInitializer, runMapType, runTypeMapper. rewrite Hi.
  assert (Hcommit : (commitInitial name mapped data metadata).(thrown) = None
    /\ getProp (commitInitial name mapped data metadata).(outData) name = Ok mapped
    /\ getProp (commitInitial name mapped data metadata).(outMetadata) name
       = Ok (initMetadataField mapped)).
  { destruct data; try discriminate. destruct metadata; try discriminate.
    unfold commitInitial, getProp. cbn. now rewrite !lookup_assign_same. }
  unfold typeMapped in Hmap. destruct (mapType leaf) as [typeMapper|].
  - now rewrite Hmap.
  - now subst mapped.
Qed.

(** C3: initialization gives a leaf the value of its [initial()], through
    [mapType] when the leaf defines one and through nothing else.  The
    outcome of [doInitialize] and of [initialize] ([create], [reset]) is the
    same without the [fixup] and [validate] of the leaves, so neither is
    called on an initializer's value; the callback of [doInitialize] at a
    leaf is the type mapper followed by the two assignments, which leave the
    mapped value at [data[name]] and its node, [initMetadataField] of the
    mapped value, at [metadata[name]]; and the manager that [create] or [reset] returns
    holds, at the path of every leaf reached through namespaces, the mapped
    value of its [initial()] in the data and that node in the metadata. *)
Theorem initial_values_skip_fixup_and_validate :
  forall spec data metadata specifier inputFieldName v,
    doInitialize (specWithoutChecks spec) data metadata = doInitialize spec data metadata
    /\ initialize (specWithoutChecks spec) = initialize spec
    /\ (specifier.(fields) = None ->
        specifier.(entryFields) = None ->
        specifier.(initial) = Some (InitialFunction (Returned v)) ->
        initializeField specifier inputFieldName data metadata =
          match specifier.(mapType) with
          | None => commitInitial inputFieldName v data metadata
          | Some typeMapper =>
              match typeMapper v with
              | Returned mapped => commitInitial inputFieldName mapped data metadata
              | Threw cause => throw (TypeMapperError inputFieldName cause) data metadata
              end
          end)
    /\ (forall mapped,
          specifier.(fields) = None ->
          specifier.(entryFields) = None ->
          specifier.(initial) = Some (InitialFunction (Returned v)) ->
          typeMapped specifier v mapped ->
          isObject data = true -> isObject metadata = true ->
          let o := initializeField specifier inputFieldName data metadata in
          o.(thrown) = None
          /\ getProp o.(outData) inputFieldName = Ok mapped
          /\ getProp o.(outMetadata) inputFieldName = Ok (initMetadataField mapped))
    /\ (forall options m m0 path leaf initialValue,
          distinctKeysSpec spec = true ->
          create spec options = Ok m0
          \/ (m.(managerFields) = spec /\ reset m = Ok m0) ->
          specLeafAt spec path = Some leaf ->
          leaf.(initial) = Some (InitialFunction (Returned initialValue)) ->
          exists mapped,
            typeMapped leaf initialValue mapped
            /\ leafOf m0 path = Some (initMetadataField mapped)
            /\ getPath m0.(managerData) path = Ok mapped).
Proof.
  intros spec data metadata sp name v. split; [apply doInitialize_withoutChecks|]. split.
  { unfold initialize, initializeInMaybe, doInitializeInMaybe.
    change (doInitializeIn initializeField (specWithoutChecks spec) emptyObject emptyObject)
      with (doInitialize (specWithoutChecks spec) emptyObject emptyObject).
    now rewrite doInitialize_withoutChecks. }
  split.
  { intros Hf He Hi. rewrite initializeField_eq. unfold initializeFieldBody.
    rewrite Hf, He. cbn [has]. unfold runInitializer, runMapType, runTypeMapper. rewrite Hi.
    destruct (mapType sp) as [typeMapper|]; [|reflexivity].
    destruct (typeMapper v); reflexivity. }
  split.
  { intros mapped Hf He Hi Hmap Hd Hm. now apply initializeField_commits with (v := v). }
  intros options m m0 path leaf iv Hdistinct [Hcreate|[Hm Hreset]] Hleaf Hinitial.
  - now apply (create_commits_the_initial spec options m0 path leaf iv).
  - unfold reset in Hreset. rewrite Hm in Hreset.
    now apply (create_commits_the_initial spec (managerOptions m) m0 path leaf iv).
Qed.

(** A leaf under a namespace whose initial value its validator refuses and
    its fixup would correct: [create] commits it through the type mapper
    only. *)
Example initial_is_only_type_mapped :
  let leaf := {| initial := Examples.c (VStr "foo"); fields := None; entryFields := None;
                 shorthand := None; fixup := Some Examples.fixupSlash;
                 validate := Some Examples.validateSlash;
                 mapType := Some Examples.mapTrailingSlash |} in
  let spec := [("n", Examples.namespace [("path", leaf)])] in
  Examples.validateSlash (VStr "foo") = Returned (Some ["no leading slash"])
  /\ getPath (Examples.initialData spec) ["n"; "path"] = Ok (VStr "foo/")
  /\ leafOf (Examples.created spec noOptions) ["n"; "path"]
     = Some (initMetadataField (VStr "foo/")).
Proof. repeat split. Qed.

(** The tests "initial does not pass through fixup" and "initial does not
    pass through validate". *)
Example initial_is_not_fixed_up :
  Examples.dataOf
    (create [("a", {| initial := Examples.c (VStr ""); fields := None; entryFields := None;
                      shorthand := None;
                      fixup := Some (fun _ => Returned (Some {| fixedValue := VStr "fixed";
                                                                fixupMessages := [] |}));
                      validate := None; mapType := None |})]
            noOptions)
  = Ok (Examples.obj [("a", VStr "")]).
Proof. reflexivity. Qed.

Example initial_is_not_validated :
  Examples.dataOf
    (create [("a", {| initial := Examples.c (VStr "bar"); fields := None;
                      entryFields := None; shorthand := None; fixup := None;
                      validate := Some Examples.validateNotBar; mapType := None |})]
            noOptions)
  = Ok (Examples.obj [("a", VStr "bar")]).
Proof. reflexivity. Qed.
